(** * FLIP7 dealer firmware: a shallow embedding of the dealing engine

    The firmware is a single-threaded Arduino sketch whose whole state is a
    set of global variables (five bit-field structs of flags, a handful of
    counters and time stamps, and the function-local [static] variables).
    The embedding keeps that shape: one record [Dealer] holds every global
    the modelled functions touch, each C function becomes a function
    [Dealer -> Dealer], and every value read from the outside world (the
    millisecond clock, the colour sensor, the exit-beam pin) is an explicit
    argument.  Blocking [while] loops consume a list of such readings, one
    per iteration.

    Conventions.
    - Unsigned integers are [Z] with the wrap-around written out
      ([wrap8], [wrap16], [wrap32]).
    - [float] is IEEE binary32, taken from [SpecFloat] with precision 24
      and exponent bound 128 (on the AVR target [double] is 32 bits wide
      as well, so the literals [1.6] and [255.0] are binary32 values).
    - [delay] only lets time pass; time is an input, so it has no
      counterpart here.
    - Writes to the motors and the feed servo are appended to the
      [outputs] log, so that orders of commands can be stated. *)

From Stdlib Require Import ZArith List Bool Lia String.
From Stdlib Require Import Floats.SpecFloat.
From stdpp Require Import base list gmap.
From coqutil Require Import Datatypes.RecordSetters.
Import TriangleBracketNotations.
Import ListNotations.
Open Scope Z_scope.

(** ** Machine integers *)

Definition wrap8 (z : Z) : Z := z mod 256.
Definition wrap16 (z : Z) : Z := z mod 65536.
Definition wrap32 (z : Z) : Z := z mod 4294967296.

(** [unsigned long] subtraction, as in [currentTime - throwStart]. *)
Definition elapsed (now start : Z) : Z := wrap32 (now - start).

(** An [int8_t] stored from an out-of-range value, two's complement. *)
Definition toInt8 (z : Z) : Z :=
  let w := wrap8 z in if w <? 128 then w else w - 256.

(** ** binary32 arithmetic *)

Module F32.
Definition prec : Z := 24.
Definition emax : Z := 128.
Definition t := spec_float.
Definition ofZ (z : Z) : t := binary_normalize prec emax z 0 false.
Definition mul : t -> t -> t := SFmul prec emax.
Definition div : t -> t -> t := SFdiv prec emax.
Definition add : t -> t -> t := SFadd prec emax.
Definition sub : t -> t -> t := SFsub prec emax.
Definition ltb : t -> t -> bool := SFltb.
Definition leb : t -> t -> bool := SFleb.
(** The literal [1.6]: the binary32 value nearest to 8/5. *)
Definition lit_1_6 : t := S754_finite false 13421773 (-23).
Definition lit_255 : t := ofZ 255.
End F32.

Set Primitive Projections.

(** ** Enums.h *)

Inductive dealState :=
| IDLE | INITIALIZING | DEALING | ADVANCING
| AWAITING_PLAYER_DECISION | RESET_DEALR.

Inductive displayState :=
| DISPLAY_UNSET | INTRO_ANIM | SCROLL_PLACE_TAGS_TEXT | SCROLL_PICK_GAME_TEXT
| SELECT_GAME | SELECT_TOOL | DEAL_CARDS | ERROR | STRUGGLE | LOOK_LEFT
| LOOK_RIGHT | LOOK_STRAIGHT | FLIP | SCREENSAVER | CUSTOM_FACE.

Definition dealState_eqb (a b : dealState) : bool :=
  match a, b with
  | IDLE, IDLE | INITIALIZING, INITIALIZING | DEALING, DEALING
  | ADVANCING, ADVANCING
  | AWAITING_PLAYER_DECISION, AWAITING_PLAYER_DECISION
  | RESET_DEALR, RESET_DEALR => true
  | _, _ => false
  end.

Definition displayState_index (d : displayState) : Z :=
  match d with
  | DISPLAY_UNSET => 0 | INTRO_ANIM => 1 | SCROLL_PLACE_TAGS_TEXT => 2
  | SCROLL_PICK_GAME_TEXT => 3 | SELECT_GAME => 4 | SELECT_TOOL => 5
  | DEAL_CARDS => 6 | ERROR => 7 | STRUGGLE => 8 | LOOK_LEFT => 9
  | LOOK_RIGHT => 10 | LOOK_STRAIGHT => 11 | FLIP => 12 | SCREENSAVER => 13
  | CUSTOM_FACE => 14
  end.

Definition displayState_eqb (a b : displayState) : bool :=
  displayState_index a =? displayState_index b.

Record Flags1 := {
  rotatingCW : bool;
  rotatingCCW : bool;
  correctingCCW : bool;
  correctingCW : bool;
  dealInitialized : bool;
  throwingCard : bool;
  cardDealt : bool;
  numCardsLocked : bool
}.

Record Flags2 := {
  blinkingAnimationActive : bool;
  newDealState : bool;
  baselineExceeded : bool;
  fineAdjustCheckStarted : bool;
  initialAnimationInProgress : bool;
  initialAnimationComplete : bool;
  scrollingStarted : bool;
  scrollingComplete : bool
}.

Record Flags3 := {
  cardLeftCraw : bool;
  notFirstRoundOfDeal : bool;
  buttonInitialization : bool;
  advanceOnePlayer : bool;
  gameOver : bool;
  postDeal : bool;
  scrollingMenu : bool;
  insideDealrTools : bool
}.

Record Flags4 := {
  toolsMenuActive : bool;
  rotatingBackwards : bool;
  postDealRemainderHandled : bool;
  fullExit : bool;
  gamesExit : bool;
  toolsExit : bool;
  errorInProgress : bool;
  currentlyPlayerLeftOfDealer : bool
}.

Record Flags5 := {
  playerLeftOfDealerIdentified : bool;
  postDealStartOnRed : bool;
  handlingFlipCard : bool;
  adjustInProgress : bool
}.

(** ** Definitions.h, ColorNames.h *)

Definition CW : bool := true.
Definition CCW : bool := false.

Record RGBColor := { r : Z; g : Z; b : Z; avgC : Z }.

Definition NUM_PLAYER_COLORS : Z := 8.
Definition TOTAL_COLORS : Z := NUM_PLAYER_COLORS + 1.

Definition defaultColors : list RGBColor :=
  [ {| r := 58;  g := 149; b := 48;  avgC := 118 |};
    {| r := 121; g := 105; b := 29;  avgC := 255 |};
    {| r := 73;  g := 157; b := 25;  avgC := 255 |};
    {| r := 35;  g := 132; b := 89;  avgC := 255 |};
    {| r := 41;  g := 173; b := 41;  avgC := 255 |};
    {| r := 54;  g := 138; b := 63;  avgC := 255 |};
    {| r := 53;  g := 136; b := 66;  avgC := 255 |};
    {| r := 58;  g := 108; b := 89;  avgC := 255 |};
    {| r := 37;  g := 108; b := 110; avgC := 255 |} ].

Definition noColor : RGBColor := {| r := 0; g := 0; b := 0; avgC := 0 |}.

#[global] Instance RGBColor_inhabited : Inhabited RGBColor := populate noColor.

(** ** Constants of the sketch *)

Definition EEPROM_VERSION_ADDR : Z := 0.
Definition EEPROM_VERSION : Z := 1.
Definition sizeof_RGBColor : Z := 8.
Definition UV_THRESHOLD_ADDR : Z := TOTAL_COLORS * sizeof_RGBColor + 2.

Definition highSpeed : Z := 255.
Definition mediumSpeed : Z := 220.
Definition lowSpeed : Z := 180.
Definition defaultUVThreshold : Z := 11.
Definition errorTimeout : Z := 6000.
Definition throwExpiration : Z := 4000.
Definition reverseFeedTime : Z := 400.
Definition expressionDuration : Z := 500.
Definition debounceCount : Z := 3.
Definition retractDuration : Z := 1000.

(** ** The outside world *)

(** One reading of the colour sensor, [sensor.getRawData(&r, &g, &b, &c)]. *)
Record RawData := { rawR : Z; rawG : Z; rawB : Z; rawC : Z }.

(** A snapshot of everything the firmware can read: [millis()], the colour
    sensor, and [digitalRead(CARD_SENS)] ([true] is HIGH, no card in the
    beam). *)
Record Reading := { now : Z; sample : RawData; pin : bool }.

(** What the firmware writes to its actuators, the display and the EEPROM.
    [OutRotate] also records the two direction flags as they were when the
    command was issued. *)
Inductive Output :=
| OutRotate (speed : Z) (direction : bool) (wasCW wasCCW : bool)
| OutRotateStop
| OutFeed (angle : Z)
| OutFlywheelOn (forward : bool)
| OutFlywheelOff
| OutFace (word : string)
| OutScroll (text : string)
| OutEeprom (addr : Z) (bytes : list Z).

(** ** The global state

    The globals are grouped as the sketch groups them in its source
    regions; the function-local [static]s form a group of their own. *)

Record Gameplay := {
  currentGame : Z;
  currentToolsMenu : Z;
  remainingRoundsToDeal : Z;
  postCardsToDeal : Z;
  (* currentGamePtr != nullptr, and two members of the object it points to *)
  currentGamePtr : bool;
  turnsToAdvance : Z;
  lockedFace : bool
}.

Record FeedServo := {
  slideStep : Z;
  previousSlideStep : Z
}.

Record Timings := {
  overallTimeoutTag : Z;
  errorStartTime : Z;
  throwStart : Z;
  retractStartTime : Z;
  initializationStart : Z;
  expressionStarted : Z;
  adjustStart : Z
}.

Record Scrolling := {
  textSpeedInterval : Z;
  textStartHoldTime : Z;
  textEndHoldTime : Z;
  scrollDelayTime : Z;
  lastScrollTime : Z;
  scrollIndex : Z;
  messageRepetitions : Z;
  message : string;
  messageLine : Z
}.

Record Colours := {
  colors : list RGBColor;
  activeColor : Z;
  previousActiveColor : Z;
  stableColor : Z;
  totalColorValue : F32.t;
  colorBuffer : list Z;
  colorsSeen : list Z;
  colorsSeenIndexValue : Z;
  totalCardsToDeal : Z;
  colorStatus : list Z;
  colorLeftOfDealer : Z
}.

Record Statics := {
  consecutiveDeals : Z;      (* dealSingleCard *)
  stableColorCount : Z;      (* colorRead *)
  bufferIndex : Z;           (* colorRead *)
  lastDebounceTime : Z;      (* pollCraw *)
  lastStepTime : Z;          (* slideCard *)
  retractStarted : bool;     (* handleThrowingTimeout *)
  retractCompleted : bool;   (* handleThrowingTimeout *)
  blackBaseline : Z;         (* calculateBlackBaseline *)
  isCalculated : bool        (* calculateBlackBaseline *)
}.

Record Dealer := {
  flags1 : Flags1;
  flags2 : Flags2;
  flags3 : Flags3;
  flags4 : Flags4;
  flags5 : Flags5;
  currentDealState : dealState;
  previousDealState : dealState;
  currentDisplayState : displayState;
  previousDisplayState : displayState;
  gameplay : Gameplay;
  servo : FeedServo;
  timings : Timings;
  scrolling : Scrolling;
  colours : Colours;
  statics : Statics;
  stopped : bool;
  cardInCraw : bool;
  previousCardInCraw : bool;
  (* hardware *)
  eeprom : gmap Z Z;
  world : Reading;
  outputs : list Output
}.

Definition emit (o : Output) (s : Dealer) : Dealer :=
  s <| outputs ::= fun l => l ++ [o] |>.

(** A new snapshot of the outside world becomes visible. *)
Definition observe (rd : Reading) (s : Dealer) : Dealer := s <| world := rd |>.

(** The result of code that contains blocking loops.  Each iteration of
    such a loop looks at the next reading; [Stalled] means the readings
    ran out while the loop was still waiting. *)
Inductive Outcome (A : Type) :=
| Done (a : A) (rest : list Reading) (s : Dealer)
| Stalled (s : Dealer).
Arguments Done {A} a rest s.
Arguments Stalled {A} s.

Definition bind {A B} (m : Outcome A)
    (k : A -> list Reading -> Dealer -> Outcome B) : Outcome B :=
  match m with
  | Done a rest s => k a rest s
  | Stalled s => Stalled s
  end.

Notation "'let*' ( a , ins , s ) := m 'in' k" :=
  (bind m (fun a ins s => k))
  (at level 10, a name, ins name, s name, m at level 100, k at level 200).

(** ** Collaborators outside the dealing engine *)

(** The menu and animation screens that [updateDisplay] draws in the
    display states [INTRO_ANIM], [SCROLL_PLACE_TAGS_TEXT],
    [SCROLL_PICK_GAME_TEXT], [SCREENSAVER], [SELECT_GAME], [SELECT_TOOL]. *)
Class Frontend := {
  menuScreen : Dealer -> Dealer;
  (* function-local statics are out of reach of any other function *)
  menuScreen_statics : forall s, statics (menuScreen s) = statics s
}.

(** The virtual methods of [class Game] the engine calls. *)
Class Game := {
  _onMainDealEnd : Dealer -> Dealer;
  requiresFlipCard : bool;
  onGameOver : Dealer -> Dealer;
  handleAwaitDecisionDisplay : Dealer -> Dealer
}.

(** ** EEPROM *)

(** An erased cell reads 255. *)
Definition EEPROM_read (addr : Z) (s : Dealer) : Z := default 255 (eeprom s !! addr).

Fixpoint storeBytes (addr : Z) (bytes : list Z) (m : gmap Z Z) : gmap Z Z :=
  match bytes with
  | [] => m
  | x :: bytes' => storeBytes (addr + 1) bytes' (<[addr := x]> m)
  end.

Definition EEPROM_writeBytes (addr : Z) (bytes : list Z) (s : Dealer) : Dealer :=
  emit (OutEeprom addr bytes) (s <| eeprom ::= storeBytes addr bytes |>).

Definition EEPROM_write (addr value : Z) (s : Dealer) : Dealer :=
  EEPROM_writeBytes addr [wrap8 value] s.

(** A [uint16_t] in memory, low byte first. *)
Definition bytesOfU16 (v : Z) : list Z := [v mod 256; (v / 256) mod 256].
Definition u16OfBytes (lo hi : Z) : Z := lo + 256 * hi.

Definition bytesOfColor (c : RGBColor) : list Z :=
  bytesOfU16 (r c) ++ bytesOfU16 (g c) ++ bytesOfU16 (b c) ++ bytesOfU16 (avgC c).

Definition EEPROM_getU16 (addr : Z) (s : Dealer) : Z :=
  u16OfBytes (EEPROM_read addr s) (EEPROM_read (addr + 1) s).

Definition EEPROM_putU16 (addr v : Z) (s : Dealer) : Dealer :=
  EEPROM_writeBytes addr (bytesOfU16 v) s.

Definition EEPROM_getColor (addr : Z) (s : Dealer) : RGBColor :=
  {| r := EEPROM_getU16 addr s; g := EEPROM_getU16 (addr + 2) s;
     b := EEPROM_getU16 (addr + 4) s; avgC := EEPROM_getU16 (addr + 6) s |}.

Definition EEPROM_putColor (addr : Z) (c : RGBColor) (s : Dealer) : Dealer :=
  EEPROM_writeBytes addr (bytesOfColor c) s.

Definition writeColorToEEPROM (index : Z) (color : RGBColor) (s : Dealer) : Dealer :=
  let addr := index * sizeof_RGBColor + 1 in
  EEPROM_putColor addr color s.

Definition readColorFromEEPROM (index : Z) (s : Dealer) : RGBColor :=
  let addr := index * sizeof_RGBColor + 1 in
  EEPROM_getColor addr s.

Definition getBlackColorFromEEPROM (s : Dealer) : RGBColor := readColorFromEEPROM 0 s.

(** The [for] loop shared by [initializeEEPROM] and [resetEEPROMToDefaults]:
    [i] counts up from [index], [defaults] holds [defaultColors[index ..]]. *)
Fixpoint writeDefaultColors (index : Z) (defaults : list RGBColor) (s : Dealer) : Dealer :=
  match defaults with
  | [] => s
  | tempColor :: defaults' =>
      writeDefaultColors (index + 1) defaults' (writeColorToEEPROM index tempColor s)
  end.

Definition initializeEEPROM (s : Dealer) : Dealer :=
  if negb (EEPROM_read EEPROM_VERSION_ADDR s =? EEPROM_VERSION) then
    let s := writeDefaultColors 0 defaultColors s in
    let s := EEPROM_putU16 UV_THRESHOLD_ADDR defaultUVThreshold s in
    EEPROM_write EEPROM_VERSION_ADDR EEPROM_VERSION s
  else s.

Definition resetEEPROMToDefaults (s : Dealer) : Dealer :=
  let s := writeDefaultColors 0 defaultColors s in
  let s := EEPROM_putU16 UV_THRESHOLD_ADDR defaultUVThreshold s in
  EEPROM_write EEPROM_VERSION_ADDR EEPROM_VERSION s.

Definition loadColorsFromEEPROM (s : Dealer) : Dealer :=
  s <| colours -> colors := map (fun i => readColorFromEEPROM (Z.of_nat i) s)
                     (seq 0 (Z.to_nat TOTAL_COLORS)) |>.

Definition loadStoredUVValueFromEEPROM (s : Dealer) : Z :=
  EEPROM_getU16 UV_THRESHOLD_ADDR s.

Definition calculateBlackBaseline (s : Dealer) : Z * Dealer :=
  let s :=
    if negb (isCalculated (statics s)) then
      let blackColor := getBlackColorFromEEPROM s in
      s <| statics -> blackBaseline := avgC blackColor |>
        <| statics -> isCalculated := true |>
    else s in
  (blackBaseline (statics s), s).

(** ** Colour classifier *)

(** [checkForColorSpike]: the hysteresis on the brightness channel. *)
Definition checkForColorSpike (c blackBaseline : Z) (s : Dealer) : bool * Dealer :=
  let threshold := F32.mul (F32.ofZ blackBaseline) F32.lit_1_6 in
  let s' :=
    if negb (baselineExceeded (flags2 s)) && negb (adjustInProgress (flags5 s))
       && F32.leb threshold (F32.ofZ c)
    then s <| flags2 -> baselineExceeded := true |>
    else if baselineExceeded (flags2 s) && F32.ltb (F32.ofZ c) threshold
    then s <| flags2 -> baselineExceeded := false |>
    else s in
  (baselineExceeded (flags2 s'), s').

(** The squared distance of the normalised sample to one centroid. *)
Definition distance (nR nG nB : F32.t) (col : RGBColor) : F32.t :=
  let dR := F32.sub nR (F32.ofZ (r col)) in
  let dG := F32.sub nG (F32.ofZ (g col)) in
  let dB := F32.sub nB (F32.ofZ (b col)) in
  F32.add (F32.add (F32.mul dR dR) (F32.mul dG dG)) (F32.mul dB dB).

(** The second loop of [colorRead]: [i] runs over [1 .. TOTAL_COLORS - 1],
    [rest] holds [distances[i ..]]. *)
Fixpoint nearest (rest : list F32.t) (i : Z) (closestColor : Z) (minDistance : F32.t) : Z :=
  match rest with
  | [] => closestColor
  | d :: rest' =>
      if F32.ltb d minDistance
      then nearest rest' (i + 1) i d
      else nearest rest' (i + 1) closestColor minDistance
  end.

Definition closestColorOf (table : list RGBColor) (total : F32.t) (raw : RawData) : Z :=
  let normalizedR := F32.mul (F32.div (F32.ofZ (rawR raw)) total) F32.lit_255 in
  let normalizedG := F32.mul (F32.div (F32.ofZ (rawG raw)) total) F32.lit_255 in
  let normalizedB := F32.mul (F32.div (F32.ofZ (rawB raw)) total) F32.lit_255 in
  let distances :=
    map (fun i => distance normalizedR normalizedG normalizedB (table !!! i))
        (seq 0 (Z.to_nat TOTAL_COLORS)) in
  match distances with
  | [] => 0
  | d0 :: rest => nearest rest 1 0 d0
  end.

(** The sum [r + g + b] is formed in 16-bit unsigned arithmetic before it
    is stored in the [float] global. *)
Definition sumOfChannels (raw : RawData) : F32.t :=
  F32.ofZ (wrap16 (rawR raw + rawG raw + rawB raw)).

(** The raw nearest-centroid classification of one sample. *)
Definition classify (table : list RGBColor) (raw : RawData) : Z :=
  closestColorOf table (sumOfChannels raw) raw.

Definition isStableBuffer (buf : list Z) (closestColor : Z) : bool :=
  forallb (fun i => (buf !!! i) =? closestColor) (seq 0 (Z.to_nat debounceCount)).

Definition colorRead (blackBaseline : Z) (s : Dealer) : Dealer :=
  let raw := sample (world s) in
  let s := s <| colours -> totalColorValue := sumOfChannels raw |> in
  let s := snd (checkForColorSpike (rawC raw) blackBaseline s) in
  let closestColor :=
    closestColorOf (colors (colours s)) (totalColorValue (colours s)) raw in
  let s := s <| colours -> colorBuffer ::=
                  <[Z.to_nat (bufferIndex (statics s)) := closestColor]> |> in
  let s := s <| statics -> bufferIndex :=
                  (bufferIndex (statics s) + 1) mod debounceCount |> in
  let s :=
    if isStableBuffer (colorBuffer (colours s)) closestColor
    then s <| colours -> stableColor := closestColor |>
           <| statics -> stableColorCount := wrap8 (stableColorCount (statics s) + 1) |>
    else s <| statics -> stableColorCount := 0 |> in
  if debounceCount <=? stableColorCount (statics s)
  then s <| colours -> activeColor := stableColor (colours s) |>
  else s.

Definition colorScan (s : Dealer) : Dealer :=
  let '(blackBaseline, s) := calculateBlackBaseline s in
  colorRead blackBaseline s.

(** ** Display *)

Definition displayFace (word : string) (s : Dealer) : Dealer := emit (OutFace word) s.

Definition startScrollText (text : string) (start delay end_ : Z) (s : Dealer) : Dealer :=
  s <| scrolling -> message := text |>
    <| scrolling -> textStartHoldTime := start |>
    <| scrolling -> textSpeedInterval := delay |>
    <| scrolling -> textEndHoldTime := end_ |>
    <| scrolling -> lastScrollTime := now (world s) |>
    <| flags2 -> scrollingComplete := false |>
    <| scrolling -> scrollIndex := -1 |>.

Definition strlen (text : string) : Z := Z.of_nat (String.length text).

(** The four characters of [message] starting at [i]. *)
Definition window (i : Z) (text : string) : string :=
  String.substring (Z.to_nat i) 4 text.

Definition updateScrollText (s : Dealer) : Dealer :=
  if displayState_eqb (currentDisplayState s) SCREENSAVER then s
  else
    let currentTime := now (world s) in
    let sc := scrolling s in
    if scrollDelayTime sc <=? elapsed currentTime (lastScrollTime sc) then
      let s := s <| scrolling -> lastScrollTime := currentTime |> in
      if scrollIndex sc =? -1 then
        (emit (OutScroll (window 0 (message sc))) s)
          <| scrolling -> scrollDelayTime := textStartHoldTime sc |>
          <| scrolling -> scrollIndex := scrollIndex sc + 1 |>
      else if scrollIndex sc <? strlen (message sc) - 3 then
        (emit (OutScroll (window (scrollIndex sc) (message sc))) s)
          <| scrolling -> scrollDelayTime := textSpeedInterval sc |>
          <| scrolling -> scrollIndex := scrollIndex sc + 1 |>
      else
        let s := (emit (OutScroll (window (strlen (message sc) - 4) (message sc))) s)
          <| scrolling -> scrollDelayTime := textEndHoldTime sc |>
          <| scrolling -> scrollIndex := -1 |>
          <| scrolling -> messageRepetitions := wrap8 (messageRepetitions sc + 1) |>
          <| scrolling -> messageLine := toInt8 (messageLine sc + 1) |>
          <| flags2 -> scrollingStarted := false |> in
        if 3 <? messageLine (scrolling s)
        then s <| scrolling -> messageLine := 0 |>
        else s
    else s.

Definition stopScrollText (s : Dealer) : Dealer :=
  s <| scrolling -> messageRepetitions := 0 |>
    <| scrolling -> messageLine := 0 |>
    <| scrolling -> lastScrollTime := now (world s) |>
    <| flags2 -> scrollingStarted := false |>
    <| flags2 -> scrollingComplete := true |>
    <| scrolling -> scrollIndex := -1 |>.

Definition EFFORT : string := "X  X".
Definition LEFT : string := ">  >".
Definition RIGHT : string := "<  <".
Definition LOOK_BIG : string := "O  O".

(** [updateDisplay].  The animation frame counters it resets are private to
    the screens behind [menuScreen] and are not part of the state. *)
Definition updateDisplay `{Frontend} (s : Dealer) : Dealer :=
  let s :=
    if negb (displayState_eqb (currentDisplayState s) (previousDisplayState s)) then
      s <| flags2 -> scrollingStarted := false |>
        <| flags2 -> scrollingComplete := false |>
        <| scrolling -> messageRepetitions := 0 |>
        <| scrolling -> scrollIndex := -1 |>
        <| previousDisplayState := currentDisplayState s |>
    else s in
  let s :=
    match currentDisplayState s with
    | INTRO_ANIM | SCROLL_PLACE_TAGS_TEXT | SCROLL_PICK_GAME_TEXT
    | SCREENSAVER | SELECT_GAME | SELECT_TOOL => menuScreen s
    | DEAL_CARDS => displayFace "DEAL" s
    | ERROR =>
        (displayFace "EROR" s)
          <| flags4 -> fullExit := true |>
          <| currentDealState := RESET_DEALR |>
    | STRUGGLE =>
        displayFace EFFORT (s <| timings -> expressionStarted := now (world s) |>)
    | LOOK_LEFT => displayFace LEFT s
    | LOOK_RIGHT => displayFace RIGHT s
    | LOOK_STRAIGHT => displayFace LOOK_BIG s
    | FLIP => displayFace "FLIP" s
    | CUSTOM_FACE => displayFace "CUSTOM" s
    | DISPLAY_UNSET => s
    end in
  if scrollingMenu (flags3 s) then updateScrollText s else s.

(** ** Motion controller *)

Definition rotate `{Frontend} (rotationSpeed : Z) (direction : bool) (s : Dealer) : Dealer :=
  let s := emit (OutRotate rotationSpeed direction
                   (rotatingCW (flags1 s)) (rotatingCCW (flags1 s))) s in
  let s :=
    if direction then
      s <| flags1 -> rotatingCW := true |>
        <| flags1 -> rotatingCCW := false |>
        <| stopped := false |>
        <| currentDisplayState := LOOK_LEFT |>
    else
      s <| flags1 -> rotatingCW := false |>
        <| flags1 -> rotatingCCW := true |>
        <| stopped := false |>
        <| currentDisplayState := LOOK_RIGHT |> in
  updateDisplay s.

Definition rotateStop (s : Dealer) : Dealer :=
  if negb (stopped s) then
    emit OutRotateStop
      (s <| stopped := true |>
         <| flags1 -> rotatingCW := false |>
         <| flags1 -> rotatingCCW := false |>)
  else s.

Definition flywheelOn (direction : bool) (s : Dealer) : Dealer :=
  emit (OutFlywheelOn direction) s.

Definition flywheelOff (s : Dealer) : Dealer := emit OutFlywheelOff s.

Definition feedCard_write (angle : Z) (s : Dealer) : Dealer := emit (OutFeed angle) s.

(** ** Dispensing pipeline *)

Definition pollCraw (s : Dealer) : Dealer :=
  let debounceInterval := 40 in
  let currentTime := now (world s) in
  if debounceInterval <=? elapsed currentTime (lastDebounceTime (statics s)) then
    let s := s <| cardInCraw := pin (world s) |> in
    let s :=
      if negb (Bool.eqb (cardInCraw s) (previousCardInCraw s)) then
        let s :=
          if negb (cardInCraw s) then
            s <| flags3 -> cardLeftCraw := false |>
              <| flags1 -> cardDealt := false |>
          else s <| flags3 -> cardLeftCraw := true |> in
        s <| previousCardInCraw := cardInCraw s |>
      else s in
    s <| statics -> lastDebounceTime := currentTime |>
  else s.

(** [slideCard(uint8_t &amount)]: the new value of [amount] is returned. *)
Definition slideCard (amount : Z) (s : Dealer) : Z * Dealer :=
  let currentTime := now (world s) in
  let step := slideStep (servo s) in
  if step =? 0 then
    let s :=
      if negb (slideStep (servo s) =? previousSlideStep (servo s)) then
        (feedCard_write 150 (s <| servo -> previousSlideStep := slideStep (servo s) |>))
          <| statics -> lastStepTime := currentTime |>
      else s in
    if cardLeftCraw (flags3 s) then
      let s := s <| flags3 -> cardLeftCraw := false |> in
      let amount := wrap8 (amount - 1) in
      if amount <=? 0 then (amount, s <| servo -> slideStep := 1 |>)
      else (amount, s)
    else (amount, s)
  else if step =? 1 then
    (amount,
     (feedCard_write 30 s)
       <| statics -> lastStepTime := currentTime |>
       <| servo -> slideStep := 2 |>)
  else if step =? 2 then
    if negb (slideStep (servo s) =? previousSlideStep (servo s))
       && (reverseFeedTime <=? elapsed currentTime (lastStepTime (statics s)))
    then
      (amount,
       (feedCard_write 90 (s <| servo -> previousSlideStep := slideStep (servo s) |>))
         <| statics -> lastStepTime := currentTime |>
         <| servo -> slideStep := 3 |>)
    else (amount, s)
  else if step =? 3 then
    if negb (slideStep (servo s) =? previousSlideStep (servo s))
       && (100 <=? elapsed currentTime (lastStepTime (statics s)))
    then
      (amount,
       (feedCard_write 90 (s <| servo -> previousSlideStep := -1 |>))
         <| servo -> slideStep := 0 |>
         <| flags1 -> throwingCard := false |>
         <| flags1 -> cardDealt := true |>
         <| timings -> overallTimeoutTag := currentTime |>)
    else (amount, s)
  else (amount, s).

Definition prepareForDeal (s : Dealer) : Dealer :=
  let currentTime := now (world s) in
  (flywheelOn true (s <| flags1 -> throwingCard := true |>))
    <| flags3 -> cardLeftCraw := false |>
    <| timings -> throwStart := currentTime |>
    <| servo -> slideStep := 0 |>
    <| servo -> previousSlideStep := -1 |>.

Definition resetThrowCardState (s : Dealer) : Dealer :=
  (feedCard_write 90 (s <| servo -> previousSlideStep := -1 |>))
    <| servo -> slideStep := 0 |>
    <| flags1 -> throwingCard := false |>
    <| flags1 -> cardDealt := true |>
    <| timings -> overallTimeoutTag := now (world s) |>.

Definition handleThrowingTimeout `{Frontend} (currentTime : Z) (s : Dealer) : Dealer :=
  let s :=
    if (throwExpiration <=? elapsed currentTime (throwStart (timings s)))
       && negb (retractStarted (statics s)) && negb (retractCompleted (statics s))
    then
      flywheelOn false
        (feedCard_write 30
           (s <| statics -> retractStarted := true |>
              <| timings -> retractStartTime := currentTime |>))
    else s in
  let s :=
    if retractStarted (statics s)
       && (retractDuration <=? elapsed currentTime (retractStartTime (timings s)))
    then
      (flywheelOff (feedCard_write 90 (s <| statics -> retractStarted := false |>)))
        <| statics -> retractCompleted := true |>
    else s in
  if retractCompleted (statics s) then
    let s := s <| statics -> retractCompleted := false |> in
    let s :=
      if currentToolsMenu (gameplay s) =? 1 then resetThrowCardState s
      else if currentToolsMenu (gameplay s) =? 2 then
        s <| flags4 -> errorInProgress := true |>
          <| flags4 -> toolsMenuActive := true |>
          <| flags4 -> toolsExit := true |>
          <| currentDisplayState := SELECT_TOOL |>
      else resetThrowCardState s in
    updateDisplay s
  else s.

(** [cardDispensingActions(uint8_t &amount)]. *)
Definition cardDispensingActions `{Frontend} (amount : Z) (s : Dealer) : Z * Dealer :=
  let currentTime := now (world s) in
  let '(amount, s) :=
    if negb (throwingCard (flags1 s)) then (amount, prepareForDeal s)
    else
      let s := pollCraw s in
      let '(amount, s) := slideCard amount s in
      if negb (displayState_eqb (currentDisplayState s) CUSTOM_FACE)
         && (expressionDuration <? elapsed currentTime (expressionStarted (timings s)))
         && negb (handlingFlipCard (flags5 s))
      then (amount, updateDisplay ((stopScrollText s) <| currentDisplayState := STRUGGLE |>))
      else (amount, s) in
  (amount, handleThrowingTimeout currentTime s).

(** The [while (!flags1.cardDealt)] loop of [dealSingleCard].  The flag in
    the result tells whether the loop was left by the [return] on
    [errorInProgress]. *)
Fixpoint dispenseLoop `{Frontend} (amount : Z) (ins : list Reading) (s : Dealer)
  : Outcome (Z * bool) :=
  if cardDealt (flags1 s) then Done (amount, false) ins s
  else
    match ins with
    | [] => Stalled s
    | rd :: ins' =>
        let '(amount, s) := cardDispensingActions amount (observe rd s) in
        if errorInProgress (flags4 s) then Done (amount, true) ins' s
        else dispenseLoop amount ins' s
    end.

Definition dealSingleCard `{Frontend} (amount : Z) (ins : list Reading) (s : Dealer)
  : Outcome unit :=
  let s :=
    if displayState_eqb (currentDisplayState s) LOOK_LEFT
       || displayState_eqb (currentDisplayState s) LOOK_RIGHT
    then updateDisplay (s <| currentDisplayState := LOOK_STRAIGHT |>)
    else s in
  if consecutiveDeals (statics s) <? 3 then
    let* (res, ins, s) := dispenseLoop amount ins s in
    if snd res then Done tt ins s
    else Done tt ins (flywheelOff s)
  else
    Done tt ins (s <| statics -> consecutiveDeals := 0 |>
                   <| currentDealState := ADVANCING |>).

(** ** Timeouts and resets *)

Definition handleFineAdjustTimeout `{Frontend} (s : Dealer) : Dealer :=
  let currentTime := now (world s) in
  if (errorTimeout <? elapsed currentTime (adjustStart (timings s)))
     && negb (dealState_eqb (currentDealState s) AWAITING_PLAYER_DECISION)
  then
    updateDisplay
      (s <| timings -> errorStartTime := currentTime |>
         <| currentDisplayState := ERROR |>
         <| currentDealState := IDLE |>)
  else s.

Definition resetColorsSeen (s : Dealer) : Dealer :=
  s <| colours -> colorsSeen := replicate (Z.to_nat TOTAL_COLORS) (-1) |>
    <| colours -> colorsSeenIndexValue := 0 |>.

Definition resetFlags (s : Dealer) : Dealer :=
  let s := s <| timings -> adjustStart := now (world s) |>
    <| flags3 -> advanceOnePlayer := false |>
    <| flags2 -> baselineExceeded := false |>
    <| flags2 -> blinkingAnimationActive := false |>
    <| flags1 -> dealInitialized := false |>
    <| flags1 -> cardDealt := false |>
    <| flags3 -> cardLeftCraw := false |>
    <| flags1 -> correctingCCW := false |>
    <| flags1 -> correctingCW := false |>
    <| colours -> colorLeftOfDealer := -1 |>
    <| flags4 -> currentlyPlayerLeftOfDealer := false |>
    <| gameplay -> currentGame := 0 |>
    <| gameplay -> currentToolsMenu := 0 |>
    <| flags4 -> errorInProgress := false |>
    <| flags2 -> fineAdjustCheckStarted := false |>
    <| flags3 -> gameOver := false |>
    <| flags3 -> insideDealrTools := false |>
    <| flags2 -> initialAnimationComplete := false |>
    <| flags1 -> numCardsLocked := false |>
    <| flags2 -> newDealState := false |>
    <| flags3 -> notFirstRoundOfDeal := false |>
    <| timings -> overallTimeoutTag := now (world s) |>
    <| flags3 -> postDeal := false |>
    <| flags2 -> initialAnimationInProgress := false |>
    <| flags4 -> postDealRemainderHandled := false |>
    <| flags5 -> postDealStartOnRed := false |>
    <| servo -> previousSlideStep := -1 |>
    <| previousCardInCraw := true |>
    <| flags5 -> playerLeftOfDealerIdentified := false |>
    <| flags4 -> rotatingBackwards := false |> in
  let s := resetColorsSeen s in
  s <| flags1 -> rotatingCW := false |>
    <| flags1 -> rotatingCCW := false |>
    <| gameplay -> remainingRoundsToDeal := 0 |>
    <| stopped := true |>
    <| flags3 -> scrollingMenu := false |>
    <| flags2 -> scrollingStarted := false |>
    <| flags2 -> scrollingComplete := false |>
    <| servo -> slideStep := 0 |>
    <| flags1 -> throwingCard := false |>
    <| colours -> totalCardsToDeal := 0 |>
    <| colours -> colorStatus := replicate (Z.to_nat NUM_PLAYER_COLORS) (-1) |>.

Definition scrollInstructions : bool := true.

Definition handleResetDealrState `{Frontend} (s : Dealer) : Dealer :=
  let s := s <| gameplay -> currentGamePtr := false |> in
  let s := resetFlags s in
  let s :=
    if fullExit (flags4 s) then
      let s := (displayFace "EXIT"
                  (s <| gameplay -> currentGame := 0 |>
                     <| gameplay -> currentToolsMenu := 0 |>))
                 <| flags3 -> buttonInitialization := false |>
                 <| flags4 -> toolsMenuActive := false |> in
      let s :=
        if scrollInstructions then s <| currentDisplayState := SCROLL_PLACE_TAGS_TEXT |>
        else s <| flags2 -> initialAnimationComplete := false |>
               <| currentDisplayState := INTRO_ANIM |> in
      s <| flags4 -> fullExit := false |>
    else if gamesExit (flags4 s) then
      (displayFace "GAME" (s <| gameplay -> currentToolsMenu := 0 |>))
        <| flags3 -> buttonInitialization := true |>
        <| flags4 -> toolsMenuActive := false |>
        <| currentDisplayState := SELECT_GAME |>
        <| flags4 -> gamesExit := false |>
    else if toolsExit (flags4 s) then
      (displayFace "TOOL" (s <| gameplay -> currentGame := 0 |>))
        <| flags3 -> buttonInitialization := true |>
        <| flags4 -> toolsMenuActive := true |>
        <| currentDisplayState := SELECT_TOOL |>
        <| flags4 -> toolsExit := false |>
    else s in
  updateDisplay (s <| currentDealState := IDLE |>).

Definition handleIdleState `{Frontend} (s : Dealer) : Dealer :=
  let s :=
    if newDealState (flags2 s) then
      let s := flywheelOff (s <| flags2 -> newDealState := false |>) in
      let s := if negb (stopped s) then rotateStop s else s in
      let s := if dealInitialized (flags1 s)
               then s <| flags1 -> dealInitialized := false |> else s in
      (resetColorsSeen s)
        <| flags3 -> postDeal := false |>
        <| flags3 -> notFirstRoundOfDeal := false |>
        <| gameplay -> postCardsToDeal := 52 |>
        <| flags1 -> cardDealt := false |>
        <| flags1 -> numCardsLocked := false |>
        <| flags1 -> correctingCW := false |>
        <| flags1 -> correctingCCW := false |>
    else s in
  let s := updateDisplay s in
  if negb (slideStep (servo s) =? 0) then
    s <| servo -> previousSlideStep := -1 |> <| servo -> slideStep := 0 |>
  else s.

(** ** Moving on and off a tag *)

Fixpoint moveOffActiveColor `{Frontend} (rotateClockwise : bool)
    (ins : list Reading) (s : Dealer) : Outcome unit :=
  if negb (activeColor (colours s) =? 0) then
    if errorInProgress (flags4 s) then Done tt ins s
    else
      match ins with
      | [] => Stalled s
      | rd :: ins' =>
          let s := colorScan (observe rd s) in
          let s := if rotateClockwise then rotate lowSpeed CW s
                   else rotate lowSpeed CCW s in
          moveOffActiveColor rotateClockwise ins' s
      end
  else Done tt ins (rotateStop s).

Fixpoint returnToActiveColor `{Frontend} (rotateClockwise : bool)
    (ins : list Reading) (s : Dealer) : Outcome unit :=
  if activeColor (colours s) =? 0 then
    if errorInProgress (flags4 s) then Done tt ins s
    else
      match ins with
      | [] => Stalled s
      | rd :: ins' =>
          let s := colorScan (observe rd s) in
          let s := if rotateClockwise then rotate lowSpeed CW s
                   else rotate lowSpeed CCW s in
          returnToActiveColor rotateClockwise ins' s
      end
  else Done tt ins (rotateStop s).

Definition handleFlipCard `{Frontend} (ins : list Reading) (s : Dealer) : Outcome unit :=
  let s := s <| flags5 -> handlingFlipCard := true |> in
  let* (_u, ins, s) := moveOffActiveColor CCW ins s in
  let s := updateDisplay (s <| currentDisplayState := FLIP |>) in
  let* (_u, ins, s) := dealSingleCard 1 ins s in
  let s := s <| flags1 -> cardDealt := false |>
             <| flags4 -> postDealRemainderHandled := true |> in
  let* (_u, ins, s) := returnToActiveColor CW ins s in
  Done tt ins (s <| flags5 -> handlingFlipCard := false |>).

(** The [while (activeColor < 1)] loop of [handleAdvancingOnePlayer]. *)
Fixpoint advanceToTag `{Frontend} (ins : list Reading) (s : Dealer) : Outcome unit :=
  if activeColor (colours s) <? 1 then
    match ins with
    | [] => Stalled s
    | rd :: ins' => advanceToTag ins' (colorScan (rotate mediumSpeed CW (observe rd s)))
    end
  else Done tt ins s.

Definition handleAdvancingOnePlayer `{Frontend} (ins : list Reading) (s : Dealer)
  : Outcome unit :=
  let* (_u, ins, s) := advanceToTag ins s in
  let s := rotateStop s in
  let s := s <| timings -> adjustStart := now (world s) |>
             <| flags2 -> fineAdjustCheckStarted := false |>
             <| flags1 -> correctingCW := false |>
             <| flags1 -> correctingCCW := false |>
             <| flags5 -> adjustInProgress := false |> in
  let s := s <| gameplay -> turnsToAdvance := wrap8 (turnsToAdvance (gameplay s) - 1) |> in
  if 0 <? turnsToAdvance (gameplay s) then
    let* (_u, ins, s) := moveOffActiveColor CW ins s in
    Done tt ins
      (s <| colours -> previousActiveColor := activeColor (colours s) |>
         <| flags3 -> advanceOnePlayer := true |>
         <| currentDealState := ADVANCING |>)
  else
    Done tt ins
      (s <| flags3 -> advanceOnePlayer := false |>
         <| currentDealState := AWAITING_PLAYER_DECISION |>).

(** ** Error display *)

(** The busy-wait of [displayErrorMessage]. *)
Fixpoint scrollUntilRepeated (ins : list Reading) (s : Dealer) : Outcome unit :=
  if negb (scrollingComplete (flags2 s)) then
    match ins with
    | [] => Stalled s
    | rd :: ins' =>
        let s := updateScrollText (observe rd s) in
        let s := if 0 <? messageRepetitions (scrolling s)
                 then s <| flags2 -> scrollingComplete := true |> else s in
        scrollUntilRepeated ins' s
    end
  else Done tt ins s.

Definition displayErrorMessage `{Frontend} (text : string)
    (ins : list Reading) (s : Dealer) : Outcome unit :=
  let s :=
    if negb (scrollingStarted (flags2 s)) then
      startScrollText text 1000 (textSpeedInterval (scrolling s)) 1000
        (s <| flags2 -> scrollingStarted := true |>)
    else s in
  let* (_u, ins, s) := scrollUntilRepeated ins s in
  Done tt ins (updateDisplay (s <| currentDealState := RESET_DEALR |>)).

(** [while (!flags2.scrollingComplete) displayErrorMessage(text);] with a
    bound on the number of rounds. *)
Fixpoint showError `{Frontend} (rounds : nat) (text : string)
    (ins : list Reading) (s : Dealer) : Outcome unit :=
  if negb (scrollingComplete (flags2 s)) then
    match rounds with
    | O => Stalled s
    | S rounds' =>
        let* (_u, ins, s) := displayErrorMessage text ins s in
        showError rounds' text ins s
    end
  else Done tt ins s.

(** ** Decisions after a tag has been confirmed *)

Definition handleStandardGameDecisionsAfterFineAdjust `{Frontend} `{Game}
    (ins : list Reading) (s : Dealer) : Outcome unit :=
  let s := s <| flags5 -> adjustInProgress := false |>
             <| flags2 -> fineAdjustCheckStarted := false |>
             <| flags1 -> correctingCW := false |>
             <| flags1 -> correctingCCW := false |> in
  let s := rotateStop s in
  let toDealing (s : Dealer) : Dealer :=
    if negb (postDeal (flags3 s)) || negb (postDealRemainderHandled (flags4 s))
    then s <| currentDealState := DEALING |>
    else s in
  let ac := activeColor (colours s) in
  if ac =? 1 then
    let s :=
      if (colorStatus (colours s) !!! Z.to_nat (ac - 1)) =? -1 then
        s <| colours -> colorStatus ::= <[Z.to_nat (ac - 1) := 0]> |>
          <| flags3 -> notFirstRoundOfDeal := true |>
      else s in
    Done tt ins (toDealing s)
  else if 1 <? ac then
    let s :=
      if negb (playerLeftOfDealerIdentified (flags5 s)) then
        s <| flags5 -> playerLeftOfDealerIdentified := true |>
          <| colours -> colorLeftOfDealer := toInt8 ac |>
      else s in
    if (ac =? colorLeftOfDealer (colours s)) && notFirstRoundOfDeal (flags3 s) then
      let s := s <| gameplay -> remainingRoundsToDeal :=
                      wrap8 (remainingRoundsToDeal (gameplay s) - 1) |> in
      if (remainingRoundsToDeal (gameplay s) =? 0) && negb (postDeal (flags3 s)) then
        let s := s <| flags3 -> postDeal := true |> in
        let s := if currentGamePtr (gameplay s) then _onMainDealEnd s else s in
        if negb (gameOver (flags3 s)) && currentGamePtr (gameplay s) && requiresFlipCard
        then
          let* (_u, ins, s) := handleFlipCard ins s in
          if negb (gameOver (flags3 s))
          then Done tt ins (s <| currentDealState := AWAITING_PLAYER_DECISION |>)
          else Done tt ins (toDealing s)
        else if negb (gameOver (flags3 s)) then
          Done tt ins
            (s <| flags4 -> postDealRemainderHandled := true |>
               <| currentDealState := AWAITING_PLAYER_DECISION |>)
        else Done tt ins (toDealing s)
      else Done tt ins (toDealing s)
    else Done tt ins (toDealing s)
  else Done tt ins (toDealing s).

Definition handleAdvancingStateInAdjust `{Frontend} `{Game}
    (ins : list Reading) (s : Dealer) : Outcome unit :=
  let s := s <| flags5 -> adjustInProgress := false |>
             <| flags2 -> fineAdjustCheckStarted := false |>
             <| flags1 -> correctingCW := false |>
             <| flags1 -> correctingCCW := false |> in
  if advanceOnePlayer (flags3 s) then handleAdvancingOnePlayer ins s
  else if (activeColor (colours s) =? 1) && (previousActiveColor (colours s) =? 1)
          && negb (postDeal (flags3 s))
  then
    let s := s <| flags4 -> errorInProgress := true |> in
    let* (_u, ins, s) := showError (S (length ins)) "EROR NEED TAGS" ins s in
    Done tt ins
      (s <| flags2 -> scrollingComplete := false |>
         <| scrolling -> messageRepetitions := 0 |>
         <| flags4 -> fullExit := true |>
         <| currentDealState := RESET_DEALR |>)
  else handleStandardGameDecisionsAfterFineAdjust ins s.

(** The [while (activeColor != 0)] loop of [handleInitializingStateInAdjust]. *)
Fixpoint passNonRedTag `{Frontend} (ins : list Reading) (s : Dealer) : Outcome unit :=
  if negb (activeColor (colours s) =? 0) then
    match ins with
    | [] => Stalled s
    | rd :: ins' => passNonRedTag ins' (rotate highSpeed CCW (colorScan (observe rd s)))
    end
  else Done tt ins s.

Definition handleInitializingStateInAdjust `{Frontend}
    (ins : list Reading) (s : Dealer) : Outcome unit :=
  let ac := activeColor (colours s) in
  if (1 <? ac) && ((colorStatus (colours s) !!! Z.to_nat (ac - 1)) =? -1) then
    let s := s <| timings -> adjustStart := now (world s) |> in
    let* (_u, ins, s) := passNonRedTag ins s in
    Done tt ins
      (s <| flags2 -> fineAdjustCheckStarted := false |>
         <| flags5 -> adjustInProgress := false |>
         <| flags1 -> correctingCW := false |>
         <| flags1 -> correctingCCW := false |>)
  else if ac =? 1 then
    let s := s <| colours -> previousActiveColor := ac |> in
    let s := rotateStop s in
    let s := s <| flags1 -> dealInitialized := true |>
               <| timings -> adjustStart := now (world s) |>
               <| flags2 -> fineAdjustCheckStarted := false |>
               <| flags5 -> adjustInProgress := false |>
               <| flags1 -> correctingCW := false |>
               <| flags1 -> correctingCCW := false |> in
    let s := resetColorsSeen s in
    Done tt ins
      (s <| colours -> totalCardsToDeal := 0 |>
         <| flags3 -> notFirstRoundOfDeal := false |>
         <| currentDealState := ADVANCING |>)
  else Done tt ins s.

(** ** Fine adjustment *)

Definition handleRotationAdjustments `{Frontend} (s : Dealer) : Dealer :=
  if rotatingCW (flags1 s) && negb (correctingCW (flags1 s))
     && negb (correctingCCW (flags1 s))
  then
    let s := rotateStop s in
    let s := s <| flags1 -> correctingCW := false |>
               <| flags1 -> correctingCCW := true |> in
    rotate lowSpeed CCW s
  else if rotatingCCW (flags1 s) && negb (correctingCW (flags1 s))
          && negb (correctingCCW (flags1 s))
  then
    let s := rotateStop s in
    let s := s <| flags1 -> correctingCCW := false |>
               <| flags1 -> correctingCW := true |> in
    rotate lowSpeed CW s
  else s.

(** The [while (activeColor < 1)] loop of [fineAdjustCheck]. *)
Fixpoint resolveSpike `{Frontend} (ins : list Reading) (s : Dealer) : Outcome unit :=
  if activeColor (colours s) <? 1 then
    match ins with
    | [] => Stalled s
    | rd :: ins' =>
        let s := colorScan (observe rd s) in
        let s := handleRotationAdjustments s in
        let s := handleFineAdjustTimeout s in
        resolveSpike ins' s
    end
  else Done tt ins s.

Definition fineAdjustCheck `{Frontend} `{Game} (ins : list Reading) (s : Dealer)
  : Outcome unit :=
  let currentTime := now (world s) in
  let s :=
    if negb (fineAdjustCheckStarted (flags2 s)) then
      let s := s <| timings -> adjustStart := currentTime |>
                 <| flags2 -> fineAdjustCheckStarted := true |> in
      if rotatingCCW (flags1 s) then rotate lowSpeed CCW s
      else rotate lowSpeed CW s
    else s in
  let* (_u, ins, s) := resolveSpike ins s in
  let s := rotateStop s in
  if negb (dealInitialized (flags1 s)) then handleInitializingStateInAdjust ins s
  else handleAdvancingStateInAdjust ins s.

(** ** The states of the orchestrator *)

Definition initializeToRed `{Frontend} `{Game} (ins : list Reading) (s : Dealer)
  : Outcome unit :=
  let currentTime := now (world s) in
  let s :=
    if negb (rotatingCCW (flags1 s)) && negb (adjustInProgress (flags5 s)) then
      (rotate mediumSpeed CCW s) <| timings -> initializationStart := currentTime |>
    else s in
  let s := colorScan s in
  let s :=
    if baselineExceeded (flags2 s) && negb (adjustInProgress (flags5 s)) then
      s <| timings -> adjustStart := now (world s) |>
        <| flags5 -> adjustInProgress := true |>
    else s in
  let* (_u, ins, s) :=
    if adjustInProgress (flags5 s) then fineAdjustCheck ins s else Done tt ins s in
  if errorTimeout <? elapsed currentTime (initializationStart (timings s)) then
    let s := rotateStop s in
    Done tt ins
      (updateDisplay
         (s <| timings -> errorStartTime := currentTime |>
            <| currentDisplayState := ERROR |>
            <| currentDealState := IDLE |>))
  else Done tt ins s.

Definition handleAdvancingState `{Frontend} `{Game} (ins : list Reading) (s : Dealer)
  : Outcome unit :=
  let* (_u, ins, s) :=
    if newDealState (flags2 s) then
      let s := s <| flags5 -> adjustInProgress := false |>
                 <| flags2 -> newDealState := false |> in
      let s :=
        if negb (activeColor (colours s) =? 0)
        then s <| colours -> previousActiveColor := activeColor (colours s) |>
        else s in
      let s :=
        if negb (postDealRemainderHandled (flags4 s)) && negb (postDeal (flags3 s)) then
          if remainingRoundsToDeal (gameplay s) =? 0 then
            s <| flags3 -> postDeal := true |>
              <| flags4 -> rotatingBackwards := false |>
          else s
        else s in
      if rotatingBackwards (flags4 s) then moveOffActiveColor CCW ins s
      else moveOffActiveColor CW ins s
    else Done tt ins s in
  let s :=
    if (activeColor (colours s) =? 0) && negb (adjustInProgress (flags5 s)) then
      if rotatingBackwards (flags4 s) then rotate highSpeed CCW s
      else rotate highSpeed CW s
    else s in
  let s := colorScan s in
  let s :=
    if baselineExceeded (flags2 s) && negb (adjustInProgress (flags5 s)) then
      s <| timings -> adjustStart := now (world s) |>
        <| flags5 -> adjustInProgress := true |>
    else s in
  if adjustInProgress (flags5 s) then fineAdjustCheck ins s else Done tt ins s.

Definition handleStandardGameRemainderCards `{Frontend} `{Game}
    (ins : list Reading) (s : Dealer) : Outcome unit :=
  if currentGamePtr (gameplay s) && requiresFlipCard then handleFlipCard ins s
  else Done tt ins (s <| flags4 -> postDealRemainderHandled := true |>).

(** The [while] loop of [handlePostDealGameplay]. *)
Fixpoint returnToFirstPlayer `{Frontend} (ins : list Reading) (s : Dealer) : Outcome unit :=
  if (activeColor (colours s) <? 2) && negb (previousActiveColor (colours s) =? 1) then
    match ins with
    | [] => Stalled s
    | rd :: ins' =>
        returnToFirstPlayer ins' (rotate mediumSpeed CW (colorScan (observe rd s)))
    end
  else Done tt ins s.

Definition handlePostDealGameplay `{Frontend} `{Game} (ins : list Reading) (s : Dealer)
  : Outcome unit :=
  let s := s <| flags5 -> postDealStartOnRed := false |> in
  let* (_u, ins, s) := returnToFirstPlayer ins s in
  let s := rotateStop s in
  if negb (postDealRemainderHandled (flags4 s))
  then handleStandardGameRemainderCards ins s
  else Done tt ins (s <| currentDealState := AWAITING_PLAYER_DECISION |>).

Definition handleToolsDealing `{Frontend} (ins : list Reading) (s : Dealer) : Outcome unit :=
  if currentToolsMenu (gameplay s) =? 0 then dealSingleCard 1 ins s
  else Done tt ins s.

Definition handleToolsAdvancingDecisions `{Frontend} (s : Dealer) : Dealer :=
  if currentToolsMenu (gameplay s) =? 0 then
    updateDisplay
      ((displayFace "DELT" s)
         <| currentDealState := IDLE |>
         <| currentDisplayState := SELECT_TOOL |>
         <| flags3 -> insideDealrTools := false |>)
  else s.

Definition handleDealingState `{Frontend} `{Game} (ins : list Reading) (s : Dealer)
  : Outcome unit :=
  if postDeal (flags3 s) then handlePostDealGameplay ins s
  else if negb (dealInitialized (flags1 s)) then initializeToRed ins s
  else
    let* (_u, ins, s) :=
      if dealInitialized (flags1 s) && negb (cardDealt (flags1 s)) then
        if toolsMenuActive (flags4 s) then handleToolsDealing ins s
        else dealSingleCard 1 ins s
      else Done tt ins s in
    if dealInitialized (flags1 s) && cardDealt (flags1 s) then
      let s := s <| flags1 -> cardDealt := false |> in
      if toolsMenuActive (flags4 s) then Done tt ins (handleToolsAdvancingDecisions s)
      else Done tt ins (s <| currentDealState := ADVANCING |>)
    else Done tt ins s.

Definition handleGameOver `{Frontend} (ins : list Reading) (s : Dealer) : Outcome unit :=
  let* (_u, ins, s) := moveOffActiveColor CW ins s in
  Done tt ins
    (updateDisplay
       (s <| gameplay -> currentGamePtr := false |>
          <| flags3 -> gameOver := false |>
          <| flags4 -> toolsMenuActive := false |>
          <| flags4 -> gamesExit := true |>
          <| currentDealState := RESET_DEALR |>
          <| currentDisplayState := SELECT_GAME |>)).

Definition handleAwaitingPlayerDecision `{Game} (s : Dealer) : Dealer :=
  if postDeal (flags3 s) && (postCardsToDeal (gameplay s) <=? 0) then
    (if currentGamePtr (gameplay s) then onGameOver s else s)
      <| flags3 -> gameOver := true |>
  else if currentGamePtr (gameplay s) then handleAwaitDecisionDisplay s
  else displayFace "?" s.

(** One pass of [checkState]; the snapshot in [world] is the one taken at
    the start of the pass. *)
Definition checkState `{Frontend} `{Game} (ins : list Reading) (s : Dealer)
  : Outcome unit :=
  let currentTime := now (world s) in
  let s :=
    if negb (dealState_eqb (currentDealState s) (previousDealState s)) then
      s <| flags2 -> newDealState := true |>
        <| timings -> overallTimeoutTag := currentTime |>
        <| previousDealState := currentDealState s |>
    else s in
  let* (_u, ins, s) :=
    if gameOver (flags3 s) then handleGameOver ins s else Done tt ins s in
  let s :=
    if errorInProgress (flags4 s) then
      updateDisplay (s <| flags4 -> errorInProgress := false |>
                       <| currentDealState := RESET_DEALR |>)
    else s in
  match currentDealState s with
  | DEALING => handleDealingState ins s
  | ADVANCING => handleAdvancingState ins s
  | INITIALIZING => initializeToRed ins s
  | IDLE => Done tt ins (handleIdleState s)
  | AWAITING_PLAYER_DECISION => Done tt ins (handleAwaitingPlayerDecision s)
  | RESET_DEALR => Done tt ins (handleResetDealrState s)
  end.

(** ** The [Game] base class and the state after [setup] *)

Definition onMainDealEnd (s : Dealer) : Dealer :=
  if postCardsToDeal (gameplay s) <=? 0
  then s <| flags3 -> gameOver := true |>
  else s.

(** [Game::resetScrollingMessages], on the globals it touches. *)
Definition resetScrollingMessages (s : Dealer) : Dealer :=
  if lockedFace (gameplay s) then s
  else s <| flags2 -> scrollingComplete := false |>
         <| scrolling -> messageRepetitions := 0 |>
         <| scrolling -> scrollDelayTime := 0 |>.

(** A game that overrides none of [onMainDealEnd], [requiresFlipCard] and
    [onGameOver], as is the case of [Flip7], and whose display method
    leaves the state alone, as [Game::handleAwaitDecisionDisplay] does
    while the face is locked. *)
#[global] Instance BaseGame : Game := {|
  _onMainDealEnd := fun s => resetScrollingMessages (onMainDealEnd s);
  requiresFlipCard := false;
  onGameOver := fun s => s;
  handleAwaitDecisionDisplay := fun s => s
|}.

Definition setDealAmount (amount : Z) (s : Dealer) : Dealer :=
  s <| gameplay -> postCardsToDeal := 127 |>
    <| gameplay -> remainingRoundsToDeal := amount |>.

Definition bootFlags1 : Flags1 := Build_Flags1 false false false false false false false false.
Definition bootFlags2 : Flags2 := Build_Flags2 false false false false false false false false.
Definition bootFlags3 : Flags3 := Build_Flags3 false false false false false false false false.
Definition bootFlags4 : Flags4 := Build_Flags4 false false false false false false false false.
Definition bootFlags5 : Flags5 := Build_Flags5 false false false false.

Definition darkness : Reading :=
  {| now := 0; sample := {| rawR := 0; rawG := 0; rawB := 0; rawC := 0 |}; pin := true |}.

(** The globals as their initialisers and [setup] leave them, for a given
    content of the colour table and of the EEPROM. *)
Definition boot (table : list RGBColor) (rom : gmap Z Z) : Dealer := {|
  flags1 := bootFlags1; flags2 := bootFlags2; flags3 := bootFlags3;
  flags4 := bootFlags4; flags5 := bootFlags5;
  currentDealState := IDLE;
  previousDealState := IDLE;
  currentDisplayState := INTRO_ANIM;
  previousDisplayState := DISPLAY_UNSET;
  gameplay := {| currentGame := 0; currentToolsMenu := 0;
                 remainingRoundsToDeal := 0; postCardsToDeal := 52;
                 currentGamePtr := false; turnsToAdvance := 0;
                 lockedFace := false |};
  servo := {| slideStep := 0; previousSlideStep := -1 |};
  timings := {| overallTimeoutTag := 0; errorStartTime := 0; throwStart := 0;
                retractStartTime := 0; initializationStart := 0;
                expressionStarted := 0; adjustStart := 0 |};
  scrolling := {| textSpeedInterval := 160; textStartHoldTime := 800;
                  textEndHoldTime := 800; scrollDelayTime := 0;
                  lastScrollTime := 0; scrollIndex := -1;
                  messageRepetitions := 0; message := ""; messageLine := 0 |};
  colours := {| colors := table; activeColor := 0; previousActiveColor := 255;
                stableColor := 0; totalColorValue := F32.ofZ 0;
                colorBuffer := [0; 0; 0];
                colorsSeen := replicate (Z.to_nat TOTAL_COLORS) (-1);
                colorsSeenIndexValue := 0; totalCardsToDeal := 0;
                colorStatus := replicate (Z.to_nat NUM_PLAYER_COLORS) (-1);
                colorLeftOfDealer := 0 |};
  statics := {| consecutiveDeals := 0; stableColorCount := 0; bufferIndex := 0;
                lastDebounceTime := 0; lastStepTime := 0;
                retractStarted := false; retractCompleted := false;
                blackBaseline := 0; isCalculated := false |};
  stopped := true;
  cardInCraw := true;
  previousCardInCraw := true;
  eeprom := rom;
  world := darkness;
  outputs := []
|}.

(** A front end whose menu screens leave the engine alone; it only serves
    to run the engine on concrete inputs. *)
Definition silentFrontend : Frontend :=
  {| menuScreen := fun s => s; menuScreen_statics := fun s => eq_refl |}.

(** ** Auxiliary notions used to state the properties *)

(** Successive calls of [colorRead], each on a fresh reading. *)
Definition colorReads (blackBaseline : Z) (rds : list Reading) (s : Dealer) : Dealer :=
  fold_left (fun s rd => colorRead blackBaseline (observe rd s)) rds s.

(** The length of the longest run of equal consecutive elements. *)
Fixpoint longestRunFrom (prev : Z) (cur best : nat) (l : list Z) : nat :=
  match l with
  | [] => Nat.max cur best
  | x :: l' =>
      if x =? prev then longestRunFrom prev (S cur) best l'
      else longestRunFrom x 1 (Nat.max cur best) l'
  end.

Definition longestRun (l : list Z) : nat :=
  match l with
  | [] => 0%nat
  | x :: l' => longestRunFrom x 1 0 l'
  end.

(** The part of the state the debouncer of [colorRead] works on. *)
Record Debounce := {
  dBuffer : list Z; dIndex : Z; dCount : Z; dStable : Z; dActive : Z
}.

Definition debounceOf (s : Dealer) : Debounce :=
  {| dBuffer := colorBuffer (colours s); dIndex := bufferIndex (statics s);
     dCount := stableColorCount (statics s); dStable := stableColor (colours s);
     dActive := activeColor (colours s) |}.

(** One call of [colorRead] seen on the debouncer alone, [c] being the raw
    classification of the sample. *)
Definition debounceStep (d : Debounce) (c : Z) : Debounce :=
  let buf := <[Z.to_nat (dIndex d) := c]> (dBuffer d) in
  let st := isStableBuffer buf c in
  let cnt := if st then wrap8 (dCount d + 1) else 0 in
  let stab := if st then c else dStable d in
  {| dBuffer := buf; dIndex := (dIndex d + 1) mod debounceCount;
     dCount := cnt; dStable := stab;
     dActive := if debounceCount <=? cnt then stab else dActive d |}.

(** The debouncer's representation invariant. *)
Definition debounceWf (d : Debounce) : Prop :=
  length (dBuffer d) = 3%nat /\ 0 <= dIndex d < 3 /\ 0 <= dCount d < 256.

Ltac rsimpl :=
  cbn [apply_update constant fst snd
       rotatingCW rotatingCCW correctingCCW correctingCW dealInitialized
       throwingCard cardDealt numCardsLocked blinkingAnimationActive
       newDealState baselineExceeded fineAdjustCheckStarted
       initialAnimationInProgress initialAnimationComplete scrollingStarted
       scrollingComplete cardLeftCraw notFirstRoundOfDeal
       buttonInitialization advanceOnePlayer gameOver postDeal scrollingMenu
       insideDealrTools toolsMenuActive rotatingBackwards
       postDealRemainderHandled fullExit gamesExit toolsExit errorInProgress
       currentlyPlayerLeftOfDealer playerLeftOfDealerIdentified
       postDealStartOnRed handlingFlipCard adjustInProgress currentGame
       currentToolsMenu remainingRoundsToDeal postCardsToDeal currentGamePtr
       turnsToAdvance lockedFace slideStep previousSlideStep
       overallTimeoutTag errorStartTime throwStart retractStartTime
       initializationStart expressionStarted adjustStart textSpeedInterval
       textStartHoldTime textEndHoldTime scrollDelayTime lastScrollTime
       scrollIndex messageRepetitions message messageLine colors activeColor
       previousActiveColor stableColor totalColorValue colorBuffer
       colorsSeen colorsSeenIndexValue totalCardsToDeal colorStatus
       colorLeftOfDealer consecutiveDeals stableColorCount bufferIndex
       lastDebounceTime lastStepTime retractStarted retractCompleted
       blackBaseline isCalculated flags1 flags2 flags3 flags4 flags5
       currentDealState previousDealState currentDisplayState
       previousDisplayState gameplay servo timings scrolling colours statics
       stopped cardInCraw previousCardInCraw eeprom world outputs
       now sample pin emit observe
       feedCard_write flywheelOn flywheelOff displayFace] in *;
  try unfold constant in *;
  unfold rotatingCW, rotatingCCW, correctingCCW, correctingCW,
       dealInitialized, throwingCard, cardDealt, numCardsLocked,
       blinkingAnimationActive, newDealState, baselineExceeded,
       fineAdjustCheckStarted, initialAnimationInProgress,
       initialAnimationComplete, scrollingStarted, scrollingComplete,
       cardLeftCraw, notFirstRoundOfDeal, buttonInitialization,
       advanceOnePlayer, gameOver, postDeal, scrollingMenu,
       insideDealrTools, toolsMenuActive, rotatingBackwards,
       postDealRemainderHandled, fullExit, gamesExit, toolsExit,
       errorInProgress, currentlyPlayerLeftOfDealer,
       playerLeftOfDealerIdentified, postDealStartOnRed, handlingFlipCard,
       adjustInProgress, currentGame, currentToolsMenu,
       remainingRoundsToDeal, postCardsToDeal, currentGamePtr,
       turnsToAdvance, lockedFace, slideStep, previousSlideStep,
       overallTimeoutTag, errorStartTime, throwStart, retractStartTime,
       initializationStart, expressionStarted, adjustStart,
       textSpeedInterval, textStartHoldTime, textEndHoldTime,
       scrollDelayTime, lastScrollTime, scrollIndex, messageRepetitions,
       message, messageLine, colors, activeColor, previousActiveColor,
       stableColor, totalColorValue, colorBuffer, colorsSeen,
       colorsSeenIndexValue, totalCardsToDeal, colorStatus,
       colorLeftOfDealer, consecutiveDeals, stableColorCount, bufferIndex,
       lastDebounceTime, lastStepTime, retractStarted, retractCompleted,
       blackBaseline, isCalculated, flags1, flags2, flags3, flags4, flags5,
       currentDealState, previousDealState, currentDisplayState,
       previousDisplayState, gameplay, servo, timings, scrolling, colours,
       statics, stopped, cardInCraw, previousCardInCraw, eeprom, world,
       outputs, now, sample, pin in *.


(** The brightness flags returned by successive calls of
    [checkForColorSpike] on the readings [cs]. *)
Fixpoint spikeTrace (blackBaseline : Z) (cs : list Z) (s : Dealer) : list bool :=
  match cs with
  | [] => []
  | c :: cs' =>
      let '(flag, s') := checkForColorSpike c blackBaseline s in
      flag :: spikeTrace blackBaseline cs' s'
  end.

(** The flag [checkForColorSpike] returns, from the two flags it reads. *)
Definition spikeNext (exceeded adjusting : bool) (c blackBaseline : Z) : bool :=
  let threshold := F32.mul (F32.ofZ blackBaseline) F32.lit_1_6 in
  if negb exceeded && negb adjusting && F32.leb threshold (F32.ofZ c) then true
  else if exceeded && F32.ltb (F32.ofZ c) threshold then false
  else exceeded.

(** The same flags, computed from the two flags [checkForColorSpike] reads. *)
Fixpoint spikeFlags (exceeded adjusting : bool) (bl : Z) (cs : list Z) : list bool :=
  match cs with
  | [] => []
  | c :: cs' =>
      let flag := spikeNext exceeded adjusting c bl in
      flag :: spikeFlags flag adjusting bl cs'
  end.

(** The classified identities index the colour table. *)
Definition classifierRange (s : Dealer) : Prop :=
  0 <= activeColor (colours s) < TOTAL_COLORS
  /\ 0 <= stableColor (colours s) < TOTAL_COLORS.

(** Readings used as concrete inputs: the sensor over the red tag and over
    the bare surface, both as the default table describes them. *)
Definition overRed (t : Z) : Reading :=
  {| now := t; sample := {| rawR := 121; rawG := 105; rawB := 29; rawC := 255 |};
     pin := true |}.

Definition overBlack (t : Z) : Reading :=
  {| now := t; sample := {| rawR := 58; rawG := 149; rawB := 48; rawC := 118 |};
     pin := true |}.

Definition factory : Dealer := boot defaultColors ∅.

(** A deal under way: the state after [setup] with the deal state and the
    clock set. *)
Definition during (st : dealState) (t : Z) : Dealer :=
  observe (overBlack t) (factory <| currentDealState := st |>).

(** The EEPROM commands [initializeEEPROM] issues on a version mismatch. *)
Definition defaultWrites : list Output :=
  map (fun i => OutEeprom (Z.of_nat i * sizeof_RGBColor + 1)
                  (bytesOfColor (defaultColors !!! i)))
      (seq 0 (Z.to_nat TOTAL_COLORS))
  ++ [OutEeprom UV_THRESHOLD_ADDR (bytesOfU16 defaultUVThreshold);
      OutEeprom EEPROM_VERSION_ADDR [EEPROM_VERSION]].

(** Every field fits a [uint16_t]. *)
Definition colorInRange (c : RGBColor) : Prop :=
  0 <= r c < 65536 /\ 0 <= g c < 65536 /\ 0 <= b c < 65536 /\ 0 <= avgC c < 65536.

(** [Game::dispenseCards]. *)
Definition dispenseCards `{Frontend} (amount : Z) (ins : list Reading) (s : Dealer)
  : Outcome unit :=
  let* (_u, ins, s) := dealSingleCard amount ins s in
  Done tt ins (s <| flags1 -> cardDealt := false |>).

(** The state an outcome ends in, whether the readings sufficed or not. *)
Definition finalState {A} (o : Outcome A) : Dealer :=
  match o with
  | Done _ _ s => s
  | Stalled s => s
  end.

(** The readings during one dispensing operation that starts at time [t]:
    the card enters the exit beam and leaves it again, then the feed servo
    is reversed and stopped. *)
Definition cardPasses (t : Z) : list Reading :=
  [ {| now := t;       sample := sample (overBlack 0); pin := true |};
    {| now := t + 50;  sample := sample (overBlack 0); pin := false |};
    {| now := t + 100; sample := sample (overBlack 0); pin := true |};
    {| now := t + 110; sample := sample (overBlack 0); pin := true |};
    {| now := t + 600; sample := sample (overBlack 0); pin := true |};
    {| now := t + 710; sample := sample (overBlack 0); pin := true |} ].

(** The readings when no card ever reaches the exit beam. *)
Definition cardStuck (t : Z) : list Reading :=
  [ {| now := t;        sample := sample (overBlack 0); pin := true |};
    {| now := t + 4000; sample := sample (overBlack 0); pin := true |};
    {| now := t + 5000; sample := sample (overBlack 0); pin := true |} ].

(** A state ready to dispense at a tag: initialised, in [DEALING]. *)
Definition readyToDeal : Dealer :=
  (during DEALING 0) <| flags1 -> dealInitialized := true |>.

(** [n] calls of [Game::dispenseCards] in a row, with no advance between
    them. *)
Fixpoint dealsInARow `{Frontend} (n : nat) (amount : Z) (ins : list Reading)
    (s : Dealer) : Outcome unit :=
  match n with
  | O => Done tt ins s
  | S n' =>
      let* (_u, ins, s) := dispenseCards amount ins s in
      dealsInARow n' amount ins s
  end.

(** The readings not consumed by a computation. *)
Definition unread {A} (o : Outcome A) : option (list Reading) :=
  match o with
  | Done _ rest _ => Some rest
  | Stalled _ => None
  end.

(** What the loop of [dealSingleCard] leaves in [amount]. *)
Definition amountLeft (o : Outcome (Z * bool)) : option Z :=
  match o with
  | Done (a, _) _ _ => Some a
  | Stalled _ => None
  end.

(** The number of times the feed servo was engaged forward. *)
Definition isFeedForward (o : Output) : bool :=
  match o with
  | OutFeed angle => angle =? 150
  | _ => false
  end.

Definition feedsForward (out : list Output) : nat :=
  length (List.filter isFeedForward out).

(** The display states in which [updateDisplay] shows a face. *)
Definition isFace (d : displayState) : bool :=
  match d with
  | DEAL_CARDS | STRUGGLE | LOOK_LEFT | LOOK_RIGHT | LOOK_STRAIGHT | FLIP
  | CUSTOM_FACE | DISPLAY_UNSET => true
  | _ => false
  end.

(** What holds between the calls of [cardDispensingActions] in the loop of
    [dealSingleCard], for a throw started at [t0] with [amount] cards still
    to be confirmed by the exit beam: no retraction is under way, and
    either the slide sequence is running, at step 0 while cards are
    outstanding and beyond it once none is, or it has completed. *)
Definition dispensingInv (t0 amount : Z) (s : Dealer) : Prop :=
  retractStarted (statics s) = false
  /\ retractCompleted (statics s) = false
  /\ throwStart (timings s) = t0
  /\ ((throwingCard (flags1 s) = true /\ cardDealt (flags1 s) = false
       /\ ((slideStep (servo s) = 0 /\ 1 <= amount <= 255)
           \/ (1 <= slideStep (servo s) <= 3 /\ amount = 0)))
      \/ (throwingCard (flags1 s) = false /\ cardDealt (flags1 s) = true
          /\ amount = 0)).

(** The variables of the round accounting; of [colorStatus] only the entry
    of the reference tag is read. *)
Record Accounting := {
  aRemaining : Z;
  aPostDeal : bool;
  aNotFirst : bool;
  aIdentified : bool;
  aLeftOfDealer : Z;
  aRedStatus : option Z
}.

Definition accounting (s : Dealer) : Accounting := {|
  aRemaining := remainingRoundsToDeal (gameplay s);
  aPostDeal := postDeal (flags3 s);
  aNotFirst := notFirstRoundOfDeal (flags3 s);
  aIdentified := playerLeftOfDealerIdentified (flags5 s);
  aLeftOfDealer := colorLeftOfDealer (colours s);
  aRedStatus := colorStatus (colours s) !! 0%nat
|}.

(** The decisions taken when the tag [ac] has been confirmed. *)
Definition confirmTag `{Frontend} `{Game} (ac : Z) (ins : list Reading) (s : Dealer)
  : Dealer :=
  finalState
    (handleStandardGameDecisionsAfterFineAdjust ins (s <| colours -> activeColor := ac |>)).

(** The tags around the table, in the order in which the dealer meets them
    after it has initialised on the reference tag: [lap] lists one turn. *)
Definition tagAt (lap : list Z) (i : nat) : Z := nth (i mod length lap) lap 0.

(** [dealtAfter lap s0 k s]: [s] is reached from [s0] by [k] confirmations
    along [lap]; whatever runs between two confirmations leaves the
    accounting variables alone. *)
Inductive dealtAfter `{Frontend} `{Game} (lap : list Z) (s0 : Dealer)
  : nat -> Dealer -> Prop :=
| dealt_O : dealtAfter lap s0 O s0
| dealt_S k s s1 ins :
    dealtAfter lap s0 k s ->
    accounting s1 = accounting s ->
    dealtAfter lap s0 (S k) (confirmTag (tagAt lap k) ins s1).

(** The same, computed, with nothing between the confirmations. *)
Definition confirmTags `{Frontend} `{Game} (lap : list Z) (k : nat) (s0 : Dealer)
  : Dealer :=
  fold_left (fun s i => confirmTag (tagAt lap i) [] s) (seq 0 k) s0.

(** The accounting variables when a standard deal of [R] rounds starts. *)
Definition dealStart (R : Z) (s : Dealer) : Prop :=
  remainingRoundsToDeal (gameplay s) = R
  /\ postDeal (flags3 s) = false
  /\ notFirstRoundOfDeal (flags3 s) = false
  /\ playerLeftOfDealerIdentified (flags5 s) = false
  /\ colorStatus (colours s) !! 0%nat = Some (-1).

(** The accounting variables after [k] confirmations in a deal of [R]
    rounds along a lap of [L] tags whose first tag is [p1]. *)
Definition accountingAfter (p1 R : Z) (L k : nat) (a : Accounting) : Prop :=
  aRemaining a = R - Z.of_nat ((k - 1) / L)
  /\ aPostDeal a = (k =? Z.to_nat R * L + 1)%nat
  /\ aNotFirst a = (L <=? k)%nat
  /\ aIdentified a = (1 <=? k)%nat
  /\ ((1 <= k)%nat -> aLeftOfDealer a = p1)
  /\ aRedStatus a = Some (if (L <=? k)%nat then 0 else -1).

(** Readings taken at least [gap] milliseconds apart, the first of them
    [gap] milliseconds after [t] at the earliest. *)
Fixpoint spacedFrom (gap t : Z) (ins : list Reading) : Prop :=
  match ins with
  | [] => True
  | rd :: ins' => gap <= now rd - t < 2 ^ 32 /\ spacedFrom gap (now rd) ins'
  end.

(** What [updateScrollText] writes to the display while [text] scrolls by
    once, from the frame at position [i] on. *)
Definition framesFrom (text : string) (i : Z) : list Output :=
  map (fun j => OutScroll (window (i + Z.of_nat j) text))
      (seq 0 (Z.to_nat (strlen text - 3 - i)))
  ++ [OutScroll (window (strlen text - 4) text)].

Definition scrollFrames (text : string) : list Output :=
  OutScroll (window 0 text) :: framesFrom text 0.

(** A display that is up to date and idle, as [updateDisplay] leaves it
    when the display state has changed. *)
Definition displayIdle (s : Dealer) : Prop :=
  previousDisplayState s = currentDisplayState s
  /\ scrollingStarted (flags2 s) = false
  /\ scrollingComplete (flags2 s) = false
  /\ messageRepetitions (scrolling s) = 0.

(** [s'] differs from [s] at most in what the display code and the
    passing of time touch, and in the deal state. *)
Definition displayOnly (s s' : Dealer) : Prop :=
  exists f2 sc out w pd es d,
    s' = s <| flags2 := f2 |> <| scrolling := sc |> <| outputs := out |>
           <| world := w |> <| previousDisplayState := pd |>
           <| timings -> expressionStarted := es |> <| currentDealState := d |>.

(** [text] is scrolling, the next frame being the one at [i], and the
    readings to come are far enough apart for every one of them to move
    the text on. *)
Definition scrollingAt (text : string) (gap i : Z) (s : Dealer) : Prop :=
  displayState_eqb (currentDisplayState s) SCREENSAVER = false
  /\ scrollingComplete (flags2 s) = false
  /\ messageRepetitions (scrolling s) = 0
  /\ message (scrolling s) = text
  /\ scrollIndex (scrolling s) = i
  /\ lastScrollTime (scrolling s) = now (world s)
  /\ scrollDelayTime (scrolling s) <= gap
  /\ textStartHoldTime (scrolling s) <= gap
  /\ textSpeedInterval (scrolling s) <= gap.

(** The dealer has stopped on the reference tag, the tag confirmed before
    it having been the reference tag as well. *)
Definition backOnReference : Dealer :=
  (during ADVANCING 0)
    <| colours -> activeColor := 1 |>
    <| colours -> previousActiveColor := 1 |>
    <| flags1 -> dealInitialized := true |>
    <| currentDisplayState := LOOK_LEFT |>
    <| previousDisplayState := LOOK_LEFT |>.

(** [n] readings over the bare surface, one every second from [t] on. *)
Definition everySecond (t : Z) (n : nat) : list Reading :=
  map (fun i => overBlack (t + 1000 * Z.of_nat (S i))) (seq 0 n).

(** A rotation command issued while the dealer was turning the other
    way: [rotate] logs the two direction flags as it found them. *)
Definition reverses (o : Output) : bool :=
  match o with
  | OutRotate _ direction wasCW wasCCW => if direction then wasCCW else wasCW
  | _ => false
  end.

(** The direction flags agree with [stopped]. *)
Definition motionFlagsConsistent (s : Dealer) : Prop :=
  stopped s = true ->
  rotatingCW (flags1 s) = false /\ rotatingCCW (flags1 s) = false.

(** Case analysis on the condition of a conditional in the goal. *)
Ltac case_if :=
  match goal with
  | |- context [if ?c then _ else _] => destruct c eqn:?
  end.

(** Turns boolean comparisons among the hypotheses into propositions. *)
Ltac reflect_hyps :=
  repeat match goal with
  | H : (_ <=? _) = true |- _ => apply Z.leb_le in H
  | H : (_ <=? _) = false |- _ => apply Z.leb_gt in H
  | H : (_ <? _) = true |- _ => apply Z.ltb_lt in H
  | H : (_ <? _) = false |- _ => apply Z.ltb_ge in H
  | H : (_ =? _) = true |- _ => apply Z.eqb_eq in H
  | H : (_ =? _) = false |- _ => apply Z.eqb_neq in H
  end.

(* ================================================================== *)
(** * Further notions *)

(** An output that only writes to the display. *)
Definition isDisplayOutput (o : Output) : bool :=
  match o with
  | OutFace _ | OutScroll _ => true
  | _ => false
  end.

(** [s'] is [s] with something drawn: the motion flags, the error flag,
    the exits to the menus and the mark of a new deal state are those of
    [s], and the outputs are those of
    [s] followed by writes to the display. *)
Definition onlyDraws (s s' : Dealer) : Prop :=
  flags1 s' = flags1 s
  /\ stopped s' = stopped s
  /\ errorInProgress (flags4 s') = errorInProgress (flags4 s)
  /\ gamesExit (flags4 s') = gamesExit (flags4 s)
  /\ toolsExit (flags4 s') = toolsExit (flags4 s)
  /\ newDealState (flags2 s') = newDealState (flags2 s)
  /\ exists extra,
       outputs s' = outputs s ++ extra
       /\ Forall (fun o => isDisplayOutput o = true) extra.

(** A front end whose menu screens only draw and turn pages: they leave
    the deal state and the request of a full exit alone, and never select
    the error screen. *)
Definition screensOnlyDraw (F : Frontend) : Prop :=
  forall s,
    onlyDraws s (menuScreen s)
    /\ currentDealState (menuScreen s) = currentDealState s
    /\ fullExit (flags4 (menuScreen s)) = fullExit (flags4 s)
    /\ (currentDisplayState s <> ERROR -> currentDisplayState (menuScreen s) <> ERROR).

Definition turnsOnly (speed : Z) (direction : bool) (o : Output) : Prop :=
  match o with
  | OutRotate sp d _ _ => sp = speed /\ d = direction
  | OutRotateStop | OutFace _ | OutScroll _ => True
  | _ => False
  end.

(** Readings over the red tag, one every 10 ms from [t] on. *)
Definition overRedFor (t : Z) (n : nat) : list Reading :=
  map (fun i => overRed (t + 10 * Z.of_nat i)) (seq 0 n).

(** Readings over the bare surface, one every 10 ms from [t] on. *)
Definition overBlackFor (t : Z) (n : nat) : list Reading :=
  map (fun i => overBlack (t + 10 * Z.of_nat i)) (seq 0 n).

(** [s'] has the deal where [s] had it: the deal state, the counters of
    the game and the flags of the groups 3 to 5 are the same. *)
Definition sameDeal (s s' : Dealer) : Prop :=
  gameplay s' = gameplay s /\ flags3 s' = flags3 s /\ flags4 s' = flags4 s
  /\ flags5 s' = flags5 s /\ currentDealState s' = currentDealState s
  /\ previousDealState s' = previousDealState s.

(** The dealer is at rest, and says so. *)
Definition atRest (s : Dealer) : Prop :=
  stopped s = true
  /\ rotatingCW (flags1 s) = false /\ rotatingCCW (flags1 s) = false.

(** The result of a move: what it wrote, and where the deal stands. *)
Definition moveResult (speed : Z) (direction : bool) (s : Dealer) (o : Outcome unit)
    (post : Dealer -> Prop) : Prop :=
  (exists extra,
     outputs (finalState o) = outputs s ++ extra
     /\ Forall (turnsOnly speed direction) extra)
  /\ sameDeal s (finalState o)
  /\ motionFlagsConsistent (finalState o)
  /\ forall rest s', o = Done tt rest s' -> post s'.

(** A command that turns the dealer clockwise, stops it or writes to the
    display. *)
Definition turnsClockwise (o : Output) : Prop :=
  match o with
  | OutRotate _ d _ _ => d = CW
  | OutRotateStop | OutFace _ | OutScroll _ => True
  | _ => False
  end.

(** A command to the card feed or the flywheel, or a write to the
    display. *)
Definition feedsOnly (o : Output) : Prop :=
  match o with
  | OutFeed _ | OutFlywheelOn _ | OutFlywheelOff | OutFace _ | OutScroll _ => True
  | _ => False
  end.

(** [s'] turns as [s] did: the direction flags and [stopped] are those of
    [s], and the outputs are those of [s] followed by commands to the feed
    and the flywheel and writes to the display. *)
Definition keepsMotion (s s' : Dealer) : Prop :=
  rotatingCW (flags1 s') = rotatingCW (flags1 s)
  /\ rotatingCCW (flags1 s') = rotatingCCW (flags1 s)
  /\ stopped s' = stopped s
  /\ exists extra, outputs s' = outputs s ++ extra /\ Forall feedsOnly extra.

(** A stretch of a move of Flip 7: clockwise commands only, the deal where
    it stood, and the motion flags as the post-condition has them. *)
Definition stretch (s : Dealer) (o : Outcome unit) (post : Dealer -> Prop) : Prop :=
  (exists extra,
     outputs (finalState o) = outputs s ++ extra /\ Forall turnsClockwise extra)
  /\ sameDeal s (finalState o)
  /\ forall rest s', o = Done tt rest s' -> post s'.

(** The scans and the scrolling of the text leave the motion alone. *)
Definition motionOf (s s' : Dealer) : Prop :=
  flags1 s' = flags1 s /\ stopped s' = stopped s.

(** The dealer does not turn against the direction [d]. *)
Definition notAgainst (d : bool) (s : Dealer) : Prop :=
  (if d then rotatingCCW (flags1 s) else rotatingCW (flags1 s)) = false.

(** The outputs of [s'] are those of [s] followed by commands none of
    which asks for a direction while the dealer turns the other way. *)
Definition noReversal (s s' : Dealer) : Prop :=
  exists extra, outputs s' = outputs s ++ extra
    /\ Forall (fun o => reverses o = false) extra.

(** The dealer turning clockwise in the middle of a deal. *)
Definition turning : Dealer :=
  backOnReference <| flags1 -> rotatingCW := true |> <| stopped := false |>.

(* ================================================================== *)
(** * The buttons and the menus *)

(** [exitButtonAction]; the menu navigation [goBack], taken when the dealer
    is idle, is a parameter. *)
Definition exitButtonAction (goBack : Dealer -> Dealer) (s : Dealer) : Dealer :=
  if negb (dealState_eqb (currentDealState s) IDLE) then
    let s :=
      if toolsMenuActive (flags4 s) then s <| flags4 -> toolsExit := true |>
      else s <| flags4 -> gamesExit := true |> in
    let s := displayFace "EXIT" s in
    let s := rotateStop s in
    let s := flywheelOff s in
    s <| currentDealState := RESET_DEALR |>
  else goBack s.

Definition timeUntilScreensaverStart : Z := 55000.

Definition checkTimeouts `{Frontend} (s : Dealer) : Dealer :=
  let currentTime := now (world s) in
  if buttonInitialization (flags3 s)
     && dealState_eqb (currentDealState s) IDLE
     && negb (insideDealrTools (flags3 s))
     && (timeUntilScreensaverStart <? elapsed currentTime (overallTimeoutTag (timings s)))
  then
    updateDisplay
      ((stopScrollText s)
         <| flags3 -> buttonInitialization := false |>
         <| flags2 -> blinkingAnimationActive := true |>
         <| currentDisplayState := SCREENSAVER |>
         <| currentDealState := IDLE |>)
  else s.

(** [numToolMenus]: the index of the last tool. *)
Definition numToolMenus : Z := 4.

(** [decreaseSetting] and [increaseSetting]; [currentGame] and
    [currentToolsMenu] are [int8_t], and [gameCount] is what
    [gameRegistry.getGameCount()] returns. *)
Definition decreaseSetting (gameCount : Z) (s : Dealer) : Dealer :=
  if displayState_eqb (currentDisplayState s) SELECT_GAME then
    let s := s <| gameplay -> currentGame := toInt8 (currentGame (gameplay s) - 1) |> in
    if currentGame (gameplay s) <? 0
    then s <| gameplay -> currentGame := toInt8 gameCount |>
    else s
  else if displayState_eqb (currentDisplayState s) SELECT_TOOL then
    let s := s <| gameplay -> currentToolsMenu
                    := toInt8 (currentToolsMenu (gameplay s) - 1) |> in
    if currentToolsMenu (gameplay s) <? 0
    then s <| gameplay -> currentToolsMenu := toInt8 numToolMenus |>
    else s
  else s.

Definition increaseSetting (gameCount : Z) (s : Dealer) : Dealer :=
  if displayState_eqb (currentDisplayState s) SELECT_GAME
     && (0 <=? currentGame (gameplay s)) then
    let s := s <| gameplay -> currentGame := toInt8 (currentGame (gameplay s) + 1) |> in
    if gameCount <? currentGame (gameplay s)
    then s <| gameplay -> currentGame := 0 |>
    else s
  else if displayState_eqb (currentDisplayState s) SELECT_TOOL
          && (0 <=? currentToolsMenu (gameplay s)) then
    let s := s <| gameplay -> currentToolsMenu
                    := toInt8 (currentToolsMenu (gameplay s) + 1) |> in
    if numToolMenus <? currentToolsMenu (gameplay s)
    then s <| gameplay -> currentToolsMenu := 0 |>
    else s
  else s.

(** The entry of the menu on display is one of the menu. *)
Definition selectionInRange (gameCount : Z) (s : Dealer) : Prop :=
  0 <= currentGame (gameplay s) <= gameCount
  /\ 0 <= currentToolsMenu (gameplay s) <= numToolMenus.

(* ================================================================== *)
(** * The registry of games *)

Module GameRegistry.

Definition MAX_GAMES : Z := 10.

(** [games] holds [MAX_GAMES] pointers, [None] for [nullptr]. *)
Record t (G : Type) := { games : list (option G); gameCount : Z }.
Arguments games {G} _.
Arguments gameCount {G} _.

Section Registry.
Context {G : Type}.

(** The constructor, before [registerAllGames]. *)
Definition empty : t G :=
  {| games := replicate (Z.to_nat MAX_GAMES) None; gameCount := 0 |}.

Definition addGame (game : option G) (r : t G) : bool * t G :=
  match game with
  | Some _ =>
      if gameCount r <? MAX_GAMES then
        (true, {| games := <[Z.to_nat (gameCount r) := game]> (games r);
                  gameCount := wrap8 (gameCount r + 1) |})
      else (false, r)
  | None => (false, r)
  end.

Definition getGameCount (r : t G) : Z := gameCount r.

Definition getGame (index : Z) (r : t G) : option G :=
  if index <? gameCount r then default None (games r !! Z.to_nat index)
  else None.

(** The registry holds [gameCount] games, at the first indices. *)
Definition registered (r : t G) : Prop :=
  length (games r) = Z.to_nat MAX_GAMES
  /\ 0 <= gameCount r <= MAX_GAMES
  /\ forall i, 0 <= i < gameCount r -> exists g, getGame i r = Some g.

End Registry.
End GameRegistry.

(* ================================================================== *)
(** * Buttons *)

(** The four statics [checkButtons] keeps for a button; [lastButtonState]
    is [true] for [HIGH], the level of a button that is not pressed. *)
Record ButtonState := {
  lastPress : Z;
  lastButtonState : bool;
  pressTime : Z;
  longPressFlag : bool
}.

Definition resetTagsOnButtonPress (s : Dealer) : Dealer :=
  s <| timings -> overallTimeoutTag := now (world s) |>
    <| scrolling -> scrollDelayTime := 0 |>
    <| flags2 -> scrollingStarted := false |>
    <| flags3 -> scrollingMenu := false |>
    <| scrolling -> messageLine := 0 |>
    <| scrolling -> messageRepetitions := 0 |>
    <| scrolling -> scrollIndex := -1 |>
    <| flags2 -> blinkingAnimationActive := false |>.

(** [checkButton]: [level] is what [digitalRead(buttonPin)] returns, and
    the two callbacks are [None] for [nullptr]. *)
Definition checkButton (level : bool) (longPressDuration : Z)
    (onRelease onLongPress : option (Dealer -> Dealer))
    (b : ButtonState) (s : Dealer) : ButtonState * Dealer :=
  let currentButtonState := level in
  let '(b, s) :=
    if negb currentButtonState then
      let b := if lastButtonState b then b <| pressTime := now (world s) |> else b in
      if negb (longPressFlag b)
         && (longPressDuration <=? elapsed (now (world s)) (pressTime b))
      then
        let b := b <| longPressFlag := true |> in
        match onLongPress with
        | Some action => (b, action (resetTagsOnButtonPress s))
        | None => (b, s)
        end
      else (b, s)
    else (b, s) in
  let '(b, s) :=
    if negb (lastButtonState b) && currentButtonState then
      let b := b <| lastPress := now (world s) |> in
      let s :=
        if negb (longPressFlag b) then
          match onRelease with
          | Some action =>
              let s := action (resetTagsOnButtonPress s) in
              if negb (displayState_eqb (currentDisplayState s) SCROLL_PLACE_TAGS_TEXT)
              then s <| flags3 -> buttonInitialization := true |>
              else s
          | None => s
          end
        else s in
      (b <| longPressFlag := false |>, s)
    else (b, s) in
  (b <| lastButtonState := currentButtonState |>, s).

(** Successive calls of [checkButton] for one button, each with the level
    of the pin and a fresh reading of the clock. *)
Fixpoint pollButton (longPressDuration : Z)
    (onRelease onLongPress : option (Dealer -> Dealer))
    (samples : list (bool * Reading)) (b : ButtonState) (s : Dealer)
  : ButtonState * Dealer :=
  match samples with
  | [] => (b, s)
  | (level, rd) :: samples' =>
      let '(b, s) :=
        checkButton level longPressDuration onRelease onLongPress b (observe rd s) in
      pollButton longPressDuration onRelease onLongPress samples' b s
  end.

(** What a release does to the dealer. *)
Definition released (action : Dealer -> Dealer) (s : Dealer) : Dealer :=
  let s := action (resetTagsOnButtonPress s) in
  if negb (displayState_eqb (currentDisplayState s) SCROLL_PLACE_TAGS_TEXT)
  then s <| flags3 -> buttonInitialization := true |>
  else s.

(** The button held down at the readings [rds]. *)
Definition held (rds : list Reading) : list (bool * Reading) :=
  map (fun rd => (false, rd)) rds.

(** The dealer after the readings [rds] of the clock. *)
Definition observes (rds : list Reading) (s : Dealer) : Dealer :=
  fold_left (fun s rd => observe rd s) rds s.

(** A button that has not been touched since the sketch started. *)
Definition untouched : ButtonState :=
  {| lastPress := 0; lastButtonState := true; pressTime := 0; longPressFlag := false |}.

(* ================================================================== *)
(** * The game Flip 7 *)

(** An [int16_t] stored from an out-of-range value, two's complement. *)
Definition toInt16 (z : Z) : Z :=
  let w := wrap16 z in if w <? 32768 then w else w - 65536.

Module Flip7.

Definition MAX_PLAYERS : Z := NUM_PLAYER_COLORS.

Definition IS_PLAYING : Z := 1.
Definition IS_ACTIVE : Z := 2.
Definition IS_BUST : Z := 4.
Definition IS_DEALT : Z := 8.

Inductive GameState :=
  | STARTUP | DEALSPECIAL | ACTION | PICK | PICKSPECIAL | PICKPLAYER
  | ENTERSCORE | REPORTSCORE | SHOWSCORES | GAMEOVER.

Inductive SpecialState := FREEZE | FLIP3 | NONE.

Inductive CycleDirection := UP | DOWN.

Record GameFlags := {
  isDisplayingSelection : bool;
  isShowingScore : bool;
  isSpinning : bool;
  isDealing : bool;
  isAdjScore : bool;
  adjSign : bool
}.

(** The members of [class Flip7]; the four arrays have [MAX_PLAYERS]
    entries.  An index past the end of an array is undefined behaviour in
    the source: here it reads 0 and writes nothing, and the properties
    below are stated for indices within the arrays. *)
Record t := {
  numPlayers : Z;
  ScoretoWin : Z;
  gameFlags : GameFlags;
  gameState : GameState;
  specialState : SpecialState;
  prevState : GameState;
  playerScores : list Z;
  currentRoundScores : list Z;
  playerColors : list Z;
  playerStatus : list Z;
  currentPlayerIndex : Z;
  startPlayerIndex : Z;
  displayedPlayerIndex : Z;
  returnPlayerStack : list Z;
  stackPointer : Z
}.

Definition minScore : Z := 200.
Definition maxScore : Z := 990.
Definition maxRoundScore : Z := 171.

Definition at_ (l : list Z) (i : Z) : Z := default 0 (l !! Z.to_nat i).

Definition isPlayerPlaying (g : t) (i : Z) : bool :=
  negb (Z.land (at_ (playerStatus g) i) IS_PLAYING =? 0).
Definition isPlayerActive (g : t) (i : Z) : bool :=
  negb (Z.land (at_ (playerStatus g) i) IS_ACTIVE =? 0).
Definition isPlayerBust (g : t) (i : Z) : bool :=
  negb (Z.land (at_ (playerStatus g) i) IS_BUST =? 0).
Definition isPlayerDealt (g : t) (i : Z) : bool :=
  negb (Z.land (at_ (playerStatus g) i) IS_DEALT =? 0).

Definition setRound (playerIndex v : Z) (g : t) : t :=
  g <| currentRoundScores := <[Z.to_nat playerIndex := v]> (currentRoundScores g) |>.

Definition incrementScoreByTen (playerIndex : Z) (g : t) : t :=
  let g :=
    if isAdjScore (gameFlags g) && adjSign (gameFlags g) then
      setRound playerIndex (toInt16 (at_ (currentRoundScores g) playerIndex - 10)) g
    else
      setRound playerIndex (toInt16 (at_ (currentRoundScores g) playerIndex + 10)) g in
  if (maxRoundScore <? at_ (currentRoundScores g) playerIndex)
     || (at_ (currentRoundScores g) playerIndex <? - maxRoundScore)
  then setRound playerIndex 0 g
  else g.

(** The division and the remainder of C++ truncate towards zero. *)
Definition cycleOnesDigit (playerIndex : Z) (g : t) : t :=
  let score := at_ (currentRoundScores g) playerIndex in
  let tens := toInt16 (Z.quot score 10 * 10) in
  let ones := toInt16 (Z.rem score 10) in
  let ones :=
    if isAdjScore (gameFlags g) && adjSign (gameFlags g) then
      if 0 <? score then
        if 0 <? ones then toInt16 (ones - 1) else 9
      else
        if -9 <? ones then toInt16 (ones - 1) else 0
    else
      if 0 <=? score then toInt16 (Z.rem (ones + 1) 10)
      else
        if ones <? 0 then toInt16 (ones + 1) else -9 in
  let g := setRound playerIndex (toInt16 (tens + ones)) g in
  if (maxRoundScore <? at_ (currentRoundScores g) playerIndex)
     || (at_ (currentRoundScores g) playerIndex <? - maxRoundScore)
  then setRound playerIndex tens g
  else g.

(** The loop of [tallyScores], from player [i] on. *)
Fixpoint tallyFrom (i : Z) (n : nat) (g : t) : t :=
  match n with
  | O => g
  | S n' =>
      let g := g <| playerScores
                      := <[Z.to_nat i
                            := toInt16 (at_ (playerScores g) i
                                        + at_ (currentRoundScores g) i)]>
                           (playerScores g) |> in
      let g := if at_ (playerScores g) i <? 0
               then g <| playerScores := <[Z.to_nat i := 0]> (playerScores g) |>
               else g in
      tallyFrom (i + 1) n' g
  end.

Definition tallyScores (g : t) : t :=
  let g := tallyFrom 0 (Z.to_nat (numPlayers g)) g in
  g <| currentRoundScores := replicate (Z.to_nat MAX_PLAYERS) 0 |>.

(** The loop of [checkForWinner], from player [i] on.  The comparisons are
    between an [int16_t] and a [uint16_t]: on the AVR, whose [int] has 16
    bits, the score is converted to unsigned. *)
Fixpoint winnerFrom (i : Z) (n : nat) (winnerIndex highestWinningScore : Z) (g : t) : Z :=
  match n with
  | O => winnerIndex
  | S n' =>
      if (ScoretoWin g <=? wrap16 (at_ (playerScores g) i))
         && (highestWinningScore <? wrap16 (at_ (playerScores g) i))
      then winnerFrom (i + 1) n' (wrap8 i) (wrap16 (at_ (playerScores g) i)) g
      else winnerFrom (i + 1) n' winnerIndex highestWinningScore g
  end.

Definition checkForWinner (g : t) : Z :=
  winnerFrom 0 (Z.to_nat (numPlayers g)) 255 0 g.

(** The loop of [cycleActivePlayer], from the offset [i] on; the result is
    [None] when the function returns [false], leaving [nextPlayerIndex]
    alone, and the new [nextPlayerIndex] otherwise. *)
Fixpoint cycleFrom (i : Z) (n : nat) (currentIndex : Z) (direction : CycleDirection)
    (g : t) : option Z :=
  match n with
  | O => None
  | S n' =>
      let searchIndex :=
        match direction with
        | UP => wrap8 (Z.rem (currentIndex + i) (numPlayers g))
        | DOWN => wrap8 (Z.rem (currentIndex - i + numPlayers g) (numPlayers g))
        end in
      if isPlayerActive g searchIndex then Some searchIndex
      else cycleFrom (i + 1) n' currentIndex direction g
  end.

Definition cycleActivePlayer (currentIndex : Z) (direction : CycleDirection) (g : t)
  : option Z :=
  if numPlayers g =? 0 then None
  else cycleFrom 1 (Z.to_nat (numPlayers g)) currentIndex direction g.

(** The arrays have their size, and the players are at most that many. *)
Definition wf (g : t) : Prop :=
  0 <= numPlayers g <= MAX_PLAYERS
  /\ length (playerScores g) = Z.to_nat MAX_PLAYERS
  /\ length (currentRoundScores g) = Z.to_nat MAX_PLAYERS
  /\ length (playerColors g) = Z.to_nat MAX_PLAYERS
  /\ length (playerStatus g) = Z.to_nat MAX_PLAYERS.

(** The score [cycleOnesDigit] leaves, as a function of the score it
    finds. *)
Definition onesCycled (negative : bool) (score : Z) : Z :=
  let tens := Z.quot score 10 * 10 in
  let ones := Z.rem score 10 in
  let ones :=
    if negative then
      if 0 <? score then (if 0 <? ones then ones - 1 else 9)
      else (if -9 <? ones then ones - 1 else 0)
    else
      if 0 <=? score then Z.rem (ones + 1) 10
      else (if ones <? 0 then ones + 1 else -9) in
  if (maxRoundScore <? tens + ones) || (tens + ones <? - maxRoundScore)
  then tens else tens + ones.

(** The score [incrementScoreByTen] leaves. *)
Definition tenAdded (negative : bool) (score : Z) : Z :=
  let v := if negative then score - 10 else score + 10 in
  if (maxRoundScore <? v) || (v <? - maxRoundScore) then 0 else v.

(** The facts about the two scores, checked for a given score. *)
Definition scoreChecks (negative : bool) (score : Z) : bool :=
  let ones := onesCycled negative score in
  let tens := tenAdded negative score in
  (-171 <=? ones) && (ones <=? 171) && (-171 <=? tens) && (tens <=? 171)
  && (Z.quot ones 10 =? Z.quot score 10)
  && (negative || (score <? 0)
      || (ones =? if (Z.rem score 10 =? 9) || (171 <=? score)
                  then score - Z.rem score 10 else score + 1))
  && (tens =? if negative
              then (if score - 10 <? -171 then 0 else score - 10)
              else (if 171 <? score + 10 then 0 else score + 10)).

(** The [while (activeColor == 0)] loop of [advanceOnePosition]. *)
Fixpoint scanUntilTag (spinning : bool) (ins : list Reading) (s : Dealer)
  : Outcome unit :=
  if activeColor (colours s) =? 0 then
    match ins with
    | [] => Stalled s
    | rd :: ins' =>
        let s := observe rd s in
        let s := if spinning then updateScrollText s else s in
        scanUntilTag spinning ins' (colorScan s)
    end
  else Done tt ins s.

(** [n] calls of [colorScan], each on a fresh reading. *)
Fixpoint colorScans (n : nat) (ins : list Reading) (s : Dealer) : Outcome unit :=
  match n with
  | O => Done tt ins s
  | S n' =>
      match ins with
      | [] => Stalled s
      | rd :: ins' => colorScans n' ins' (colorScan (observe rd s))
      end
  end.

(** [advanceOnePosition]; [spinning] is [gameFlags.isSpinning]. *)
Definition advanceOnePosition `{Frontend} (spinning : bool) (ins : list Reading)
    (s : Dealer) : Outcome unit :=
  let* (_u, ins, s) := moveOffActiveColor CW ins s in
  let s := rotate mediumSpeed CW s in
  let* (_u, ins, s) := scanUntilTag spinning ins s in
  let s := rotateStop s in
  colorScans 15 ins s.

(** The [while (millis() - startTime < spinDuration)] loop of [spin]. *)
Fixpoint spinLoop (startTime spinDuration : Z) (ins : list Reading) (s : Dealer)
  : Outcome unit :=
  match ins with
  | [] => Stalled s
  | rd :: ins' =>
      let s := observe rd s in
      if elapsed (now (world s)) startTime <? spinDuration
      then spinLoop startTime spinDuration ins' (updateScrollText s)
      else Done tt ins' s
  end.

(** [spin], on the dealer; [gameFlags.isSpinning] is set on entry and clear
    on return. *)
Definition spin `{Frontend} (text : string) (spinDuration : Z) (ins : list Reading)
    (s : Dealer) : Outcome unit :=
  let s := startScrollText text (textStartHoldTime (scrolling s))
             (textSpeedInterval (scrolling s)) (textEndHoldTime (scrolling s)) s in
  if spinDuration =? 0 then Done tt ins (stopScrollText s)
  else
    let s := rotate highSpeed CW s in
    let startTime := now (world s) in
    let* (_u, ins, s) := spinLoop startTime spinDuration ins s in
    let s := rotateStop s in
    Done tt ins (stopScrollText s).

(** The player [d] places from [currentIndex] in the direction given,
    among [n] players. *)
Definition placesFrom (currentIndex : Z) (direction : CycleDirection) (n d : Z) : Z :=
  match direction with
  | UP => (currentIndex + d) mod n
  | DOWN => (currentIndex - d) mod n
  end.

(** The total [tallyScores] leaves a player with. *)
Definition tallied (g : t) (i : Z) : Z :=
  let v := toInt16 (at_ (playerScores g) i + at_ (currentRoundScores g) i) in
  if v <? 0 then 0 else v.

(** What the loop of [checkForWinner] knows after the players before
    [i]. *)
Definition winnerSoFar (g : t) (i w h : Z) : Prop :=
  (w = 255 /\ h = 0 /\ forall j, 0 <= j < i -> at_ (playerScores g) j < ScoretoWin g)
  \/ (0 <= w < i /\ h = at_ (playerScores g) w /\ ScoretoWin g <= h
      /\ forall j, 0 <= j < i ->
           at_ (playerScores g) j <= h /\ (at_ (playerScores g) j = h -> w <= j)).

(** The members once [initialize] has run. *)
Definition initialized : t := {|
  numPlayers := 0;
  ScoretoWin := minScore;
  gameFlags := Build_GameFlags false false false false false false;
  gameState := STARTUP;
  specialState := NONE;
  prevState := REPORTSCORE;
  playerScores := replicate (Z.to_nat MAX_PLAYERS) 0;
  currentRoundScores := replicate (Z.to_nat MAX_PLAYERS) 0;
  playerColors := replicate (Z.to_nat MAX_PLAYERS) 0;
  playerStatus := replicate (Z.to_nat MAX_PLAYERS) 0;
  currentPlayerIndex := 0;
  startPlayerIndex := 0;
  displayedPlayerIndex := 0;
  returnPlayerStack := replicate 4 0;
  stackPointer := -1
|}.

(** [n] players, all playing and active, with the scores [round] entered
    for the round. *)
Definition withRound (n : Z) (round : list Z) : t :=
  initialized
    <| numPlayers := n |>
    <| playerStatus := replicate (Z.to_nat n) (Z.lor IS_PLAYING IS_ACTIVE)
                       ++ replicate (Z.to_nat (MAX_PLAYERS - n)) 0 |>
    <| currentRoundScores := round ++ replicate (Z.to_nat MAX_PLAYERS - length round) 0 |>.

(** The game of [withRound] with the totals [totals] on the board. *)
Definition withTotals (n : Z) (totals round : list Z) : t :=
  (withRound n round)
    <| playerScores := totals ++ replicate (Z.to_nat MAX_PLAYERS - length totals) 0 |>.

End Flip7.

(* ================================================================== *)
(** * Proof automation for the definitions above *)

(** A dealer given by its fields. *)
Ltac by_fields s :=
  destruct s as [f1 f2 f3 f4 f5 ds pds disp pdisp gp sv tm sc co st stp cic pcic ee w out];
  destruct gp as [game tool rounds post ptr turns locked].

(** Projections out of updated button states. *)
Ltac bsimpl :=
  cbn [apply_update constant lastPress lastButtonState pressTime longPressFlag
       negb andb world observe] in *;
  try unfold constant in *.

(** Projections out of updated members of Flip 7. *)
Ltac fsimpl :=
  cbn [apply_update constant
       Flip7.numPlayers Flip7.ScoretoWin Flip7.gameFlags Flip7.gameState
       Flip7.specialState Flip7.prevState Flip7.playerScores
       Flip7.currentRoundScores Flip7.playerColors Flip7.playerStatus
       Flip7.currentPlayerIndex Flip7.startPlayerIndex Flip7.displayedPlayerIndex
       Flip7.returnPlayerStack Flip7.stackPointer Flip7.isDisplayingSelection
       Flip7.isShowingScore Flip7.isSpinning Flip7.isDealing Flip7.isAdjScore
       Flip7.adjSign Flip7.setRound] in *;
  try unfold constant in *.
(* ================================================================== *)
(** * Properties *)

(** ** Colour classifier: debouncing *)

Section Debouncing.

Lemma checkForColorSpike_frame c bl s :
  exists v, snd (checkForColorSpike c bl s) = s <| flags2 -> baselineExceeded := v |>.
Proof.
  unfold checkForColorSpike.
  destruct (negb _ && negb _ && F32.leb _ _); [eexists; reflexivity|].
  destruct (baselineExceeded _ && F32.ltb _ _); [eexists; reflexivity|].
  exists (baselineExceeded (flags2 s)). reflexivity.
Qed.

Lemma colorRead_colors bl s : colors (colours (colorRead bl s)) = colors (colours s).
Proof.
  unfold colorRead.
  destruct (checkForColorSpike_frame (rawC (sample (world s))) bl
    (s <| colours -> totalColorValue := sumOfChannels (sample (world s)) |>))
    as [v ->].
  rsimpl.
  destruct (isStableBuffer _ _); rsimpl;
    destruct (debounceCount <=? _); reflexivity.
Qed.

Lemma colorRead_debounce bl s :
  debounceOf (colorRead bl s)
  = debounceStep (debounceOf s) (classify (colors (colours s)) (sample (world s))).
Proof.
  unfold colorRead.
  destruct (checkForColorSpike_frame (rawC (sample (world s))) bl
    (s <| colours -> totalColorValue := sumOfChannels (sample (world s)) |>))
    as [v ->].
  unfold debounceStep, debounceOf, classify. rsimpl.
  destruct (isStableBuffer _ _); rsimpl;
    destruct (debounceCount <=? _); reflexivity.
Qed.

Lemma colorReads_colors bl rds : forall s,
  colors (colours (colorReads bl rds s)) = colors (colours s).
Proof.
  unfold colorReads.
  induction rds as [|rd rds IH]; intros s; [reflexivity|].
  cbn [fold_left]. rewrite IH, colorRead_colors. reflexivity.
Qed.

Lemma colorReads_debounce bl rds : forall s,
  debounceOf (colorReads bl rds s)
  = fold_left debounceStep
      (map (fun rd => classify (colors (colours s)) (sample rd)) rds)
      (debounceOf s).
Proof.
  unfold colorReads.
  induction rds as [|rd rds IH]; intros s; [reflexivity|].
  cbn [fold_left map]. rewrite IH, colorRead_debounce, colorRead_colors.
  reflexivity.
Qed.

End Debouncing.

Section DebounceSteps.

Lemma isStableBuffer_3 x y z c :
  isStableBuffer [x; y; z] c = (x =? c) && (y =? c) && (z =? c).
Proof.
  unfold isStableBuffer. change (Z.to_nat debounceCount) with 3%nat.
  cbn. rewrite andb_true_r, andb_assoc. reflexivity.
Qed.

Lemma debounceWf_cases d :
  debounceWf d ->
  exists x y z, dBuffer d = [x; y; z]
    /\ (dIndex d = 0 \/ dIndex d = 1 \/ dIndex d = 2).
Proof.
  intros (Hlen & Hidx & _).
  destruct (dBuffer d) as [|x [|y [|z [|]]]]; try discriminate.
  exists x, y, z. split; [reflexivity | lia].
Qed.

Lemma wrap8_range z : 0 <= wrap8 z < 256.
Proof. unfold wrap8. apply Z.mod_pos_bound. lia. Qed.

Lemma debounceStep_wf d c : debounceWf d -> debounceWf (debounceStep d c).
Proof.
  intros Hwf. destruct (debounceWf_cases d Hwf) as (x & y & z & Hb & Hi).
  destruct Hwf as (_ & _ & Hc).
  unfold debounceWf, debounceStep. cbn [dBuffer dIndex dCount].
  rewrite Hb. split; [|split].
  - rewrite length_insert. reflexivity.
  - apply Z.mod_pos_bound. reflexivity.
  - destruct (isStableBuffer _ _); [apply wrap8_range | lia].
Qed.

(** What one step does, split by whether the buffer agrees afterwards. *)
Lemma debounceStep_cases d c :
  debounceWf d ->
  let d' := debounceStep d c in
  (dCount d' = 0 /\ dStable d' = dStable d /\ dActive d' = dActive d
   /\ dBuffer d' <> [c; c; c])
  \/ (dBuffer d' = [c; c; c] /\ dCount d' = wrap8 (dCount d + 1)
      /\ dStable d' = c
      /\ dActive d' = if 3 <=? dCount d' then c else dActive d).
Proof.
  intros Hwf. destruct (debounceWf_cases d Hwf) as (x & y & z & Hb & Hi).
  unfold debounceStep. cbn [dBuffer dIndex dCount dStable dActive]. rewrite Hb.
  change debounceCount with 3.
  destruct Hi as [-> | [-> | ->]];
    [change (Z.to_nat 0) with 0%nat | change (Z.to_nat 1) with 1%nat
    | change (Z.to_nat 2) with 2%nat ];
    cbn [insert list_insert]; rewrite isStableBuffer_3, !Z.eqb_refl;
    destruct (Z.eqb_spec x c); destruct (Z.eqb_spec y c);
    destruct (Z.eqb_spec z c); subst; cbn [andb];
    first [ right; repeat split; reflexivity
          | left; repeat split; congruence ].
Qed.

(** After a stable step the previous buffer held [c] wherever it was not
    just overwritten; with a non-zero count it was stable for the previous
    class, so that class was [c]. *)
Lemma debounceStep_agree d c p :
  debounceWf d -> dBuffer d = [p; p; p] ->
  dBuffer (debounceStep d c) = [c; c; c] -> c = p.
Proof.
  intros Hwf Hb. destruct (debounceWf_cases d Hwf) as (x & y & z & Hb' & Hi).
  unfold debounceStep. cbn [dBuffer]. rewrite Hb.
  destruct Hi as [-> | [-> | ->]];
    [change (Z.to_nat 0) with 0%nat | change (Z.to_nat 1) with 1%nat
    | change (Z.to_nat 2) with 2%nat ];
    cbn [insert list_insert]; congruence.
Qed.

Lemma debounceStep_full d c :
  debounceWf d -> dBuffer d = [c; c; c] -> dBuffer (debounceStep d c) = [c; c; c].
Proof.
  intros Hwf Hb. destruct (debounceWf_cases d Hwf) as (x & y & z & Hb' & Hi).
  unfold debounceStep. cbn [dBuffer]. rewrite Hb.
  destruct Hi as [-> | [-> | ->]];
    [change (Z.to_nat 0) with 0%nat | change (Z.to_nat 1) with 1%nat
    | change (Z.to_nat 2) with 2%nat ]; reflexivity.
Qed.

(** Three reads of the same class fill the buffer with it. *)
Lemma three_steps_fill d c :
  debounceWf d ->
  dBuffer (debounceStep (debounceStep (debounceStep d c) c) c) = [c; c; c].
Proof.
  intros Hwf. destruct (debounceWf_cases d Hwf) as (x & y & z & Hb & Hi).
  unfold debounceStep at 3. cbn [dBuffer dIndex].
  unfold debounceStep at 2. cbn [dBuffer dIndex].
  unfold debounceStep at 1. cbn [dBuffer dIndex].
  rewrite Hb. change debounceCount with 3.
  destruct Hi as [-> | [-> | ->]]; reflexivity.
Qed.

Lemma debounceStep_sticky d c :
  debounceWf d -> dActive d = c -> dActive (debounceStep d c) = c.
Proof.
  intros Hwf Ha.
  destruct (debounceStep_cases d c Hwf) as [(_ & _ & -> & _) | (_ & _ & _ & ->)];
    [assumption | destruct (3 <=? _); congruence].
Qed.

Lemma fold_debounceStep_wf cs : forall d,
  debounceWf d -> debounceWf (fold_left debounceStep cs d).
Proof.
  induction cs as [|c cs IH]; intros d Hwf; [assumption|].
  cbn [fold_left]. apply IH, debounceStep_wf, Hwf.
Qed.

Lemma fold_debounceStep_sticky c cs : forall d,
  debounceWf d -> Forall (eq c) cs -> dActive d = c ->
  dActive (fold_left debounceStep cs d) = c.
Proof.
  induction cs as [|c' cs IH]; intros d Hwf Hall Ha; [assumption|].
  inversion Hall as [|? ? Heq Hall']. subst c'. cbn [fold_left].
  apply IH; [apply debounceStep_wf, Hwf | assumption
            | apply debounceStep_sticky; assumption].
Qed.

Lemma fold_debounceStep_stable_sticky c cs : forall d,
  debounceWf d -> Forall (eq c) cs ->
  dStable d = c -> dBuffer d = [c; c; c] ->
  dStable (fold_left debounceStep cs d) = c.
Proof.
  induction cs as [|c' cs IH]; intros d Hwf Hall Hs Hb; [assumption|].
  inversion Hall as [|? ? Heq Hall']. subst c'. cbn [fold_left].
  pose proof (debounceStep_full d c Hwf Hb) as Hb'.
  apply IH; [apply debounceStep_wf, Hwf | assumption | | assumption].
  destruct (debounceStep_cases d c Hwf) as [(_ & _ & _ & Hn) | (_ & _ & Hs' & _)];
    [contradiction | assumption].
Qed.

(** [K] agreeing reads settle [stableColor]. *)
Lemma three_steps_stable d c :
  debounceWf d ->
  dStable (debounceStep (debounceStep (debounceStep d c) c) c) = c.
Proof.
  intros Hwf.
  pose proof (three_steps_fill d c Hwf) as Hb.
  assert (Hwf2 : debounceWf (debounceStep (debounceStep d c) c))
    by (do 2 apply debounceStep_wf; assumption).
  destruct (debounceStep_cases _ c Hwf2) as [(_ & _ & _ & Hn) | (_ & _ & -> & _)];
    [contradiction | reflexivity].
Qed.

(** [2K - 1] agreeing reads settle [activeColor]. *)
Lemma five_steps_active d c :
  debounceWf d ->
  dActive (fold_left debounceStep [c; c; c; c; c] d) = c.
Proof.
  intros Hwf. cbn [fold_left].
  set (d1 := debounceStep d c). set (d2 := debounceStep d1 c).
  set (d3 := debounceStep d2 c). set (d4 := debounceStep d3 c).
  assert (Hwf1 : debounceWf d1) by (apply debounceStep_wf, Hwf).
  assert (Hwf2 : debounceWf d2) by (apply debounceStep_wf, Hwf1).
  assert (Hwf3 : debounceWf d3) by (apply debounceStep_wf, Hwf2).
  assert (Hwf4 : debounceWf d4) by (apply debounceStep_wf, Hwf3).
  assert (Hb3 : dBuffer d3 = [c; c; c]) by (apply three_steps_fill, Hwf).
  assert (Hb4 : dBuffer d4 = [c; c; c]) by (apply debounceStep_full; assumption).
  assert (Hb5 : dBuffer (debounceStep d4 c) = [c; c; c])
    by (apply debounceStep_full; assumption).
  destruct (debounceStep_cases d2 c Hwf2) as [(_ & _ & _ & Hn) | (_ & Hc3 & _ & Ha3)];
    [contradiction|].
  destruct (debounceStep_cases d3 c Hwf3) as [(_ & _ & _ & Hn) | (_ & Hc4 & _ & Ha4)];
    [contradiction|].
  destruct (debounceStep_cases d4 c Hwf4) as [(_ & _ & _ & Hn) | (_ & Hc5 & _ & Ha5)];
    [contradiction|].
  fold d3 in Hc3, Ha3. fold d4 in Hc4, Ha4.
  pose proof Hwf2 as (_ & _ & Hr2).
  destruct (debounceStep_cases d1 c Hwf1) as [(Hc2 & _) | (_ & Hc2 & _ & Ha2)];
    fold d2 in Hc2.
  - (* the second read was not stable: the counter restarts at zero *)
    rewrite Ha5, Hc5, Hc4, Hc3, Hc2. reflexivity.
  - fold d2 in Ha2. unfold wrap8 in *.
    assert (Hk : dCount d2 <= 252 \/ dCount d2 = 253 \/ dCount d2 = 254
                 \/ dCount d2 = 255) by lia.
    destruct Hk as [Hk | [Hk | [Hk | Hk]]].
    + rewrite Ha5, Hc5, Hc4, Hc3.
      rewrite (Z.mod_small (dCount d2 + 1)), (Z.mod_small (dCount d2 + 1 + 1)),
        (Z.mod_small (dCount d2 + 1 + 1 + 1)) by lia.
      destruct (Z.leb_spec 3 (dCount d2 + 1 + 1 + 1)); [reflexivity | lia].
    + assert (dActive d3 = c) by (rewrite Ha3, Hc3, Hk; reflexivity).
      apply debounceStep_sticky; [assumption|].
      apply debounceStep_sticky; assumption.
    + assert (dActive d3 = c) by (rewrite Ha3, Hc3, Hk; reflexivity).
      apply debounceStep_sticky; [assumption|].
      apply debounceStep_sticky; assumption.
    + assert (dActive d2 = c) by (rewrite Ha2, Hk; reflexivity).
      do 3 (apply debounceStep_sticky; [assumption|]). assumption.
Qed.


Lemma longestRunFrom_ge p k best l :
  (k <= longestRunFrom p k best l)%nat /\ (best <= longestRunFrom p k best l)%nat.
Proof.
  revert p k best. induction l as [|x l IH]; intros p k best; cbn [longestRunFrom].
  - lia.
  - destruct (x =? p).
    + destruct (IH p (S k) best). lia.
    + destruct (IH x 1%nat (Nat.max k best)). lia.
Qed.

(** While no run of [K] equal classes has been read, the stability
    counter stays below [K], so [activeColor] is never assigned.  [p] is
    the class read last and [k] the length of the run it ends. *)
Lemma short_runs_keep_active l : forall d p k best,
  debounceWf d ->
  (Z.to_nat (dCount d) <= k)%nat ->
  (1 <= dCount d -> dBuffer d = [p; p; p]) ->
  (longestRunFrom p k best l < 3)%nat ->
  dActive (fold_left debounceStep l d) = dActive d.
Proof.
  induction l as [|x l IH]; intros d p k best Hwf Hk Hfull Hrun; [reflexivity|].
  cbn [fold_left longestRunFrom] in *.
  pose proof (debounceStep_wf d x Hwf) as Hwf'.
  pose proof Hwf as (_ & _ & Hc).
  destruct (debounceStep_cases d x Hwf) as [(Hc' & _ & Ha' & _) | (Hb' & Hc' & _ & Ha')].
  - (* not stable: the counter restarts *)
    rewrite <- Ha'.
    destruct (x =? p).
    + apply (IH _ p (S k) best); [assumption | rewrite Hc'; cbn; lia | lia | assumption].
    + apply (IH _ x 1%nat (Nat.max k best)); [assumption | rewrite Hc'; cbn; lia | lia | assumption].
  - destruct (Z.eqb_spec x p) as [-> | Hne].
    + pose proof (longestRunFrom_ge p (S k) best l) as [Hge _].
      assert (Hnext : dCount (debounceStep d p) = dCount d + 1).
      { rewrite Hc'. unfold wrap8. rewrite Z.mod_small; lia. }
      transitivity (dActive (debounceStep d p)).
      * apply (IH _ p (S k) best);
          [assumption | rewrite Hnext; lia | intros _; assumption | assumption].
      * rewrite Ha', Hnext.
        destruct (Z.leb_spec 3 (dCount d + 1)); [lia | reflexivity].
    + (* a stable read of a new class: the counter was zero before *)
      assert (Hz : dCount d = 0).
      { destruct (Z.eq_dec (dCount d) 0) as [|Hnz]; [assumption|].
        exfalso. apply Hne.
        apply (debounceStep_agree d x p Hwf); [apply Hfull; lia | assumption]. }
      assert (Hone : dCount (debounceStep d x) = 1) by (rewrite Hc', Hz; reflexivity).
      transitivity (dActive (debounceStep d x)).
      * apply (IH _ x 1%nat (Nat.max k best));
          [assumption | rewrite Hone; cbn; lia | intros _; assumption | assumption].
      * rewrite Ha', Hone. reflexivity.
Qed.

Lemma short_runs_keep_active_fresh l d :
  debounceWf d -> dCount d = 0 -> (longestRun l < 3)%nat ->
  dActive (fold_left debounceStep l d) = dActive d.
Proof.
  intros Hwf Hz Hrun. destruct l as [|x l]; [reflexivity|].
  cbn [fold_left longestRun] in *.
  pose proof (debounceStep_wf d x Hwf) as Hwf'.
  destruct (debounceStep_cases d x Hwf) as [(Hc' & _ & Ha' & _) | (Hb' & Hc' & _ & Ha')].
  - rewrite <- Ha'.
    apply (short_runs_keep_active l _ x 1%nat 0%nat);
      [assumption | rewrite Hc'; cbn; lia | lia | assumption].
  - assert (Hone : dCount (debounceStep d x) = 1) by (rewrite Hc', Hz; reflexivity).
    transitivity (dActive (debounceStep d x)).
    + apply (short_runs_keep_active l _ x 1%nat 0%nat);
        [assumption | rewrite Hone; cbn; lia | intros _; assumption | assumption].
    + rewrite Ha', Hone. reflexivity.
Qed.

End DebounceSteps.

Section ClassifierClaims.

Lemma debounceOf_wf_colorRead bl s :
  debounceWf (debounceOf s) -> debounceWf (debounceOf (colorRead bl s)).
Proof. intros H. rewrite colorRead_debounce. apply debounceStep_wf, H. Qed.

Lemma Forall_map_eq {A} (f : A -> Z) c l :
  Forall (fun x => f x = c) l -> Forall (eq c) (map f l).
Proof.
  induction 1 as [|x l Hx _ IH]; cbn [map]; constructor; [symmetry|]; assumption.
Qed.

End ClassifierClaims.

(** C1, as amended.  From any state of the debouncer, [K = 3] consecutive
    identical raw classifications set [stableColor] to that classification
    and [2K - 1 = 5] of them set [activeColor] to it; and a sequence of
    readings without [K] consecutive identical classifications, processed
    from a state whose stability counter is zero (as at boot), leaves
    [activeColor] unchanged. *)
Theorem colorRead_stability bl s :
  debounceWf (debounceOf s) ->
  (forall c rds,
      Forall (fun rd => classify (colors (colours s)) (sample rd) = c) rds ->
      ((3 <= length rds)%nat -> stableColor (colours (colorReads bl rds s)) = c)
      /\ ((5 <= length rds)%nat -> activeColor (colours (colorReads bl rds s)) = c))
  /\ (forall rds,
      stableColorCount (statics s) = 0 ->
      (longestRun (map (fun rd => classify (colors (colours s)) (sample rd)) rds) < 3)%nat ->
      activeColor (colours (colorReads bl rds s)) = activeColor (colours s)).
Proof.
  intros Hwf. split.
  - intros c rds Hall.
    apply (Forall_map_eq (fun rd => classify (colors (colours s)) (sample rd))) in Hall.
    change (stableColor (colours (colorReads bl rds s)))
      with (dStable (debounceOf (colorReads bl rds s))).
    change (activeColor (colours (colorReads bl rds s)))
      with (dActive (debounceOf (colorReads bl rds s))).
    rewrite colorReads_debounce, <- length_map
      with (f := fun rd => classify (colors (colours s)) (sample rd)).
    set (cs := map _ rds) in *. clearbody cs. split; intros Hlen.
    + destruct cs as [|c1 [|c2 [|c3 cs]]]; cbn [length] in Hlen; try lia.
      do 3 (apply Forall_cons_iff in Hall; destruct Hall as [<- Hall]).
      cbn [fold_left].
      apply fold_debounceStep_stable_sticky;
        [ do 3 apply debounceStep_wf; assumption | assumption
        | apply three_steps_stable; assumption
        | apply three_steps_fill; assumption ].
    + destruct cs as [|c1 [|c2 [|c3 [|c4 [|c5 cs]]]]]; cbn [length] in Hlen; try lia.
      do 5 (apply Forall_cons_iff in Hall; destruct Hall as [<- Hall]).
      change (fold_left debounceStep (c :: c :: c :: c :: c :: cs) (debounceOf s))
        with (fold_left debounceStep cs
                (fold_left debounceStep [c; c; c; c; c] (debounceOf s))).
      apply fold_debounceStep_sticky;
        [ apply fold_debounceStep_wf; assumption | assumption
        | apply five_steps_active; assumption ].
  - intros rds Hz Hrun.
    change (activeColor (colours (colorReads bl rds s)))
      with (dActive (debounceOf (colorReads bl rds s))).
    rewrite colorReads_debounce.
    apply short_runs_keep_active_fresh; assumption.
Qed.

Lemma factory_debounceWf : debounceWf (debounceOf factory).
Proof. unfold debounceWf. cbn. lia. Qed.

Lemma colorRead_stability_witness :
  activeColor (colours (colorReads 118 (map overRed [0; 10; 20; 30; 40]) factory)) = 1
  /\ activeColor (colours (colorReads 118 (map overRed [0; 10]) factory)) = 0.
Proof.
  pose proof (colorRead_stability 118 factory factory_debounceWf) as [Hlong Hshort].
  split.
  - apply (Hlong 1 (map overRed [0; 10; 20; 30; 40])).
    + repeat constructor.
    + cbn. lia.
  - apply (Hshort (map overRed [0; 10])).
    + reflexivity.
    + vm_compute. lia.
Defined.

(** C1 as stated fails: three consecutive readings classified as the red
    tag leave [activeColor] at the background. *)
Lemma three_agreeing_reads_do_not_switch :
  let rds := map overRed [0; 10; 20] in
  Forall (fun rd => classify (colors (colours factory)) (sample rd) = 1) rds
  /\ activeColor (colours (colorReads 118 rds factory)) <> 1.
Proof.
  split.
  - repeat constructor.
  - vm_compute. discriminate.
Qed.

(** ** Colour classifier: range of the classification *)

Section ClassifierRange.

Lemma nearest_range rest : forall i closest minDistance,
  nearest rest i closest minDistance = closest
  \/ i <= nearest rest i closest minDistance < i + Z.of_nat (length rest).
Proof.
  induction rest as [|d rest IH]; intros i closest minDistance; cbn [nearest length].
  - left. reflexivity.
  - destruct (F32.ltb d minDistance).
    + destruct (IH (i + 1) i d) as [-> | H]; right; lia.
    + destruct (IH (i + 1) closest minDistance) as [-> | H]; [left; reflexivity | right; lia].
Qed.

Lemma classify_range table raw : 0 <= classify table raw < TOTAL_COLORS.
Proof.
  unfold classify, closestColorOf.
  change (Z.to_nat TOTAL_COLORS) with 9%nat. cbn [seq map].
  match goal with |- context [nearest ?rest 1 0 ?d0] =>
    destruct (nearest_range rest 1 0 d0) as [-> | H]; [|cbn [length] in H]
  end; unfold TOTAL_COLORS, NUM_PLAYER_COLORS; lia.
Qed.

Lemma debounceStep_range d c :
  0 <= c < TOTAL_COLORS ->
  0 <= dActive d < TOTAL_COLORS /\ 0 <= dStable d < TOTAL_COLORS ->
  0 <= dActive (debounceStep d c) < TOTAL_COLORS
  /\ 0 <= dStable (debounceStep d c) < TOTAL_COLORS.
Proof.
  intros Hc [Ha Hs]. unfold debounceStep. cbn [dActive dStable].
  destruct (isStableBuffer _ _); destruct (debounceCount <=? _); split; assumption.
Qed.

Lemma colorRead_range bl s : classifierRange s -> classifierRange (colorRead bl s).
Proof.
  intros H. unfold classifierRange.
  change (activeColor (colours (colorRead bl s)))
    with (dActive (debounceOf (colorRead bl s))).
  change (stableColor (colours (colorRead bl s)))
    with (dStable (debounceOf (colorRead bl s))).
  rewrite colorRead_debounce.
  apply debounceStep_range; [apply classify_range | exact H].
Qed.

Lemma colorScan_range s : classifierRange s -> classifierRange (colorScan s).
Proof.
  intros H. unfold colorScan, calculateBlackBaseline.
  destruct (negb (isCalculated (statics s))); apply colorRead_range; exact H.
Qed.

End ClassifierRange.

(** ** Colour classifier: the brightness spike *)

Section Spike.

Lemma checkForColorSpike_spec c bl s :
  let flag := spikeNext (baselineExceeded (flags2 s)) (adjustInProgress (flags5 s)) c bl in
  checkForColorSpike c bl s = (flag, s <| flags2 -> baselineExceeded := flag |>).
Proof.
  unfold checkForColorSpike, spikeNext.
  destruct (negb _ && negb _ && F32.leb _ _); [reflexivity|].
  destruct (baselineExceeded (flags2 s) && F32.ltb _ _); reflexivity.
Qed.

Lemma spikeTrace_flags bl cs : forall s,
  spikeTrace bl cs s
  = spikeFlags (baselineExceeded (flags2 s)) (adjustInProgress (flags5 s)) bl cs.
Proof.
  induction cs as [|c cs IH]; intros s; [reflexivity|].
  cbn [spikeTrace spikeFlags]. rewrite checkForColorSpike_spec. cbv zeta.
  rewrite IH. reflexivity.
Qed.

End Spike.

(** C5, as amended.  With baseline 40 the threshold is 64 = 40 * 1.6, and
    the brightness sequence 10, 10, 62, 63, 64, 11, 10 read with the spike
    flag clear and no fine adjustment in progress yields the flags
    false, false, false, false, true, false, false: 62 and 63 lie below the
    threshold. *)
Theorem spike_scenario s :
  baselineExceeded (flags2 s) = false ->
  adjustInProgress (flags5 s) = false ->
  F32.mul (F32.ofZ 40) F32.lit_1_6 = F32.ofZ 64
  /\ spikeTrace 40 [10; 10; 62; 63; 64; 11; 10] s
     = [false; false; false; false; true; false; false].
Proof.
  intros Hb Ha. split; [reflexivity|].
  rewrite spikeTrace_flags, Hb, Ha. vm_compute. reflexivity.
Qed.

Lemma spike_scenario_witness :
  spikeTrace 40 [10; 10; 62; 63; 64; 11; 10] factory
  = [false; false; false; false; true; false; false].
Proof. apply (spike_scenario factory); reflexivity. Defined.

(** C5 as stated fails: the flags for 62 and 63 are not raised. *)
Lemma spike_scenario_as_stated_fails :
  spikeTrace 40 [10; 10; 62; 63; 64; 11; 10] factory
  <> [false; false; true; true; true; false; false].
Proof. vm_compute. discriminate. Qed.

(** ** Display: what it leaves alone *)

Section DisplayFrame.
Context `{Frontend}.

(** The text scroller only writes its own variables, the two scrolling
    flags and the display. *)
Lemma updateScrollText_frame s :
  exists f2 sc out,
    updateScrollText s = s <| flags2 := f2 |> <| scrolling := sc |> <| outputs := out |>.
Proof.
  unfold updateScrollText.
  destruct (displayState_eqb _ _); [do 3 eexists; reflexivity|].
  destruct (_ <=? elapsed _ _); [|do 3 eexists; reflexivity].
  destruct (_ =? -1); [do 3 eexists; reflexivity|].
  destruct (_ <? _ - 3); [do 3 eexists; reflexivity|]. rsimpl.
  destruct (3 <? _); do 3 eexists; reflexivity.
Qed.

(** The [ERROR] screen routes the deal state to [RESET_DEALR]. *)
Lemma updateDisplay_ERROR s :
  currentDisplayState s = ERROR ->
  let s' := updateDisplay s in
  currentDealState s' = RESET_DEALR /\ fullExit (flags4 s') = true
  /\ currentDisplayState s' = ERROR /\ timings s' = timings s.
Proof.
  intros Hd.
  assert (Hs : s = s <| currentDisplayState := ERROR |>)
    by (rewrite <- Hd; reflexivity).
  rewrite Hs. clear Hs Hd. unfold updateDisplay.
  destruct (negb (displayState_eqb _ _)); rsimpl;
    (destruct (scrollingMenu _);
     [ match goal with |- context [updateScrollText ?t] =>
         destruct (updateScrollText_frame t) as (f2 & sc & out & ->) end | ];
     repeat split; reflexivity).
Qed.

End DisplayFrame.




(** ** Calibration store *)

Section Eeprom.

Lemma storeBytes_lookup_out bytes : forall addr (m : gmap Z Z) k,
  k < addr \/ addr + Z.of_nat (length bytes) <= k ->
  storeBytes addr bytes m !! k = m !! k.
Proof.
  induction bytes as [|x bytes IH]; intros addr m k Hk; cbn [storeBytes length] in *.
  - reflexivity.
  - rewrite IH by lia. apply lookup_insert_ne. lia.
Qed.

Lemma storeBytes_lookup_in bytes : forall addr (m : gmap Z Z) j x,
  bytes !! j = Some x ->
  storeBytes addr bytes m !! (addr + Z.of_nat j) = Some x.
Proof.
  induction bytes as [|y bytes IH]; intros addr m j x Hj; [discriminate|].
  cbn [storeBytes]. destruct j as [|j]; cbn in Hj.
  - injection Hj as ->. rewrite storeBytes_lookup_out by lia.
    rewrite Z.add_0_r. apply lookup_insert_eq.
  - replace (addr + Z.of_nat (S j)) with (addr + 1 + Z.of_nat j) by lia.
    apply IH, Hj.
Qed.

Lemma EEPROM_read_writeBytes_out addr bytes k s :
  k < addr \/ addr + Z.of_nat (length bytes) <= k ->
  EEPROM_read k (EEPROM_writeBytes addr bytes s) = EEPROM_read k s.
Proof.
  intros Hk. unfold EEPROM_read, EEPROM_writeBytes. rsimpl.
  rewrite storeBytes_lookup_out by assumption. reflexivity.
Qed.

Lemma EEPROM_read_writeBytes_in addr bytes j x s :
  bytes !! j = Some x ->
  EEPROM_read (addr + Z.of_nat j) (EEPROM_writeBytes addr bytes s) = x.
Proof.
  intros Hj. unfold EEPROM_read, EEPROM_writeBytes. rsimpl.
  rewrite (storeBytes_lookup_in _ _ _ _ _ Hj). reflexivity.
Qed.

Lemma u16_roundtrip v : 0 <= v < 65536 -> u16OfBytes (v mod 256) ((v / 256) mod 256) = v.
Proof.
  intros Hv. unfold u16OfBytes.
  rewrite (Z.mod_small (v / 256)) by (split; [apply Z.div_pos | apply Z.div_lt_upper_bound]; lia).
  rewrite (Z.div_mod v 256) at 3 by lia. lia.
Qed.

Lemma EEPROM_getU16_writeBytes_out addr bytes k s :
  k + 1 < addr \/ addr + Z.of_nat (length bytes) <= k ->
  EEPROM_getU16 k (EEPROM_writeBytes addr bytes s) = EEPROM_getU16 k s.
Proof.
  intros Hk. unfold EEPROM_getU16.
  rewrite !EEPROM_read_writeBytes_out by lia. reflexivity.
Qed.

Lemma EEPROM_getU16_putU16 addr v s :
  0 <= v < 65536 -> EEPROM_getU16 addr (EEPROM_putU16 addr v s) = v.
Proof.
  intros Hv. unfold EEPROM_getU16, EEPROM_putU16, bytesOfU16.
  rewrite <- (Z.add_0_r addr) at 1.
  rewrite (EEPROM_read_writeBytes_in addr _ 0%nat (v mod 256)) by reflexivity.
  rewrite (EEPROM_read_writeBytes_in addr _ 1%nat ((v / 256) mod 256)) by reflexivity.
  apply u16_roundtrip, Hv.
Qed.

Lemma EEPROM_getColor_putColor addr c s :
  colorInRange c -> EEPROM_getColor addr (EEPROM_putColor addr c s) = c.
Proof.
  intros (Hr & Hg & Hb & Hc).
  unfold EEPROM_getColor, EEPROM_putColor, EEPROM_getU16, bytesOfColor, bytesOfU16.
  cbn [app].
  replace addr with (addr + Z.of_nat 0) at 1 by lia.
  replace (addr + 1) with (addr + Z.of_nat 1) by lia.
  replace (addr + 2 + 1) with (addr + Z.of_nat 3) by lia.
  replace (addr + 2) with (addr + Z.of_nat 2) by lia.
  replace (addr + 4 + 1) with (addr + Z.of_nat 5) by lia.
  replace (addr + 4) with (addr + Z.of_nat 4) by lia.
  replace (addr + 6 + 1) with (addr + Z.of_nat 7) by lia.
  replace (addr + 6) with (addr + Z.of_nat 6) by lia.
  repeat (erewrite EEPROM_read_writeBytes_in by reflexivity).
  rewrite !u16_roundtrip by assumption. destruct c; reflexivity.
Qed.

Lemma EEPROM_getColor_writeBytes_out addr bytes k s :
  k + 7 < addr \/ addr + Z.of_nat (length bytes) <= k ->
  EEPROM_getColor k (EEPROM_writeBytes addr bytes s) = EEPROM_getColor k s.
Proof.
  intros Hk. unfold EEPROM_getColor.
  rewrite !EEPROM_getU16_writeBytes_out by lia. reflexivity.
Qed.

Lemma length_bytesOfColor c : length (bytesOfColor c) = 8%nat.
Proof. reflexivity. Qed.

(** The colours written by the loop can be read back, and the loop leaves
    the rest of the EEPROM alone. *)
Lemma writeDefaultColors_read defaults : forall index s j c,
  Forall colorInRange defaults ->
  defaults !! j = Some c ->
  readColorFromEEPROM (index + Z.of_nat j) (writeDefaultColors index defaults s) = c.
Proof.
  induction defaults as [|d defaults IH]; intros index s j c Hall Hj; [discriminate|].
  apply Forall_cons_iff in Hall as [Hd Hall]. cbn [writeDefaultColors].
  destruct j as [|j]; cbn in Hj.
  - injection Hj as ->. rewrite Z.add_0_r.
    clear IH. revert s.
    assert (Hkeep : forall defaults' i s,
               index < i ->
               readColorFromEEPROM index (writeDefaultColors i defaults' s)
               = readColorFromEEPROM index s).
    { induction defaults' as [|d' defaults' IH']; intros i s Hi; [reflexivity|].
      cbn [writeDefaultColors]. rewrite IH' by lia.
      unfold readColorFromEEPROM, writeColorToEEPROM, EEPROM_putColor.
      apply EEPROM_getColor_writeBytes_out. unfold sizeof_RGBColor. lia. }
    intros s. rewrite Hkeep by lia.
    unfold readColorFromEEPROM, writeColorToEEPROM.
    apply EEPROM_getColor_putColor, Hd.
  - replace (index + Z.of_nat (S j)) with (index + 1 + Z.of_nat j) by lia.
    apply IH; assumption.
Qed.

Lemma writeDefaultColors_read_out defaults : forall index s k,
  k < index * sizeof_RGBColor + 1
  \/ (index + Z.of_nat (length defaults)) * sizeof_RGBColor + 1 <= k ->
  EEPROM_read k (writeDefaultColors index defaults s) = EEPROM_read k s.
Proof.
  induction defaults as [|d defaults IH]; intros index s k Hk; [reflexivity|].
  cbn [writeDefaultColors length] in *. unfold sizeof_RGBColor in *.
  rewrite IH by (unfold sizeof_RGBColor; lia).
  unfold writeColorToEEPROM, EEPROM_putColor.
  apply EEPROM_read_writeBytes_out. rewrite length_bytesOfColor.
  unfold sizeof_RGBColor. lia.
Qed.

End Eeprom.

(** C7.  On a version mismatch [initializeEEPROM] rewrites every centroid
    and the threshold from the compiled-in defaults and writes the version
    byte last; when the version byte matches it writes nothing. *)
Theorem initializeEEPROM_spec s :
  let s' := initializeEEPROM s in
  (EEPROM_read EEPROM_VERSION_ADDR s <> EEPROM_VERSION ->
   (forall i, (i < Z.to_nat TOTAL_COLORS)%nat ->
      readColorFromEEPROM (Z.of_nat i) s' = defaultColors !!! i)
   /\ loadStoredUVValueFromEEPROM s' = defaultUVThreshold
   /\ EEPROM_read EEPROM_VERSION_ADDR s' = EEPROM_VERSION
   /\ outputs s' = outputs s ++ defaultWrites)
  /\ (EEPROM_read EEPROM_VERSION_ADDR s = EEPROM_VERSION -> s' = s).
Proof.
  cbv zeta. unfold initializeEEPROM. split.
  - intros Hne. destruct (Z.eqb_spec (EEPROM_read EEPROM_VERSION_ADDR s) EEPROM_VERSION);
      [contradiction|]. cbn [negb].
    assert (Hrange : Forall colorInRange defaultColors)
      by (repeat constructor; cbn; lia).
    repeat split.
    + intros i Hi. change (Z.to_nat TOTAL_COLORS) with 9%nat in Hi.
      assert (Hl : defaultColors !! i = Some (defaultColors !!! i)).
      { apply list_lookup_lookup_total_lt. exact Hi. }
      transitivity (readColorFromEEPROM (0 + Z.of_nat i)
                      (writeDefaultColors 0 defaultColors s));
        [| exact (writeDefaultColors_read defaultColors 0 s i _ Hrange Hl)].
      unfold EEPROM_write, EEPROM_putU16, readColorFromEEPROM.
      do 2 (rewrite EEPROM_getColor_writeBytes_out
        by (unfold UV_THRESHOLD_ADDR, EEPROM_VERSION_ADDR, sizeof_RGBColor,
              TOTAL_COLORS, NUM_PLAYER_COLORS, bytesOfU16; cbn [length]; lia)).
      reflexivity.
    + unfold loadStoredUVValueFromEEPROM, EEPROM_write.
      rewrite EEPROM_getU16_writeBytes_out
        by (unfold UV_THRESHOLD_ADDR, EEPROM_VERSION_ADDR, sizeof_RGBColor,
              TOTAL_COLORS, NUM_PLAYER_COLORS; cbn [length]; lia).
      apply EEPROM_getU16_putU16. unfold defaultUVThreshold. lia.
    + unfold EEPROM_write.
      replace EEPROM_VERSION_ADDR with (EEPROM_VERSION_ADDR + Z.of_nat 0) at 1 by reflexivity.
      apply EEPROM_read_writeBytes_in. reflexivity.
    + unfold EEPROM_write, EEPROM_putU16, EEPROM_writeBytes. rsimpl.
      cbn [writeDefaultColors defaultColors].
      unfold writeColorToEEPROM, EEPROM_putColor, EEPROM_writeBytes. rsimpl.
      rewrite <- !app_assoc. reflexivity.
  - intros ->. reflexivity.
Qed.

Lemma initializeEEPROM_spec_witness :
  EEPROM_read EEPROM_VERSION_ADDR (initializeEEPROM factory) = EEPROM_VERSION
  /\ initializeEEPROM (initializeEEPROM factory) = initializeEEPROM factory.
Proof.
  split.
  - apply (initializeEEPROM_spec factory). vm_compute. discriminate.
  - apply (initializeEEPROM_spec (initializeEEPROM factory)).
    apply (initializeEEPROM_spec factory). vm_compute. discriminate.
Defined.

(** ** Dispensing pipeline *)

Section Dispensing.
Context `{Frontend}.

Lemma updateDisplay_face s :
  isFace (currentDisplayState s) = true ->
  exists f2 sc out pd es,
    updateDisplay s
    = s <| flags2 := f2 |> <| scrolling := sc |> <| outputs := out |>
        <| previousDisplayState := pd |> <| timings -> expressionStarted := es |>.
Proof.
  intros Hf. unfold updateDisplay.
  destruct (currentDisplayState s) eqn:Hd; try discriminate Hf;
    match type of Hd with _ = ?d =>
      assert (Hs : s = s <| currentDisplayState := d |>)
        by (rewrite <- Hd; reflexivity)
    end;
    rewrite Hs; clear Hs Hd Hf;
    destruct (negb (displayState_eqb _ _)); rsimpl;
    (destruct (scrollingMenu _);
     [ match goal with |- context [updateScrollText ?t] =>
         destruct (updateScrollText_frame t) as (f2 & sc & out & ->) end | ];
     do 5 eexists; reflexivity).
Qed.

Lemma elapsed_self t : elapsed t t = 0.
Proof. unfold elapsed, wrap32. rewrite Z.sub_diag. reflexivity. Qed.

(** Before the throw deadline, and with no retraction pending, the
    timeout handler does nothing. *)
Lemma handleThrowingTimeout_idle currentTime s :
  retractStarted (statics s) = false ->
  retractCompleted (statics s) = false ->
  elapsed currentTime (throwStart (timings s)) < throwExpiration ->
  handleThrowingTimeout currentTime s = s.
Proof.
  intros Hs Hc Ht. unfold handleThrowingTimeout.
  destruct (Z.leb_spec throwExpiration (elapsed currentTime (throwStart (timings s))));
    [lia|].
  cbn [andb]. rewrite Hs. cbn [andb]. rewrite Hc. reflexivity.
Qed.

Lemma pollCraw_frame s :
  exists a b c d e,
    pollCraw s
    = s <| cardInCraw := a |> <| flags3 -> cardLeftCraw := b |>
        <| flags1 -> cardDealt := c |> <| previousCardInCraw := d |>
        <| statics -> lastDebounceTime := e |>
    /\ (c = cardDealt (flags1 s) \/ c = false).
Proof.
  unfold pollCraw. cbv zeta.
  destruct (_ <=? elapsed _ _).
  - rsimpl. destruct (negb (eqb _ _)); rsimpl;
      [match goal with |- context [if negb ?c then _ else _] => destruct c end;
       rsimpl|].
    + exists true, true, (cardDealt (flags1 s)), true, (now (world s)).
      split; [reflexivity | left; reflexivity].
    + exists false, false, false, false, (now (world s)).
      split; [reflexivity | right; reflexivity].
    + exists (pin (world s)), (cardLeftCraw (flags3 s)), (cardDealt (flags1 s)),
        (previousCardInCraw s), (now (world s)).
      split; [reflexivity | left; reflexivity].
  - exists (cardInCraw s), (cardLeftCraw (flags3 s)), (cardDealt (flags1 s)),
      (previousCardInCraw s), (lastDebounceTime (statics s)).
    split; [reflexivity | left; reflexivity].
Qed.

Lemma wrap8_pred a : 1 <= a <= 255 -> wrap8 (a - 1) = a - 1.
Proof. intros Ha. unfold wrap8. apply Z.mod_small. lia. Qed.

(** The invariant only looks at the statics, the first flag byte, the
    servo step and the start of the throw. *)
Lemma dispensingInv_ext t0 a s s2 :
  statics s2 = statics s -> flags1 s2 = flags1 s -> servo s2 = servo s ->
  throwStart (timings s2) = throwStart (timings s) ->
  dispensingInv t0 a s -> dispensingInv t0 a s2.
Proof.
  unfold dispensingInv. intros -> -> -> ->. exact (fun x => x).
Qed.

(** One call of [slideCard] while the sequence is running. *)
Lemma slideCard_inv t0 a s :
  retractStarted (statics s) = false ->
  retractCompleted (statics s) = false ->
  throwingCard (flags1 s) = true ->
  cardDealt (flags1 s) = false ->
  throwStart (timings s) = t0 ->
  (slideStep (servo s) = 0 /\ 1 <= a <= 255)
  \/ (1 <= slideStep (servo s) <= 3 /\ a = 0) ->
  dispensingInv t0 (fst (slideCard a s)) (snd (slideCard a s)).
Proof.
  intros Hrs Hrc Ht Hd Hts Hstep.
  assert (Hsolve : forall a' s',
    retractStarted (statics s') = false ->
    retractCompleted (statics s') = false ->
    throwStart (timings s') = t0 ->
    (throwingCard (flags1 s') = true /\ cardDealt (flags1 s') = false
     /\ ((slideStep (servo s') = 0 /\ 1 <= a' <= 255)
         \/ (1 <= slideStep (servo s') <= 3 /\ a' = 0)))
    \/ (throwingCard (flags1 s') = false /\ cardDealt (flags1 s') = true
        /\ a' = 0) ->
    dispensingInv t0 a' s') by (intros; repeat split; assumption).
  unfold slideCard. cbv zeta.
  destruct Hstep as [[Hs Ha] | [Hs ->]].
  - rewrite Hs. change (0 =? 0) with true. cbv iota.
    repeat case_if; apply Hsolve; rsimpl; auto;
      try rewrite (wrap8_pred a Ha) in *; reflect_hyps;
      left; repeat split; auto; first [ right; lia | left; lia ].
  - assert (Hc : slideStep (servo s) = 1 \/ slideStep (servo s) = 2
                 \/ slideStep (servo s) = 3) by lia.
    destruct Hc as [Hc | [Hc | Hc]]; rewrite Hc.
    + change (1 =? 0) with false. change (1 =? 1) with true. cbv iota.
      apply Hsolve; rsimpl; auto. left. repeat split; auto. right. lia.
    + change (2 =? 0) with false. change (2 =? 1) with false.
      change (2 =? 2) with true. cbv iota.
      case_if; apply Hsolve; rsimpl; auto; left; repeat split; auto; right; lia.
    + change (3 =? 0) with false. change (3 =? 1) with false.
      change (3 =? 2) with false. change (3 =? 3) with true. cbv iota.
      case_if; apply Hsolve; rsimpl; auto.
      left; repeat split; auto; right; lia.
Qed.

Lemma stopScrollText_frame s :
  exists f2 sc, stopScrollText s = s <| flags2 := f2 |> <| scrolling := sc |>.
Proof. unfold stopScrollText. do 2 eexists. reflexivity. Qed.

(** One pass of the loop body while the sequence is running and the
    deadline has not been reached. *)
Lemma cardDispensingActions_inv t0 a rd s :
  dispensingInv t0 a s ->
  cardDealt (flags1 s) = false ->
  elapsed (now rd) t0 < throwExpiration ->
  dispensingInv t0 (fst (cardDispensingActions a (observe rd s)))
                   (snd (cardDispensingActions a (observe rd s))).
Proof.
  intros (Hrs & Hrc & Hts & Hrun) Hd Ht.
  destruct Hrun as [(Hthrow & _ & Hstep) | (_ & Hd' & _)]; [|congruence].
  unfold cardDispensingActions. cbv zeta.
  change (throwingCard (flags1 (observe rd s))) with (throwingCard (flags1 s)).
  rewrite Hthrow. cbn [negb].
  destruct (pollCraw_frame (observe rd s)) as (a1 & b1 & c1 & d1 & e1 & Hp & Hc1).
  rewrite Hp.
  assert (Hc1' : c1 = false) by (destruct Hc1 as [-> | ->]; [apply Hd | reflexivity]).
  subst c1. clear Hc1 Hp.
  match goal with |- context [slideCard a ?t] =>
    pose proof (slideCard_inv t0 a t Hrs Hrc Hthrow eq_refl Hts Hstep) as Hinv;
    destruct (slideCard a t) as [a' s'] eqn:Hslide
  end.
  cbn [fst snd] in Hinv.
  assert (Hdone : forall s2, dispensingInv t0 a' s2 ->
            dispensingInv t0 a' (handleThrowingTimeout (now rd) s2)).
  { intros s2 Hinv2. pose proof Hinv2 as (Hrs2 & Hrc2 & Hts2 & _).
    rewrite handleThrowingTimeout_idle; [assumption.. | rewrite Hts2; exact Ht]. }
  case_if; cbn [fst snd]; apply Hdone; [|assumption].
  destruct (stopScrollText_frame s') as (f2 & sc & ->).
  match goal with |- context [updateDisplay ?t] =>
    destruct (updateDisplay_face t eq_refl) as (f2' & sc' & out & pd & es & ->)
  end.
  revert Hinv. apply dispensingInv_ext; reflexivity.
Qed.

(** The first pass starts the throw. *)
Lemma cardDispensingActions_start a rd s :
  throwingCard (flags1 s) = false -> cardDealt (flags1 s) = false ->
  retractStarted (statics s) = false -> retractCompleted (statics s) = false ->
  1 <= a <= 255 ->
  dispensingInv (now rd) (fst (cardDispensingActions a (observe rd s)))
                         (snd (cardDispensingActions a (observe rd s))).
Proof.
  intros Hthrow Hd Hrs Hrc Ha.
  unfold cardDispensingActions. cbv zeta.
  change (throwingCard (flags1 (observe rd s))) with (throwingCard (flags1 s)).
  rewrite Hthrow. cbn [negb fst snd].
  rewrite handleThrowingTimeout_idle.
  - unfold prepareForDeal, dispensingInv. rsimpl.
    repeat split; auto. left. repeat split; auto.
  - exact Hrs.
  - exact Hrc.
  - unfold prepareForDeal. rsimpl. rewrite elapsed_self. reflexivity.
Qed.

(** The loop of [dealSingleCard], entered with the throw under way. *)
Lemma dispenseLoop_inv t0 ins : forall a s a' err rest s',
  dispensingInv t0 a s ->
  Forall (fun rd => elapsed (now rd) t0 < throwExpiration) ins ->
  dispenseLoop a ins s = Done (a', err) rest s' ->
  dispensingInv t0 a' s'.
Proof.
  induction ins as [|rd ins IH]; intros a s a' err rest s' Hinv Hall Hrun;
    cbn [dispenseLoop] in Hrun.
  - destruct (cardDealt (flags1 s)); [|discriminate].
    injection Hrun as <- _ _ <-. exact Hinv.
  - destruct (cardDealt (flags1 s)) eqn:Hd.
    + injection Hrun as <- _ _ <-. exact Hinv.
    + apply Forall_cons_iff in Hall as [Hrd Hall].
      pose proof (cardDispensingActions_inv t0 a rd s Hinv Hd Hrd) as Hstep.
      destruct (cardDispensingActions a (observe rd s)) as [a1 s1].
      cbn [fst snd] in Hstep.
      destruct (errorInProgress (flags4 s1)).
      * injection Hrun as <- _ _ <-. exact Hstep.
      * exact (IH _ _ _ _ _ _ Hstep Hall Hrun).
Qed.

(** *** The counter of consecutive deals *)

Lemma updateDisplay_statics s : statics (updateDisplay s) = statics s.
Proof.
  unfold updateDisplay. cbv zeta.
  set (s1 := if negb (displayState_eqb _ _) then _ else s).
  assert (H1 : statics s1 = statics s) by (subst s1; case_if; reflexivity).
  clearbody s1.
  match goal with |- statics (if _ then updateScrollText ?t else _) = _ =>
    set (s2 := t) end.
  assert (H2 : statics s2 = statics s1).
  { subst s2. destruct (currentDisplayState s1); try reflexivity;
      apply menuScreen_statics. }
  clearbody s2. rewrite <- H1, <- H2.
  case_if; [|reflexivity].
  destruct (updateScrollText_frame s2) as (f2 & sc & out & ->). reflexivity.
Qed.

Lemma slideCard_statics_counter a s :
  consecutiveDeals (statics (snd (slideCard a s))) = consecutiveDeals (statics s).
Proof.
  unfold slideCard. cbv zeta. repeat case_if; reflexivity.
Qed.

Lemma handleThrowingTimeout_counter t s :
  consecutiveDeals (statics (handleThrowingTimeout t s))
  = consecutiveDeals (statics s).
Proof.
  unfold handleThrowingTimeout. cbv zeta.
  set (s1 := if (_ <=? _) && _ && _ then _ else s).
  assert (H1 : consecutiveDeals (statics s1) = consecutiveDeals (statics s))
    by (subst s1; case_if; reflexivity).
  clearbody s1.
  set (s2 := if retractStarted (statics s1) && _ then _ else s1).
  assert (H2 : consecutiveDeals (statics s2) = consecutiveDeals (statics s1))
    by (subst s2; case_if; reflexivity).
  clearbody s2. rewrite <- H1, <- H2.
  case_if; [|reflexivity].
  rewrite updateDisplay_statics. repeat case_if; reflexivity.
Qed.

Lemma cardDispensingActions_counter a s :
  consecutiveDeals (statics (snd (cardDispensingActions a s)))
  = consecutiveDeals (statics s).
Proof.
  unfold cardDispensingActions. cbv zeta.
  case_if; cbn [negb fst snd].
  - rewrite handleThrowingTimeout_counter. reflexivity.
  - destruct (pollCraw_frame s) as (a1 & b1 & c1 & d1 & e1 & Hp & _).
    rewrite Hp.
    match goal with |- context [slideCard a ?t] =>
      pose proof (slideCard_statics_counter a t) as Hs;
      destruct (slideCard a t) as [a' s'] end.
    cbn [snd] in Hs.
    case_if; cbn [snd]; rewrite handleThrowingTimeout_counter;
      [rewrite updateDisplay_statics|]; exact Hs.
Qed.

Lemma dispenseLoop_counter ins : forall a s,
  consecutiveDeals (statics (finalState (dispenseLoop a ins s)))
  = consecutiveDeals (statics s).
Proof.
  induction ins as [|rd ins IH]; intros a s; cbn [dispenseLoop].
  - case_if; reflexivity.
  - case_if; [reflexivity|].
    pose proof (cardDispensingActions_counter a (observe rd s)) as Hs.
    destruct (cardDispensingActions a (observe rd s)) as [a1 s1].
    cbn [snd] in Hs. case_if; [exact Hs|].
    rewrite IH. exact Hs.
Qed.

(** Nothing ever counts a deal: while the counter is below the limit,
    [dealSingleCard] runs the dispensing loop and leaves the counter as
    it found it. *)
Lemma dealSingleCard_counter a ins s :
  consecutiveDeals (statics s) = 0 ->
  consecutiveDeals (statics (finalState (dealSingleCard a ins s))) = 0.
Proof.
  intros Hz. unfold dealSingleCard. cbv zeta.
  set (s1 := if _ || _ then _ else s).
  assert (H1 : consecutiveDeals (statics s1) = 0)
    by (subst s1; case_if; [rewrite updateDisplay_statics|]; exact Hz).
  clearbody s1. rewrite H1. change (0 <? 3) with true. cbv iota.
  pose proof (dispenseLoop_counter ins a s1) as Hl.
  unfold bind. destruct (dispenseLoop a ins s1) as [[a' e] rest s2|s2];
    cbn [finalState snd] in *; [|congruence].
  destruct e; cbn [finalState]; unfold flywheelOff; rsimpl; congruence.
Qed.

Lemma dealsInARow_counter n : forall a ins s,
  consecutiveDeals (statics s) = 0 ->
  consecutiveDeals (statics (finalState (dealsInARow n a ins s))) = 0.
Proof.
  induction n as [|n IH]; intros a ins s Hz; cbn [dealsInARow].
  - exact Hz.
  - unfold dispenseCards, bind.
    pose proof (dealSingleCard_counter a ins s Hz) as Hd.
    destruct (dealSingleCard a ins s) as [u rest s1|s1]; cbn [finalState] in *.
    + apply IH. exact Hd.
    + exact Hd.
Qed.

(** *** What counts as a confirmed exit *)

Lemma slideCard_counts_exits a s :
  fst (slideCard a s) <> a ->
  cardLeftCraw (flags3 s) = true /\ fst (slideCard a s) = wrap8 (a - 1).
Proof.
  unfold slideCard. cbv zeta.
  repeat case_if; cbn [fst]; try congruence; intros _; rsimpl; auto.
Qed.

Lemma pollCraw_exit s :
  cardLeftCraw (flags3 (pollCraw s)) = true ->
  cardLeftCraw (flags3 s) = true
  \/ (pin (world s) = true /\ previousCardInCraw s = false).
Proof.
  unfold pollCraw. cbv zeta.
  destruct (_ <=? _); [|auto]. rsimpl.
  match goal with |- context [Bool.eqb ?p ?q] =>
    destruct p eqn:Hp, q eqn:Hq end;
    cbn [Bool.eqb negb]; rsimpl; intros Hc; auto; discriminate.
Qed.

End Dispensing.





(** ** The classifier range across the engine *)

Lemma classifierRange_ext s s' :
  activeColor (colours s') = activeColor (colours s) ->
  stableColor (colours s') = stableColor (colours s) ->
  classifierRange s -> classifierRange s'.
Proof. unfold classifierRange. intros -> ->. exact (fun x => x). Qed.

Lemma classifierRange_bind {A B} (m : Outcome A)
    (k : A -> list Reading -> Dealer -> Outcome B) :
  classifierRange (finalState m) ->
  (forall a rest s, classifierRange s -> classifierRange (finalState (k a rest s))) ->
  classifierRange (finalState (bind m k)).
Proof.
  intros Hm Hk. destruct m as [a rest s|s]; cbn [bind finalState] in *; auto.
Qed.

Lemma classifierRange_let (a : Dealer) (k : Dealer -> Dealer) :
  classifierRange a ->
  (forall s, classifierRange s -> classifierRange (k s)) ->
  classifierRange (let s := a in k s).
Proof. intros Ha Hk. exact (Hk a Ha). Qed.

Lemma classifierRange_let_outcome {A} (a : Dealer) (k : Dealer -> Outcome A) :
  classifierRange a ->
  (forall s, classifierRange s -> classifierRange (finalState (k s))) ->
  classifierRange (finalState (let s := a in k s)).
Proof. intros Ha Hk. exact (Hk a Ha). Qed.

Create HintDb range.

Ltac range_pair p :=
  let H := fresh "Hp" in
  assert (H : classifierRange (snd p)) by auto 100 with range nocore;
  destruct p; cbn [snd] in H.

Ltac range_step :=
  lazymatch goal with
  | H : classifierRange ?s |- classifierRange ?s => exact H
  | |- classifierRange (finalState (bind _ _)) =>
      apply classifierRange_bind; [|intros ? ? ? ?]
  | |- classifierRange (finalState (Done _ _ _)) => cbn [finalState]
  | |- classifierRange (finalState (Stalled _)) => cbn [finalState]
  | |- classifierRange (finalState (let x := ?a in @?k x)) =>
      first [ apply (classifierRange_let_outcome a k); [|intros ? ?; cbv beta]
            | change (classifierRange (finalState (k a))); cbv beta ]
  | |- classifierRange (finalState (let '(_, _) := ?p in _)) => range_pair p
  | |- classifierRange (finalState (if ?c then _ else _)) => destruct c
  | |- classifierRange (let x := ?a in @?k x) =>
      first [ apply (classifierRange_let a k); [|intros ? ?; cbv beta]
            | change (classifierRange (k a)); cbv beta ]
  | |- classifierRange (let '(_, _) := ?p in _) => range_pair p
  | |- classifierRange (if ?c then _ else _) => destruct c
  | |- classifierRange (apply_update _ ?s) =>
      apply (classifierRange_ext s); [reflexivity | reflexivity | ]
  | |- classifierRange (emit _ ?s) =>
      apply (classifierRange_ext s); [reflexivity | reflexivity | ]
  | |- classifierRange (observe _ ?s) =>
      apply (classifierRange_ext s); [reflexivity | reflexivity | ]
  end.

#[export] Hint Extern 1 (classifierRange _) => range_step : range.
#[export] Hint Resolve colorRead_range colorScan_range : range.

Ltac range := auto 200 with range nocore.

Section EngineRange.
Context `{Frontend} `{Game}.
Hypothesis menuScreen_range : forall s, classifierRange s -> classifierRange (menuScreen s).
Hypothesis onMainDealEnd_range : forall s, classifierRange s -> classifierRange (_onMainDealEnd s).
Hypothesis onGameOver_range : forall s, classifierRange s -> classifierRange (onGameOver s).
Hypothesis handleAwaitDecisionDisplay_range :
  forall s, classifierRange s -> classifierRange (handleAwaitDecisionDisplay s).

Lemma checkForColorSpike_range c bl s :
  classifierRange s -> classifierRange (snd (checkForColorSpike c bl s)).
Proof.
  intros Hs. destruct (checkForColorSpike_frame c bl s) as (f & ->). cbn [snd]. range.
Qed.

#[local] Hint Resolve menuScreen_range onMainDealEnd_range onGameOver_range
  handleAwaitDecisionDisplay_range checkForColorSpike_range : range.

Lemma startScrollText_range text a b c s :
  classifierRange s -> classifierRange (startScrollText text a b c s).
Proof. intros Hs. cbv beta delta [startScrollText]. range. Qed.

Lemma updateScrollText_range s : classifierRange s -> classifierRange (updateScrollText s).
Proof. intros Hs. cbv beta delta [updateScrollText]. range. Qed.

Lemma stopScrollText_range s : classifierRange s -> classifierRange (stopScrollText s).
Proof. intros Hs. cbv beta delta [stopScrollText]. range. Qed.

Lemma displayFace_range w s : classifierRange s -> classifierRange (displayFace w s).
Proof. intros Hs. cbv beta delta [displayFace]. range. Qed.


#[local] Hint Resolve startScrollText_range updateScrollText_range stopScrollText_range
  displayFace_range : range.

Lemma updateDisplay_range s : classifierRange s -> classifierRange (updateDisplay s).
Proof.
  intros Hs. unfold updateDisplay. cbv zeta.
  set (s1 := if negb (displayState_eqb _ _) then _ else s).
  assert (H1 : classifierRange s1) by (subst s1; range).
  clearbody s1. clear Hs.
  match goal with |- classifierRange (if _ then updateScrollText ?t else _) =>
    set (s2 := t) end.
  assert (H2 : classifierRange s2)
    by (subst s2; destruct (currentDisplayState s1); range).
  clearbody s2. range.
Qed.
#[local] Hint Resolve updateDisplay_range : range.

Lemma rotate_range speed dir s : classifierRange s -> classifierRange (rotate speed dir s).
Proof. intros Hs. cbv beta delta [rotate]. range. Qed.

Lemma rotateStop_range s : classifierRange s -> classifierRange (rotateStop s).
Proof. intros Hs. cbv beta delta [rotateStop]. range. Qed.

Lemma flywheelOn_range d s : classifierRange s -> classifierRange (flywheelOn d s).
Proof. intros Hs. cbv beta delta [flywheelOn]. range. Qed.

Lemma flywheelOff_range s : classifierRange s -> classifierRange (flywheelOff s).
Proof. intros Hs. cbv beta delta [flywheelOff]. range. Qed.

Lemma feedCard_write_range a s : classifierRange s -> classifierRange (feedCard_write a s).
Proof. intros Hs. cbv beta delta [feedCard_write]. range. Qed.
#[local] Hint Resolve rotate_range rotateStop_range flywheelOn_range flywheelOff_range
  feedCard_write_range : range.

Lemma pollCraw_range s : classifierRange s -> classifierRange (pollCraw s).
Proof. intros Hs. cbv beta delta [pollCraw]. range. Qed.

Lemma slideCard_range a s : classifierRange s -> classifierRange (snd (slideCard a s)).
Proof. intros Hs. unfold slideCard. cbv zeta. repeat case_if; cbn [snd]; range. Qed.

Lemma prepareForDeal_range s : classifierRange s -> classifierRange (prepareForDeal s).
Proof. intros Hs. cbv beta delta [prepareForDeal]. range. Qed.

Lemma resetThrowCardState_range s :
  classifierRange s -> classifierRange (resetThrowCardState s).
Proof. intros Hs. cbv beta delta [resetThrowCardState]. range. Qed.
#[local] Hint Resolve pollCraw_range slideCard_range prepareForDeal_range
  resetThrowCardState_range : range.

Lemma handleThrowingTimeout_range t s :
  classifierRange s -> classifierRange (handleThrowingTimeout t s).
Proof.
  intros Hs. unfold handleThrowingTimeout. cbv zeta.
  set (s1 := if (_ <=? _) && _ && _ then _ else s).
  assert (H1 : classifierRange s1) by (subst s1; range).
  clearbody s1. clear Hs.
  set (s2 := if retractStarted (statics s1) && _ then _ else s1).
  assert (H2 : classifierRange s2) by (subst s2; range).
  clearbody s2. range.
Qed.
#[local] Hint Resolve handleThrowingTimeout_range : range.

Lemma cardDispensingActions_range a s :
  classifierRange s -> classifierRange (snd (cardDispensingActions a s)).
Proof.
  intros Hs. unfold cardDispensingActions. cbv zeta.
  case_if; cbn [negb snd]; [range|].
  pose proof (slideCard_range a (pollCraw s) (pollCraw_range s Hs)) as Hsl.
  destruct (slideCard a (pollCraw s)) as [a' s']. cbn [snd] in Hsl.
  case_if; cbn [snd]; range.
Qed.
#[local] Hint Resolve cardDispensingActions_range : range.

Lemma dispenseLoop_range ins : forall a s,
  classifierRange s -> classifierRange (finalState (dispenseLoop a ins s)).
Proof.
  induction ins as [|rd ins IH]; intros a s Hs; cbn [dispenseLoop]; [range|].
  case_if; [range|].
  pose proof (cardDispensingActions_range a (observe rd s)) as Hc.
  destruct (cardDispensingActions a (observe rd s)) as [a1 s1]. cbn [snd] in Hc.
  assert (H1 : classifierRange s1) by (apply Hc; range).
  range.
Qed.
#[local] Hint Resolve dispenseLoop_range : range.

Lemma dealSingleCard_range a ins s :
  classifierRange s -> classifierRange (finalState (dealSingleCard a ins s)).
Proof. intros Hs. cbv beta delta [dealSingleCard]. range. Qed.
#[local] Hint Resolve dealSingleCard_range : range.

Lemma handleFineAdjustTimeout_range s :
  classifierRange s -> classifierRange (handleFineAdjustTimeout s).
Proof. intros Hs. cbv beta delta [handleFineAdjustTimeout]. range. Qed.
#[local] Hint Resolve handleFineAdjustTimeout_range : range.

Lemma resetColorsSeen_range s :
  classifierRange s -> classifierRange (resetColorsSeen s).
Proof. intros Hs. cbv beta delta [resetColorsSeen]. range. Qed.
#[local] Hint Resolve resetColorsSeen_range : range.

Lemma resetFlags_range s :
  classifierRange s -> classifierRange (resetFlags s).
Proof. intros Hs. cbv beta delta [resetFlags]. range. Qed.
#[local] Hint Resolve resetFlags_range : range.

Lemma handleResetDealrState_range s :
  classifierRange s -> classifierRange (handleResetDealrState s).
Proof. intros Hs. cbv beta delta [handleResetDealrState]. range. Qed.
#[local] Hint Resolve handleResetDealrState_range : range.

Lemma handleIdleState_range s :
  classifierRange s -> classifierRange (handleIdleState s).
Proof. intros Hs. cbv beta delta [handleIdleState]. range. Qed.
#[local] Hint Resolve handleIdleState_range : range.

Lemma moveOffActiveColor_range cw ins : forall s,
  classifierRange s -> classifierRange (finalState (moveOffActiveColor cw ins s)).
Proof.
  induction ins as [|rd ins IH]; intros s Hs; cbn [moveOffActiveColor]; range.
Qed.
#[local] Hint Resolve moveOffActiveColor_range : range.

Lemma returnToActiveColor_range cw ins : forall s,
  classifierRange s -> classifierRange (finalState (returnToActiveColor cw ins s)).
Proof.
  induction ins as [|rd ins IH]; intros s Hs; cbn [returnToActiveColor]; range.
Qed.
#[local] Hint Resolve returnToActiveColor_range : range.

Lemma handleFlipCard_range ins s :
  classifierRange s -> classifierRange (finalState (handleFlipCard ins s)).
Proof. intros Hs. cbv beta delta [handleFlipCard]. range. Qed.
#[local] Hint Resolve handleFlipCard_range : range.

Lemma advanceToTag_range  ins : forall s,
  classifierRange s -> classifierRange (finalState (advanceToTag ins s)).
Proof.
  induction ins as [|rd ins IH]; intros s Hs; cbn [advanceToTag]; range.
Qed.
#[local] Hint Resolve advanceToTag_range : range.

Lemma handleAdvancingOnePlayer_range ins s :
  classifierRange s -> classifierRange (finalState (handleAdvancingOnePlayer ins s)).
Proof. intros Hs. cbv beta delta [handleAdvancingOnePlayer]. range. Qed.
#[local] Hint Resolve handleAdvancingOnePlayer_range : range.

Lemma scrollUntilRepeated_range  ins : forall s,
  classifierRange s -> classifierRange (finalState (scrollUntilRepeated ins s)).
Proof.
  induction ins as [|rd ins IH]; intros s Hs; cbn [scrollUntilRepeated]; range.
Qed.
#[local] Hint Resolve scrollUntilRepeated_range : range.

Lemma displayErrorMessage_range text ins s :
  classifierRange s -> classifierRange (finalState (displayErrorMessage text ins s)).
Proof. intros Hs. cbv beta delta [displayErrorMessage]. range. Qed.
#[local] Hint Resolve displayErrorMessage_range : range.

Lemma showError_range text rounds : forall ins s,
  classifierRange s -> classifierRange (finalState (showError rounds text ins s)).
Proof.
  induction rounds as [|rounds IH]; intros ins s Hs; cbn [showError]; range.
Qed.
#[local] Hint Resolve showError_range : range.

Lemma handleStandardGameDecisionsAfterFineAdjust_range ins s :
  classifierRange s -> classifierRange (finalState (handleStandardGameDecisionsAfterFineAdjust ins s)).
Proof. intros Hs. cbv beta delta [handleStandardGameDecisionsAfterFineAdjust]. range. Qed.
#[local] Hint Resolve handleStandardGameDecisionsAfterFineAdjust_range : range.

Lemma handleAdvancingStateInAdjust_range ins s :
  classifierRange s -> classifierRange (finalState (handleAdvancingStateInAdjust ins s)).
Proof. intros Hs. cbv beta delta [handleAdvancingStateInAdjust]. range. Qed.
#[local] Hint Resolve handleAdvancingStateInAdjust_range : range.

Lemma passNonRedTag_range  ins : forall s,
  classifierRange s -> classifierRange (finalState (passNonRedTag ins s)).
Proof.
  induction ins as [|rd ins IH]; intros s Hs; cbn [passNonRedTag]; range.
Qed.
#[local] Hint Resolve passNonRedTag_range : range.

Lemma handleInitializingStateInAdjust_range ins s :
  classifierRange s -> classifierRange (finalState (handleInitializingStateInAdjust ins s)).
Proof. intros Hs. cbv beta delta [handleInitializingStateInAdjust]. range. Qed.
#[local] Hint Resolve handleInitializingStateInAdjust_range : range.

Lemma handleRotationAdjustments_range s :
  classifierRange s -> classifierRange (handleRotationAdjustments s).
Proof. intros Hs. cbv beta delta [handleRotationAdjustments]. range. Qed.
#[local] Hint Resolve handleRotationAdjustments_range : range.

Lemma resolveSpike_range  ins : forall s,
  classifierRange s -> classifierRange (finalState (resolveSpike ins s)).
Proof.
  induction ins as [|rd ins IH]; intros s Hs; cbn [resolveSpike]; range.
Qed.
#[local] Hint Resolve resolveSpike_range : range.

Lemma fineAdjustCheck_range ins s :
  classifierRange s -> classifierRange (finalState (fineAdjustCheck ins s)).
Proof. intros Hs. cbv beta delta [fineAdjustCheck]. range. Qed.
#[local] Hint Resolve fineAdjustCheck_range : range.

Lemma initializeToRed_range ins s :
  classifierRange s -> classifierRange (finalState (initializeToRed ins s)).
Proof. intros Hs. cbv beta delta [initializeToRed]. range. Qed.
#[local] Hint Resolve initializeToRed_range : range.

Lemma handleAdvancingState_range ins s :
  classifierRange s -> classifierRange (finalState (handleAdvancingState ins s)).
Proof. intros Hs. cbv beta delta [handleAdvancingState]. range. Qed.
#[local] Hint Resolve handleAdvancingState_range : range.

Lemma handleStandardGameRemainderCards_range ins s :
  classifierRange s -> classifierRange (finalState (handleStandardGameRemainderCards ins s)).
Proof. intros Hs. cbv beta delta [handleStandardGameRemainderCards]. range. Qed.
#[local] Hint Resolve handleStandardGameRemainderCards_range : range.

Lemma returnToFirstPlayer_range  ins : forall s,
  classifierRange s -> classifierRange (finalState (returnToFirstPlayer ins s)).
Proof.
  induction ins as [|rd ins IH]; intros s Hs; cbn [returnToFirstPlayer]; range.
Qed.
#[local] Hint Resolve returnToFirstPlayer_range : range.

Lemma handlePostDealGameplay_range ins s :
  classifierRange s -> classifierRange (finalState (handlePostDealGameplay ins s)).
Proof. intros Hs. cbv beta delta [handlePostDealGameplay]. range. Qed.
#[local] Hint Resolve handlePostDealGameplay_range : range.

Lemma handleToolsDealing_range ins s :
  classifierRange s -> classifierRange (finalState (handleToolsDealing ins s)).
Proof. intros Hs. cbv beta delta [handleToolsDealing]. range. Qed.
#[local] Hint Resolve handleToolsDealing_range : range.

Lemma handleToolsAdvancingDecisions_range s :
  classifierRange s -> classifierRange (handleToolsAdvancingDecisions s).
Proof. intros Hs. cbv beta delta [handleToolsAdvancingDecisions]. range. Qed.
#[local] Hint Resolve handleToolsAdvancingDecisions_range : range.

Lemma handleDealingState_range ins s :
  classifierRange s -> classifierRange (finalState (handleDealingState ins s)).
Proof. intros Hs. cbv beta delta [handleDealingState]. range. Qed.
#[local] Hint Resolve handleDealingState_range : range.

Lemma handleGameOver_range ins s :
  classifierRange s -> classifierRange (finalState (handleGameOver ins s)).
Proof. intros Hs. cbv beta delta [handleGameOver]. range. Qed.
#[local] Hint Resolve handleGameOver_range : range.

Lemma handleAwaitingPlayerDecision_range s :
  classifierRange s -> classifierRange (handleAwaitingPlayerDecision s).
Proof. intros Hs. cbv beta delta [handleAwaitingPlayerDecision]. range. Qed.
#[local] Hint Resolve handleAwaitingPlayerDecision_range : range.

Lemma checkState_range ins s :
  classifierRange s -> classifierRange (finalState (checkState ins s)).
Proof.
  intros Hs. cbv beta delta [checkState].
  repeat range_step; try solve [range].
  match goal with |- context [currentDealState ?t] => destruct (currentDealState t) end;
    range.
Qed.

Lemma dispenseCards_range a ins s :
  classifierRange s -> classifierRange (finalState (dispenseCards a ins s)).
Proof. intros Hs. cbv beta delta [dispenseCards]. range. Qed.

End EngineRange.

Lemma boot_range table rom : classifierRange (boot table rom).
Proof. unfold classifierRange, TOTAL_COLORS, NUM_PLAYER_COLORS. cbn. lia. Qed.

Lemma BaseGame_onMainDealEnd_range s :
  classifierRange s -> classifierRange (@_onMainDealEnd BaseGame s).
Proof.
  intros Hs. cbn [_onMainDealEnd BaseGame].
  cbv beta delta [resetScrollingMessages onMainDealEnd]. range.
Qed.

(** C10.  The classified identities [stableColor] and [activeColor] index
    the colour table: the nearest-centroid search returns an index below
    [TOTAL_COLORS]; the range holds after [setup], and it is preserved by
    every call of [colorRead] and [colorScan], by every pass of the
    orchestrator [checkState] and by [Game::dispenseCards], whatever the
    readings, provided the screens and the game's own methods preserve
    it. *)
Theorem classifierRange_invariant `{Frontend} `{Game} :
  (forall s, classifierRange s -> classifierRange (menuScreen s)) ->
  (forall s, classifierRange s -> classifierRange (_onMainDealEnd s)) ->
  (forall s, classifierRange s -> classifierRange (onGameOver s)) ->
  (forall s, classifierRange s -> classifierRange (handleAwaitDecisionDisplay s)) ->
  (forall table raw, 0 <= classify table raw < TOTAL_COLORS)
  /\ (forall table rom, classifierRange (boot table rom))
  /\ (forall bl s, classifierRange s -> classifierRange (colorRead bl s))
  /\ (forall s, classifierRange s -> classifierRange (colorScan s))
  /\ (forall ins s,
        classifierRange s -> classifierRange (finalState (checkState ins s)))
  /\ (forall amount ins s,
        classifierRange s ->
        classifierRange (finalState (dispenseCards amount ins s))).
Proof.
  intros Hmenu Hend Hover Hshow.
  split; [exact classify_range|].
  split; [exact boot_range|].
  split; [exact colorRead_range|].
  split; [exact colorScan_range|].
  split.
  - intros ins s. apply checkState_range; assumption.
  - intros amount ins s. apply dispenseCards_range; assumption.
Qed.

Lemma classifierRange_invariant_witness :
  classifierRange (colorRead 118 (observe (overRed 0) factory))
  /\ classifierRange
       (finalState (@checkState silentFrontend BaseGame (cardPasses 1000) readyToDeal)).
Proof.
  destruct (@classifierRange_invariant silentFrontend BaseGame)
    as (_ & Hboot & Hread & _ & Hpass & _).
  - intros s Hs. exact Hs.
  - exact BaseGame_onMainDealEnd_range.
  - intros s Hs. exact Hs.
  - intros s Hs. exact Hs.
  - split.
    + apply Hread. repeat split; vm_compute; first [reflexivity | discriminate].
    + apply Hpass. repeat split; vm_compute; first [reflexivity | discriminate].
Defined.

(** ** Round accounting *)

Section RoundAccounting.
Context `{Frontend} `{Game}.
Hypothesis noFlipCard : requiresFlipCard = false.
Hypothesis onMainDealEnd_accounting :
  forall s, accounting (_onMainDealEnd s) = accounting s.

Lemma toInt8_small ac : 0 <= ac <= 127 -> toInt8 ac = ac.
Proof.
  intros Hac. unfold toInt8, wrap8. rewrite Z.mod_small by lia.
  destruct (ac <? 128) eqn:Hlt; [reflexivity | apply Z.ltb_ge in Hlt; lia].
Qed.

Lemma accounting_confirmTag ac ins s v :
  1 <= ac <= 127 ->
  colorStatus (colours s) !! 0%nat = Some v ->
  accounting (confirmTag ac ins s)
  = let rem := remainingRoundsToDeal (gameplay s) in
    let pd := postDeal (flags3 s) in
    let nf := notFirstRoundOfDeal (flags3 s) in
    let idn := playerLeftOfDealerIdentified (flags5 s) in
    let lft := colorLeftOfDealer (colours s) in
    if ac =? 1 then
      if v =? -1 then
        {| aRemaining := rem; aPostDeal := pd; aNotFirst := true;
           aIdentified := idn; aLeftOfDealer := lft; aRedStatus := Some 0 |}
      else accounting s
    else
      let lft' := if idn then lft else ac in
      if (ac =? lft') && nf then
        {| aRemaining := wrap8 (rem - 1);
           aPostDeal := pd || (wrap8 (rem - 1) =? 0);
           aNotFirst := nf; aIdentified := true; aLeftOfDealer := lft';
           aRedStatus := Some v |}
      else
        {| aRemaining := rem; aPostDeal := pd; aNotFirst := nf;
           aIdentified := true; aLeftOfDealer := lft'; aRedStatus := Some v |}.
Proof.
  intros Hac Hv.
  cbv beta zeta delta [confirmTag handleStandardGameDecisionsAfterFineAdjust].
  rewrite noFlipCard.
  match goal with |- context [rotateStop ?t] => set (s1 := rotateStop t) end.
  assert (Hs1 : exists f1 f2 a o st,
             s1 = s <| colours -> activeColor := ac |>
                    <| flags1 := f1 |> <| flags2 := f2 |>
                    <| flags5 -> adjustInProgress := a |>
                    <| outputs := o |> <| stopped := st |>).
  { exists (flags1 s1), (flags2 s1), (adjustInProgress (flags5 s1)), (outputs s1),
      (stopped s1).
    subst s1. unfold rotateStop. case_if; reflexivity. }
  destruct Hs1 as (f1 & f2 & a & o & st & Hs1). clearbody s1. subst s1.
  cbv zeta. rewrite !andb_false_r. rsimpl.
  destruct (ac =? 1) eqn:Hred.
  - apply Z.eqb_eq in Hred. subst ac. change (Z.to_nat (1 - 1)) with 0%nat.
    rewrite (list_lookup_total_correct _ _ _ Hv).
    destruct (v =? -1); repeat case_if; cbn [finalState]; unfold accounting; rsimpl;
      try reflexivity;
      f_equal; apply list_lookup_insert_eq; apply (lookup_lt_Some _ _ _ Hv).
  - assert (Hgt : (1 <? ac) = true) by (apply Z.ltb_lt; apply Z.eqb_neq in Hred; lia).
    rewrite Hgt, (toInt8_small ac) by lia.
    match goal with |- context [if negb ?b then _ else _] => destruct b eqn:Hid end;
      cbn [negb]; rsimpl.
    all: try match goal with |- context [_onMainDealEnd ?t] =>
        pose proof (onMainDealEnd_accounting t) as Hacc;
        set (s5 := _onMainDealEnd t) in *; clearbody s5;
        unfold accounting in Hacc; rsimpl;
        injection Hacc as Hrem Hpd Hnf Hidn Hlft Hst
      end.
    all: repeat case_if; cbn [finalState]; unfold accounting; rsimpl.
    all: rewrite ?Hrem, ?Hpd, ?Hnf, ?Hidn, ?Hlft, ?Hst.
    all: rewrite ?Hv; try reflexivity.
    all: try match goal with |- context [?p || (?w =? 0)] =>
        destruct p eqn:?, (w =? 0) eqn:? end;
      cbn [orb andb negb] in *; try reflexivity; try discriminate.
Qed.

Lemma accounting_step ac ins s a v :
  accounting s = a ->
  aRedStatus a = Some v ->
  1 <= ac <= 127 ->
  accounting (confirmTag ac ins s)
  = if ac =? 1 then
      if v =? -1 then
        {| aRemaining := aRemaining a; aPostDeal := aPostDeal a; aNotFirst := true;
           aIdentified := aIdentified a; aLeftOfDealer := aLeftOfDealer a;
           aRedStatus := Some 0 |}
      else a
    else
      let lft' := if aIdentified a then aLeftOfDealer a else ac in
      if (ac =? lft') && aNotFirst a then
        {| aRemaining := wrap8 (aRemaining a - 1);
           aPostDeal := aPostDeal a || (wrap8 (aRemaining a - 1) =? 0);
           aNotFirst := aNotFirst a; aIdentified := true; aLeftOfDealer := lft';
           aRedStatus := Some v |}
      else
        {| aRemaining := aRemaining a; aPostDeal := aPostDeal a;
           aNotFirst := aNotFirst a; aIdentified := true; aLeftOfDealer := lft';
           aRedStatus := Some v |}.
Proof.
  intros <- Hv Hac. exact (accounting_confirmTag ac ins s v Hac Hv).
Qed.

(** *** Arithmetic of laps *)

Lemma div_pred_same k L : (0 < L)%nat -> (k mod L <> 0)%nat -> ((k - 1) / L = k / L)%nat.
Proof.
  intros HL Hr. pose proof (Nat.div_mod_eq k L) as Hk.
  pose proof (Nat.mod_upper_bound k L ltac:(lia)) as Hlt.
  symmetry. apply (Nat.div_unique (k - 1) L (k / L) (k mod L - 1)); lia.
Qed.

Lemma div_pred_lap k L :
  (0 < L)%nat -> (0 < k)%nat -> (k mod L = 0)%nat -> (k / L = (k - 1) / L + 1)%nat.
Proof.
  intros HL Hk Hr. pose proof (Nat.div_mod_eq k L) as Hd. rewrite Hr in Hd.
  assert (Hq : (0 < k / L)%nat) by (destruct (k / L)%nat; lia).
  assert (((k - 1) / L = k / L - 1)%nat); [|lia].
  symmetry. apply (Nat.div_unique (k - 1) L (k / L - 1) (L - 1)); [lia|].
  destruct (k / L)%nat as [|q]; [lia|]. nia.
Qed.

(** *** The tags of a lap *)

Section Lap.
Variables (p1 : Z) (rest : list Z).
Let lap := p1 :: rest ++ [1].
Let L := length lap.

Lemma lap_length : L = S (S (length rest)).
Proof. subst L lap. cbn [length]. rewrite length_app. cbn [length]. lia. Qed.

Lemma tagAt_first k : (k mod L = 0)%nat -> tagAt lap k = p1.
Proof. intros Hr. unfold tagAt. fold L. rewrite Hr. reflexivity. Qed.

Lemma tagAt_reference k : (k mod L = L - 1)%nat -> tagAt lap k = 1.
Proof.
  intros Hr. unfold tagAt. fold L. rewrite Hr, lap_length.
  replace (S (S (length rest)) - 1)%nat with (S (length rest)) by lia.
  subst lap. cbn [nth]. rewrite app_nth2 by lia. rewrite Nat.sub_diag. reflexivity.
Qed.

Lemma tagAt_other k :
  (0 < k mod L < L - 1)%nat -> In (tagAt lap k) rest.
Proof.
  intros Hr. unfold tagAt. fold L. rewrite lap_length in Hr |- *.
  destruct (k mod S (S (length rest)))%nat as [|r] eqn:Hk; [lia|].
  subst lap. cbn [nth]. rewrite app_nth1 by lia. apply nth_In. lia.
Qed.

End Lap.

Lemma accountingAfter_step p1 rest R k ins s :
  let lap := p1 :: rest ++ [1] in
  let L := length lap in
  Forall (fun p => 2 <= p <= NUM_PLAYER_COLORS) (p1 :: rest) ->
  ~ In p1 rest ->
  1 <= R <= 255 ->
  (k <= Z.to_nat R * L)%nat ->
  accountingAfter p1 R L k (accounting s) ->
  accountingAfter p1 R L (S k) (accounting (confirmTag (tagAt lap k) ins s)).
Proof.
  intros lap L Hplayers Hp1 HR Hk (Hrem & Hpd & Hnf & Hidn & Hlft & Hst).
  assert (HL : L = S (S (length rest))) by apply lap_length.
  assert (Hbounds : forall p, In p (p1 :: rest) -> 2 <= p <= 8)
    by (apply List.Forall_forall; exact Hplayers).
  pose proof (Nat.mod_upper_bound k L ltac:(lia)) as Hr.
  pose proof (Nat.div_mod_eq k L) as Hdm.
  assert (Hmul : k = (Z.to_nat R * L)%nat -> (k mod L = 0)%nat)
    by (intros ->; apply Nat.Div0.mod_mul).
  assert (Hcase : (k mod L = 0 \/ k mod L = L - 1 \/ 0 < k mod L < L - 1)%nat) by lia.
  destruct Hcase as [Hzero | [Hlast | Hmid]].
  - (* the player left of the dealer *)
    assert (Ht : tagAt lap k = p1) by exact (tagAt_first p1 rest k Hzero).
    rewrite Ht.
    assert (Hp : 2 <= p1 <= 8) by (apply Hbounds; left; reflexivity).
    rewrite (accounting_step p1 ins s _ _ eq_refl Hst) by lia.
    replace (p1 =? 1) with false by (symmetry; apply Z.eqb_neq; lia).
    cbv zeta. rewrite Hrem, Hpd, Hnf, Hidn.
    destruct k as [|k'].
    + cbn [Nat.leb]. rewrite Z.eqb_refl.
      replace (L <=? 0)%nat with false by (symmetry; apply Nat.leb_gt; lia).
      cbn [andb]. unfold accountingAfter. cbn [aRemaining aPostDeal aNotFirst
        aIdentified aLeftOfDealer aRedStatus].
      replace (L <=? 1)%nat with false by (symmetry; apply Nat.leb_gt; lia).
      replace ((1 - 1) / L)%nat with 0%nat by (symmetry; apply Nat.div_small; lia).
      replace (1 =? Z.to_nat R * L + 1)%nat with false
        by (symmetry; apply Nat.eqb_neq; nia).
      replace (0 =? Z.to_nat R * L + 1)%nat with false
        by (symmetry; apply Nat.eqb_neq; nia).
      repeat split; auto.
    + set (k := S k') in *.
      assert (Hq : (k / L = (k - 1) / L + 1)%nat) by (apply div_pred_lap; lia).
      assert (HkL : (L <= k)%nat) by nia.
      replace (1 <=? k)%nat with true by (symmetry; apply Nat.leb_le; lia).
      rewrite (Hlft ltac:(lia)), Z.eqb_refl.
      replace (L <=? k)%nat with true by (symmetry; apply Nat.leb_le; lia).
      cbn [andb].
      assert (Hqn : (k / L <= Z.to_nat R)%nat) by nia.
      assert (Hw : wrap8 (R - Z.of_nat ((k - 1) / L) - 1) = R - Z.of_nat (k / L)).
      { unfold wrap8. rewrite Z.mod_small by lia. lia. }
      rewrite Hw.
      unfold accountingAfter. cbn [aRemaining aPostDeal aNotFirst
        aIdentified aLeftOfDealer aRedStatus].
      replace (S k - 1)%nat with k by lia.
      replace (L <=? S k)%nat with true by (symmetry; apply Nat.leb_le; lia).
      replace (k =? Z.to_nat R * L + 1)%nat with false
        by (symmetry; apply Nat.eqb_neq; lia).
      cbn [orb Nat.leb].
      repeat split; auto.
      destruct (R - Z.of_nat (k / L) =? 0) eqn:Hz.
      * apply Z.eqb_eq in Hz. symmetry. apply Nat.eqb_eq. nia.
      * apply Z.eqb_neq in Hz. symmetry. apply Nat.eqb_neq. nia.
  - (* the reference tag *)
    assert (Ht : tagAt lap k = 1) by exact (tagAt_reference p1 rest k Hlast).
    rewrite Ht.
    rewrite (accounting_step 1 ins s _ _ eq_refl Hst) by lia.
    change (1 =? 1) with true. cbv iota.
    assert (Hdiv : ((S k - 1) / L = (k - 1) / L)%nat).
    { replace (S k - 1)%nat with k by lia. symmetry. apply div_pred_same; lia. }
    assert (Hk1 : (1 <= k)%nat) by lia.
    destruct (L <=? k)%nat eqn:HLk.
    + apply Nat.leb_le in HLk. change (0 =? -1) with false. cbv iota.
      unfold accountingAfter. rewrite Hdiv.
      replace (L <=? S k)%nat with true by (symmetry; apply Nat.leb_le; lia).
      replace (1 <=? S k)%nat with true by (symmetry; apply Nat.leb_le; lia).
      replace (S k =? Z.to_nat R * L + 1)%nat with false
        by (symmetry; apply Nat.eqb_neq; lia).
      rewrite Hrem, Hnf, Hidn, Hst, Hpd.
      replace (L <=? k)%nat with true by (symmetry; apply Nat.leb_le; lia).
      replace (1 <=? k)%nat with true by (symmetry; apply Nat.leb_le; lia).
      replace (k =? Z.to_nat R * L + 1)%nat with false
        by (symmetry; apply Nat.eqb_neq; lia).
      repeat split; auto.
    + apply Nat.leb_gt in HLk. change (-1 =? -1) with true. cbv iota.
      assert (HkL : k = (L - 1)%nat) by nia.
      unfold accountingAfter. cbn [aRemaining aPostDeal aNotFirst
        aIdentified aLeftOfDealer aRedStatus]. rewrite Hdiv.
      replace (L <=? S k)%nat with true by (symmetry; apply Nat.leb_le; lia).
      replace (1 <=? S k)%nat with true by (symmetry; apply Nat.leb_le; lia).
      replace (S k =? Z.to_nat R * L + 1)%nat with false
        by (symmetry; apply Nat.eqb_neq; lia).
      rewrite Hrem, Hidn, Hpd.
      replace (1 <=? k)%nat with true by (symmetry; apply Nat.leb_le; lia).
      replace (k =? Z.to_nat R * L + 1)%nat with false
        by (symmetry; apply Nat.eqb_neq; lia).
      repeat split; auto.
  - (* another player *)
    assert (Hin : In (tagAt lap k) rest) by exact (tagAt_other p1 rest k Hmid).
    assert (Hp : 2 <= tagAt lap k <= 8) by (apply Hbounds; right; exact Hin).
    assert (Hne : tagAt lap k <> p1) by (intros Heq; apply Hp1; rewrite <- Heq; exact Hin).
    rewrite (accounting_step (tagAt lap k) ins s _ _ eq_refl Hst) by lia.
    replace (tagAt lap k =? 1) with false by (symmetry; apply Z.eqb_neq; lia).
    cbv zeta. rewrite Hidn.
    assert (Hk1 : (1 <= k)%nat) by (destruct k; [rewrite Nat.Div0.mod_0_l in Hmid; lia | lia]).
    replace (1 <=? k)%nat with true by (symmetry; apply Nat.leb_le; lia).
    rewrite (Hlft Hk1).
    replace (tagAt lap k =? p1) with false by (symmetry; apply Z.eqb_neq; exact Hne).
    cbn [andb].
    assert (Hdiv : ((S k - 1) / L = (k - 1) / L)%nat).
    { replace (S k - 1)%nat with k by lia. symmetry. apply div_pred_same; lia. }
    unfold accountingAfter. cbn [aRemaining aPostDeal aNotFirst
      aIdentified aLeftOfDealer aRedStatus]. rewrite Hdiv, Hrem, Hpd, Hnf.
    replace (S k =? Z.to_nat R * L + 1)%nat with false
      by (symmetry; apply Nat.eqb_neq; lia).
    replace (k =? Z.to_nat R * L + 1)%nat with false
      by (symmetry; apply Nat.eqb_neq; lia).
    replace (L <=? S k)%nat with (L <=? k)%nat; [repeat split; auto|].
    destruct (L <=? k)%nat eqn:HLk.
    + apply Nat.leb_le in HLk. symmetry. apply Nat.leb_le. lia.
    + apply Nat.leb_gt in HLk. symmetry. apply Nat.leb_gt.
      rewrite Nat.mod_small in Hmid by lia. lia.
Qed.

Lemma dealtAfter_accounting p1 rest R s0 k s :
  let lap := p1 :: rest ++ [1] in
  let L := length lap in
  Forall (fun p => 2 <= p <= NUM_PLAYER_COLORS) (p1 :: rest) ->
  ~ In p1 rest ->
  1 <= R <= 255 ->
  dealStart R s0 ->
  dealtAfter lap s0 k s ->
  (k <= Z.to_nat R * L + 1)%nat ->
  accountingAfter p1 R L k (accounting s).
Proof.
  intros lap L Hplayers Hp1 HR (Hrem & Hpd & Hnf & Hidn & Hst) Hdealt.
  assert (HL : L = S (S (length rest))) by apply lap_length.
  induction Hdealt as [|k s s1 ins Hdealt IH Hsame]; intros Hk.
  - unfold accountingAfter, accounting.
    cbn [aRemaining aPostDeal aNotFirst aIdentified aLeftOfDealer aRedStatus].
    replace (L <=? 0)%nat with false by (symmetry; apply Nat.leb_gt; lia).
    replace (0 =? Z.to_nat R * L + 1)%nat with false
      by (symmetry; apply Nat.eqb_neq; lia).
    rewrite Hrem, Hpd, Hnf, Hidn, Hst. cbn. repeat split; try lia.
  - refine (accountingAfter_step p1 rest R k ins s1 Hplayers Hp1 HR _ _).
    + fold lap. fold L. lia.
    + rewrite Hsame. apply IH. lia.
Qed.

Lemma confirmTags_dealt lap s0 k : dealtAfter lap s0 k (confirmTags lap k s0).
Proof.
  induction k as [|k IH]; [constructor|].
  unfold confirmTags. rewrite seq_S, fold_left_app. cbn [fold_left Nat.add].
  apply (dealt_S lap s0 k _ _ [] IH). reflexivity.
Qed.

End RoundAccounting.

Lemma BaseGame_onMainDealEnd_accounting s :
  accounting (@_onMainDealEnd BaseGame s) = accounting s.
Proof.
  cbn [_onMainDealEnd BaseGame]. unfold resetScrollingMessages, onMainDealEnd.
  repeat case_if; reflexivity.
Qed.



(** ** Missing tags *)

Section MissingTags.
Context `{Frontend}.

Lemma displayOnly_intro s s' :
  s' = s <| flags2 := flags2 s' |> <| scrolling := scrolling s' |>
         <| outputs := outputs s' |> <| world := world s' |>
         <| previousDisplayState := previousDisplayState s' |>
         <| timings -> expressionStarted := expressionStarted (timings s') |>
         <| currentDealState := currentDealState s' |> ->
  displayOnly s s'.
Proof. intros Hs. unfold displayOnly. do 7 eexists. exact Hs. Qed.

Lemma displayOnly_refl s : displayOnly s s.
Proof. apply displayOnly_intro. reflexivity. Qed.

Lemma displayOnly_trans s1 s2 s3 :
  displayOnly s1 s2 -> displayOnly s2 s3 -> displayOnly s1 s3.
Proof.
  intros (f2 & sc & out & w & pd & es & d & ->)
         (f2' & sc' & out' & w' & pd' & es' & d' & ->).
  apply displayOnly_intro. reflexivity.
Qed.

Lemma displayOnly_updateScrollText s : displayOnly s (updateScrollText s).
Proof.
  destruct (updateScrollText_frame s) as (f2 & sc & out & ->).
  apply displayOnly_intro. reflexivity.
Qed.

Lemma displayOnly_updateDisplay s :
  isFace (currentDisplayState s) = true -> displayOnly s (updateDisplay s).
Proof.
  intros Hf. destruct (updateDisplay_face s Hf) as (f2 & sc & out & pd & es & ->).
  apply displayOnly_intro. reflexivity.
Qed.

Lemma displayOnly_face s s' :
  displayOnly s s' -> currentDisplayState s' = currentDisplayState s.
Proof. intros (f2 & sc & out & w & pd & es & d & ->). reflexivity. Qed.

Lemma displayOnly_flags4 s s' : displayOnly s s' -> flags4 s' = flags4 s.
Proof. intros (f2 & sc & out & w & pd & es & d & ->). reflexivity. Qed.

Lemma displayOnly_scrollUntilRepeated ins : forall s,
  displayOnly s (finalState (scrollUntilRepeated ins s)).
Proof.
  induction ins as [|rd ins IH]; intros s; cbn [scrollUntilRepeated].
  - case_if; apply displayOnly_refl.
  - case_if; [|apply displayOnly_refl].
    eapply displayOnly_trans; [|apply IH].
    eapply displayOnly_trans; [|case_if; [|apply displayOnly_refl]].
    + eapply displayOnly_trans; [|apply displayOnly_updateScrollText].
      apply displayOnly_intro. reflexivity.
    + apply displayOnly_intro. reflexivity.
Qed.

Lemma displayOnly_displayErrorMessage text ins s :
  isFace (currentDisplayState s) = true ->
  displayOnly s (finalState (displayErrorMessage text ins s)).
Proof.
  intros Hf. unfold displayErrorMessage. cbv zeta.
  set (s1 := if negb (scrollingStarted (flags2 s)) then _ else s).
  assert (H1 : displayOnly s s1).
  { subst s1. case_if; [|apply displayOnly_refl].
    apply displayOnly_intro. reflexivity. }
  clearbody s1.
  pose proof (displayOnly_scrollUntilRepeated ins s1) as H2.
  unfold bind. destruct (scrollUntilRepeated ins s1) as [u rest s2|s2];
    cbn [finalState] in *.
  - eapply displayOnly_trans; [exact H1|]. eapply displayOnly_trans; [exact H2|].
    eapply displayOnly_trans; [|apply displayOnly_updateDisplay].
    + apply displayOnly_intro. reflexivity.
    + change (isFace (currentDisplayState s2) = true).
      rewrite (displayOnly_face _ _ H2), (displayOnly_face _ _ H1). exact Hf.
  - eapply displayOnly_trans; eassumption.
Qed.

Lemma displayOnly_showError text rounds : forall ins s,
  isFace (currentDisplayState s) = true ->
  displayOnly s (finalState (showError rounds text ins s)).
Proof.
  induction rounds as [|rounds IH]; intros ins s Hf; cbn [showError].
  - case_if; apply displayOnly_refl.
  - case_if; [|apply displayOnly_refl].
    pose proof (displayOnly_displayErrorMessage text ins s Hf) as H1.
    unfold bind. destruct (displayErrorMessage text ins s) as [u rest s1|s1];
      cbn [finalState] in *; [|exact H1].
    eapply displayOnly_trans; [exact H1|]. apply IH.
    rewrite (displayOnly_face _ _ H1). exact Hf.
Qed.

(** *** The message scrolls by *)

Lemma scrollUntilRepeated_done ins s :
  scrollingComplete (flags2 s) = true -> scrollUntilRepeated ins s = Done tt ins s.
Proof. intros Hc. destruct ins; cbn [scrollUntilRepeated]; rewrite Hc; reflexivity. Qed.

Lemma framesFrom_cons text i :
  i < strlen text - 3 ->
  framesFrom text i = OutScroll (window i text) :: framesFrom text (i + 1).
Proof.
  intros Hi. unfold framesFrom.
  replace (Z.to_nat (strlen text - 3 - i)) with (S (Z.to_nat (strlen text - 3 - (i + 1))))
    by lia.
  cbn [seq map app]. rewrite Z.add_0_r. f_equal. f_equal.
  rewrite <- seq_shift, map_map. apply map_ext. intros j. do 2 f_equal. lia.
Qed.

Lemma elapsed_spaced gap t t' : 0 <= gap -> gap <= t' - t < 2 ^ 32 -> elapsed t' t = t' - t.
Proof. intros Hg Ht. unfold elapsed, wrap32. apply Z.mod_small. lia. Qed.

Lemma scrollUntilRepeated_frames text gap : forall n ins s i,
  0 <= gap -> 0 <= i ->
  Z.of_nat n = strlen text - 3 - i ->
  scrollingAt text gap i s ->
  spacedFrom gap (now (world s)) ins ->
  (S n <= length ins)%nat ->
  exists s',
    scrollUntilRepeated ins s = Done tt (drop (S n) ins) s'
    /\ outputs s' = outputs s ++ framesFrom text i
    /\ scrollingComplete (flags2 s') = true
    /\ messageRepetitions (scrolling s') = 1.
Proof.
  induction n as [|n IH];
    intros ins s i Hgap Hi Hn (Hscr & Hc & Hrep & Hmsg & Hidx & Hlast & Hd & Hh & Hsp)
      Hspaced Hlen;
    (destruct ins as [|rd ins]; [cbn [length] in Hlen; lia|]);
    destruct Hspaced as [Hrd Hspaced];
    cbn [scrollUntilRepeated]; rewrite Hc; cbn [negb];
    unfold updateScrollText;
    change (currentDisplayState (observe rd s)) with (currentDisplayState s);
    rewrite Hscr; cbv zeta;
    change (scrolling (observe rd s)) with (scrolling s);
    change (now (world (observe rd s))) with (now rd);
    rewrite Hlast, (elapsed_spaced gap _ _ Hgap Hrd);
    (replace (scrollDelayTime (scrolling s) <=? now rd - now (world s)) with true
       by (symmetry; apply Z.leb_le; lia));
    rewrite Hidx;
    (replace (i =? -1) with false by (symmetry; apply Z.eqb_neq; lia));
    rewrite Hmsg.
  - replace (i <? strlen text - 3) with false by (symmetry; apply Z.ltb_ge; lia).
    rewrite Hrep. change (wrap8 (0 + 1)) with 1.
    assert (Hfr : framesFrom text i = [OutScroll (window (strlen text - 4) text)]).
    { unfold framesFrom. replace (Z.to_nat (strlen text - 3 - i)) with 0%nat by lia.
      reflexivity. }
    rewrite Hfr.
    match goal with |- context [if 3 <? ?m then _ else _] => destruct (3 <? m) end;
      rsimpl; change (0 <? 1) with true; cbv iota;
      (eexists; split; [rewrite scrollUntilRepeated_done; reflexivity|]);
      rsimpl; repeat split; reflexivity.
  - replace (i <? strlen text - 3) with true by (symmetry; apply Z.ltb_lt; lia).
    match goal with |- context [scrollUntilRepeated ins ?t] => set (s1 := t) end.
    assert (Hs1 : s1 = (emit (OutScroll (window i text)) (observe rd s))
                         <| scrolling -> lastScrollTime := now rd |>
                         <| scrolling -> scrollDelayTime := textSpeedInterval (scrolling s) |>
                         <| scrolling -> scrollIndex := i + 1 |>).
    { subst s1. rsimpl. rewrite Hrep. change (0 <? 0) with false. reflexivity. }
    clearbody s1. subst s1.
    match goal with |- context [scrollUntilRepeated ins ?t] =>
      destruct (IH ins t (i + 1) Hgap ltac:(lia) ltac:(lia)) as (s' & Hrun & Hout & Hc' & Hrep')
    end.
    + unfold scrollingAt. rsimpl. repeat split; auto.
    + exact Hspaced.
    + cbn [length] in Hlen. lia.
    + exists s'. split; [exact Hrun|]. split; [|split; assumption].
      rewrite Hout, (framesFrom_cons text i) by lia. rsimpl. rewrite <- app_assoc. reflexivity.
Qed.

Lemma scrollUntilRepeated_message text gap ins s :
  0 <= gap -> 3 <= strlen text ->
  scrollingAt text gap (-1) s ->
  spacedFrom gap (now (world s)) ins ->
  (Z.to_nat (strlen text - 1) <= length ins)%nat ->
  exists s',
    scrollUntilRepeated ins s = Done tt (drop (Z.to_nat (strlen text - 1)) ins) s'
    /\ outputs s' = outputs s ++ scrollFrames text
    /\ scrollingComplete (flags2 s') = true
    /\ messageRepetitions (scrolling s') = 1.
Proof.
  intros Hgap Hlen3 (Hscr & Hc & Hrep & Hmsg & Hidx & Hlast & Hd & Hh & Hsp) Hspaced Hlen.
  replace (Z.to_nat (strlen text - 1)) with (S (S (Z.to_nat (strlen text - 3)))) in * by lia.
  destruct ins as [|rd ins]; [cbn [length] in Hlen; lia|].
  destruct Hspaced as [Hrd Hspaced].
  cbn [scrollUntilRepeated drop]. rewrite Hc. cbn [negb].
  unfold updateScrollText.
  change (currentDisplayState (observe rd s)) with (currentDisplayState s).
  rewrite Hscr. cbv zeta.
  change (scrolling (observe rd s)) with (scrolling s).
  change (now (world (observe rd s))) with (now rd).
  rewrite Hlast, (elapsed_spaced gap _ _ Hgap Hrd).
  replace (scrollDelayTime (scrolling s) <=? now rd - now (world s)) with true
    by (symmetry; apply Z.leb_le; lia).
  rewrite Hidx, Hmsg. change (-1 =? -1) with true. cbv iota.
  match goal with |- context [scrollUntilRepeated ins ?t] => set (s1 := t) end.
  assert (Hs1 : s1 = (emit (OutScroll (window 0 text)) (observe rd s))
                       <| scrolling -> lastScrollTime := now rd |>
                       <| scrolling -> scrollDelayTime := textStartHoldTime (scrolling s) |>
                       <| scrolling -> scrollIndex := 0 |>).
  { subst s1. rsimpl. rewrite Hrep. change (0 <? 0) with false. reflexivity. }
  clearbody s1. subst s1.
  match goal with |- context [scrollUntilRepeated ins ?t] =>
    destruct (scrollUntilRepeated_frames text gap (Z.to_nat (strlen text - 3)) ins t 0
                Hgap ltac:(lia) ltac:(lia))
      as (s' & Hrun & Hout & Hc' & Hrep')
  end.
  - unfold scrollingAt. rsimpl. repeat split; auto.
  - exact Hspaced.
  - cbn [length] in Hlen. lia.
  - exists s'. split; [exact Hrun|]. split; [|split; assumption].
    rewrite Hout. unfold scrollFrames. rsimpl. rewrite <- app_assoc. reflexivity.
Qed.

Lemma scrollUntilRepeated_frame ins : forall s,
  exists f2 sc out w,
    finalState (scrollUntilRepeated ins s)
    = s <| flags2 := f2 |> <| scrolling := sc |> <| outputs := out |> <| world := w |>.
Proof.
  induction ins as [|rd ins IH]; intros s; cbn [scrollUntilRepeated].
  - exists (flags2 s), (scrolling s), (outputs s), (world s). case_if; reflexivity.
  - case_if; [|exists (flags2 s), (scrolling s), (outputs s), (world s); reflexivity].
    match goal with |- context [scrollUntilRepeated ins ?t] =>
      destruct (IH t) as (f2 & sc & out & w & ->) end.
    destruct (updateScrollText_frame (observe rd s)) as (f2' & sc' & out' & ->).
    case_if; do 4 eexists; reflexivity.
Qed.

Lemma displayState_eqb_refl d : displayState_eqb d d = true.
Proof. unfold displayState_eqb. apply Z.eqb_refl. Qed.

Lemma updateScrollText_keeps s :
  scrollingComplete (flags2 (updateScrollText s)) = scrollingComplete (flags2 s)
  /\ exists extra, outputs (updateScrollText s) = outputs s ++ extra.
Proof.
  unfold updateScrollText. cbv zeta.
  repeat case_if; rsimpl; (split; [reflexivity|]);
    first [ exists []; rewrite app_nil_r; reflexivity | eexists; reflexivity ].
Qed.

Lemma updateDisplay_synced s :
  previousDisplayState s = currentDisplayState s ->
  isFace (currentDisplayState s) = true ->
  scrollingComplete (flags2 (updateDisplay s)) = scrollingComplete (flags2 s)
  /\ exists extra, outputs (updateDisplay s) = outputs s ++ extra.
Proof.
  intros Hsync Hf. unfold updateDisplay. cbv zeta.
  rewrite Hsync, displayState_eqb_refl. cbn [negb].
  match goal with |- context [if _ then updateScrollText ?t else _] => set (s2 := t) end.
  assert (H2 : scrollingComplete (flags2 s2) = scrollingComplete (flags2 s)
               /\ exists extra, outputs s2 = outputs s ++ extra).
  { subst s2. destruct (currentDisplayState s); try discriminate Hf;
      (split; [reflexivity|]);
      first [ exists []; rewrite app_nil_r; reflexivity | eexists; reflexivity ]. }
  clearbody s2. destruct H2 as (Hc2 & extra2 & Ho2).
  case_if.
  - destruct (updateScrollText_keeps s2) as (Hc3 & extra3 & Ho3).
    rewrite Hc3, Ho3, Ho2, Hc2. split; [reflexivity|].
    exists (extra2 ++ extra3). rewrite app_assoc. reflexivity.
  - split; [exact Hc2 | exists extra2; exact Ho2].
Qed.

Lemma isFace_not_screensaver d :
  isFace d = true -> displayState_eqb d SCREENSAVER = false.
Proof. destruct d; intros Hf; try discriminate Hf; reflexivity. Qed.

Lemma displayErrorMessage_shows text gap ins s :
  0 <= gap -> 3 <= strlen text ->
  isFace (currentDisplayState s) = true ->
  displayIdle s ->
  scrollDelayTime (scrolling s) <= gap -> 1000 <= gap ->
  textSpeedInterval (scrolling s) <= gap ->
  spacedFrom gap (now (world s)) ins ->
  (Z.to_nat (strlen text - 1) <= length ins)%nat ->
  exists s' extra,
    displayErrorMessage text ins s = Done tt (drop (Z.to_nat (strlen text - 1)) ins) s'
    /\ outputs s' = outputs s ++ scrollFrames text ++ extra
    /\ scrollingComplete (flags2 s') = true.
Proof.
  intros Hgap Hlen3 Hf (Hsync & Hstarted & Hc & Hrep) Hd Hh Hsp Hspaced Hlen.
  unfold displayErrorMessage. cbv zeta. rewrite Hstarted. cbn [negb].
  match goal with |- context [scrollUntilRepeated ins ?t] => set (s0 := t) end.
  destruct (scrollUntilRepeated_message text gap ins s0 Hgap Hlen3)
    as (s1 & Hrun & Hout & Hc1 & _).
  - subst s0. unfold scrollingAt, startScrollText. rsimpl.
    repeat split; auto. apply isFace_not_screensaver. exact Hf.
  - exact Hspaced.
  - exact Hlen.
  - destruct (scrollUntilRepeated_frame ins s0) as (f2 & sc & out & w & Hfr).
    rewrite Hrun in *. cbn [finalState bind] in *.
    match goal with |- context [updateDisplay ?t] =>
      destruct (updateDisplay_synced t) as (Hc2 & extra & Ho2)
    end.
    + rewrite Hfr. subst s0. exact Hsync.
    + rewrite Hfr. subst s0. exact Hf.
    + eexists. exists extra. split; [reflexivity|]. split.
      * rewrite Ho2. change (outputs (s1 <| currentDealState := RESET_DEALR |>))
          with (outputs s1). rewrite Hout. subst s0. rewrite <- app_assoc. reflexivity.
      * rewrite Hc2. exact Hc1.
Qed.

Lemma showError_done rounds text ins s :
  scrollingComplete (flags2 s) = true -> showError rounds text ins s = Done tt ins s.
Proof. intros Hc. destruct rounds; cbn [showError]; rewrite Hc; reflexivity. Qed.

End MissingTags.



(** ** Motion: stopping before reversing *)

Section Motion.
Context `{Frontend}.

Lemma updateScrollText_appends s :
  exists extra,
    outputs (updateScrollText s) = outputs s ++ extra
    /\ Forall (fun o => reverses o = false) extra.
Proof.
  unfold updateScrollText. cbv zeta.
  repeat case_if; rsimpl;
    first [ exists []; rewrite app_nil_r; split; [reflexivity | constructor]
          | eexists; split; [reflexivity | repeat constructor] ].
Qed.

Lemma updateDisplay_face_appends s :
  isFace (currentDisplayState s) = true ->
  exists extra,
    outputs (updateDisplay s) = outputs s ++ extra
    /\ Forall (fun o => reverses o = false) extra.
Proof.
  intros Hf. unfold updateDisplay. cbv zeta.
  set (s1 := if negb (displayState_eqb _ _) then _ else s).
  assert (H1 : outputs s1 = outputs s /\ currentDisplayState s1 = currentDisplayState s)
    by (subst s1; case_if; split; reflexivity).
  clearbody s1. destruct H1 as [Ho1 Hd1]. rewrite <- Hd1 in Hf. rewrite <- Ho1. clear Ho1 Hd1.
  match goal with |- context [if _ then updateScrollText ?t else _] => set (s2 := t) end.
  assert (H2 : exists extra, outputs s2 = outputs s1 ++ extra
                             /\ Forall (fun o => reverses o = false) extra).
  { subst s2. destruct (currentDisplayState s1); try discriminate Hf;
      first [ exists []; rewrite app_nil_r; split; [reflexivity | constructor]
            | eexists; split; [reflexivity | repeat constructor] ]. }
  clearbody s2. destruct H2 as (extra2 & Ho2 & Hs2).
  case_if.
  - destruct (updateScrollText_appends s2) as (extra3 & Ho3 & Hs3).
    exists (extra2 ++ extra3). rewrite Ho3, Ho2, app_assoc. split; [reflexivity|].
    apply Forall_app; split; assumption.
  - exists extra2. split; assumption.
Qed.

(** [rotate] logs the direction flags as it finds them. *)
Lemma rotate_appends speed direction s :
  exists extra,
    outputs (rotate speed direction s)
    = outputs s
      ++ OutRotate speed direction (rotatingCW (flags1 s)) (rotatingCCW (flags1 s))
      :: extra
    /\ Forall (fun o => reverses o = false) extra.
Proof.
  unfold rotate. cbv zeta.
  destruct direction;
    match goal with |- context [updateDisplay ?t] =>
      destruct (updateDisplay_face_appends t eq_refl) as (extra & -> & Hs)
    end;
    exists extra; rsimpl; rewrite <- app_assoc; split; [reflexivity | exact Hs | reflexivity | exact Hs].
Qed.

Lemma rotateStop_clears s :
  motionFlagsConsistent s ->
  rotatingCW (flags1 (rotateStop s)) = false
  /\ rotatingCCW (flags1 (rotateStop s)) = false
  /\ exists extra, outputs (rotateStop s) = outputs s ++ extra
                   /\ Forall (fun o => reverses o = false) extra.
Proof.
  intros Hc. unfold rotateStop. destruct (stopped s) eqn:Hst; cbn [negb].
  - destruct (Hc Hst) as [-> ->]. repeat split.
    exists []. rewrite app_nil_r. split; [reflexivity | constructor].
  - repeat split. eexists. split; [reflexivity | repeat constructor].
Qed.

(** The correction of the fine adjustment reverses the rotation only after
    having stopped it: none of the commands it issues is a reversal. *)
Lemma handleRotationAdjustments_stops_first s :
  motionFlagsConsistent s ->
  exists extra,
    outputs (handleRotationAdjustments s) = outputs s ++ extra
    /\ Forall (fun o => reverses o = false) extra.
Proof.
  intros Hc. unfold handleRotationAdjustments. cbv zeta.
  destruct (rotateStop_clears s Hc) as (Hcw & Hccw & extra1 & Ho1 & Hs1).
  repeat case_if.
  - match goal with |- context [rotate ?sp ?d ?t] =>
      destruct (rotate_appends sp d t) as (extra2 & -> & Hs2) end.
    rsimpl. rewrite Ho1, <- app_assoc. eexists. split; [reflexivity|].
    apply Forall_app. split; [exact Hs1|]. constructor; [|exact Hs2].
    cbn [reverses CCW]. exact Hcw.
  - match goal with |- context [rotate ?sp ?d ?t] =>
      destruct (rotate_appends sp d t) as (extra2 & -> & Hs2) end.
    rsimpl. rewrite Ho1, <- app_assoc. eexists. split; [reflexivity|].
    apply Forall_app. split; [exact Hs1|]. constructor; [|exact Hs2].
    cbn [reverses CW]. exact Hccw.
  - exists []. rewrite app_nil_r. split; [reflexivity | constructor].
Qed.

End Motion.
(** ** Persistent storage *)

Section Storage.

Lemma sizes_unfold :
  sizeof_RGBColor = 8 /\ TOTAL_COLORS = 9 /\ UV_THRESHOLD_ADDR = 74
  /\ EEPROM_VERSION_ADDR = 0.
Proof. repeat split. Qed.

(** What the three writes of [resetEEPROMToDefaults], which are those of
    [initializeEEPROM] on a version mismatch, leave in the EEPROM. *)
Lemma defaults_written s :
  let s' := EEPROM_write EEPROM_VERSION_ADDR EEPROM_VERSION
              (EEPROM_putU16 UV_THRESHOLD_ADDR defaultUVThreshold
                 (writeDefaultColors 0 defaultColors s)) in
  (forall i, (i < Z.to_nat TOTAL_COLORS)%nat ->
     readColorFromEEPROM (Z.of_nat i) s' = defaultColors !!! i)
  /\ loadStoredUVValueFromEEPROM s' = defaultUVThreshold
  /\ EEPROM_read EEPROM_VERSION_ADDR s' = EEPROM_VERSION.
Proof.
  cbv zeta.
  assert (Hrange : Forall colorInRange defaultColors)
    by (repeat constructor; cbn; lia).
  repeat split.
  - intros i Hi. change (Z.to_nat TOTAL_COLORS) with 9%nat in Hi.
    assert (Hl : defaultColors !! i = Some (defaultColors !!! i)).
    { apply list_lookup_lookup_total_lt. exact Hi. }
    transitivity (readColorFromEEPROM (0 + Z.of_nat i)
                    (writeDefaultColors 0 defaultColors s));
      [| exact (writeDefaultColors_read defaultColors 0 s i _ Hrange Hl)].
    unfold EEPROM_write, EEPROM_putU16, readColorFromEEPROM.
    do 2 (rewrite EEPROM_getColor_writeBytes_out
      by (unfold UV_THRESHOLD_ADDR, EEPROM_VERSION_ADDR, sizeof_RGBColor,
            TOTAL_COLORS, NUM_PLAYER_COLORS, bytesOfU16; cbn [length]; lia)).
    reflexivity.
  - unfold loadStoredUVValueFromEEPROM, EEPROM_write.
    rewrite EEPROM_getU16_writeBytes_out
      by (unfold UV_THRESHOLD_ADDR, EEPROM_VERSION_ADDR, sizeof_RGBColor,
            TOTAL_COLORS, NUM_PLAYER_COLORS; cbn [length]; lia).
    apply EEPROM_getU16_putU16. unfold defaultUVThreshold. lia.
  - unfold EEPROM_write.
    replace EEPROM_VERSION_ADDR with (EEPROM_VERSION_ADDR + Z.of_nat 0) at 1 by reflexivity.
    apply EEPROM_read_writeBytes_in. reflexivity.
Qed.

End Storage.



(** X2.  Whatever the EEPROM held, after [resetEEPROMToDefaults] the table
    that [loadColorsFromEEPROM] loads is [defaultColors], the stored UV
    threshold is the default one, and the version byte is valid, so that
    [initializeEEPROM] finds nothing to do. *)
Theorem resetEEPROMToDefaults_restores s :
  let s' := resetEEPROMToDefaults s in
  colors (colours (loadColorsFromEEPROM s')) = defaultColors
  /\ loadStoredUVValueFromEEPROM s' = defaultUVThreshold
  /\ initializeEEPROM s' = s'.
Proof.
  cbv zeta. unfold resetEEPROMToDefaults. cbv zeta.
  destruct (defaults_written s) as (Hcol & Huv & Hver).
  split; [|split].
  - unfold loadColorsFromEEPROM. rsimpl.
    change (Z.to_nat TOTAL_COLORS) with 9%nat. cbn [seq map].
    rewrite !Hcol by (change (Z.to_nat TOTAL_COLORS) with 9%nat; lia).
    reflexivity.
  - exact Huv.
  - unfold initializeEEPROM. rewrite Hver. reflexivity.
Qed.

(** X3.  [calculateBlackBaseline] reads the brightness of the bare surface
    from the EEPROM once: the first call returns the [avgC] stored for
    index 0, and a later call returns the value of the first one even
    after a new entry for index 0 has been written. *)
Theorem calculateBlackBaseline_read_once s c :
  let first := calculateBlackBaseline s in
  (isCalculated (statics s) = false ->
   fst first = avgC (readColorFromEEPROM 0 s))
  /\ fst (calculateBlackBaseline (writeColorToEEPROM 0 c (snd first))) = fst first.
Proof.
  cbv zeta. unfold calculateBlackBaseline, getBlackColorFromEEPROM. split.
  - intros ->. reflexivity.
  - destruct (isCalculated (statics s)) eqn:Hcalc; cbn [negb fst snd];
      unfold writeColorToEEPROM, EEPROM_putColor, EEPROM_writeBytes, emit; rsimpl;
      try rewrite Hcalc; reflexivity.
Qed.

Lemma calculateBlackBaseline_read_once_witness :
  fst (calculateBlackBaseline (resetEEPROMToDefaults factory)) = 118.
Proof.
  rewrite (proj1 (calculateBlackBaseline_read_once (resetEEPROMToDefaults factory) noColor));
    reflexivity.
Defined.

(** ** Motion *)

Section MotionFrames.
Context `{Frontend}.

Lemma updateScrollText_draws s :
  exists extra,
    outputs (updateScrollText s) = outputs s ++ extra
    /\ Forall (fun o => isDisplayOutput o = true) extra.
Proof.
  unfold updateScrollText. cbv zeta.
  repeat case_if; rsimpl;
    first [ exists []; rewrite app_nil_r; split; [reflexivity | constructor]
          | eexists; split; [reflexivity | repeat constructor] ].
Qed.

Lemma updateDisplay_face_draws s :
  isFace (currentDisplayState s) = true ->
  exists extra,
    outputs (updateDisplay s) = outputs s ++ extra
    /\ Forall (fun o => isDisplayOutput o = true) extra.
Proof.
  intros Hf. unfold updateDisplay. cbv zeta.
  set (s1 := if negb (displayState_eqb _ _) then _ else s).
  assert (H1 : outputs s1 = outputs s /\ currentDisplayState s1 = currentDisplayState s)
    by (subst s1; case_if; split; reflexivity).
  clearbody s1. destruct H1 as [Ho1 Hd1]. rewrite <- Hd1 in Hf. rewrite <- Ho1. clear Ho1 Hd1.
  match goal with |- context [if _ then updateScrollText ?t else _] => set (s2 := t) end.
  assert (H2 : exists extra, outputs s2 = outputs s1 ++ extra
                             /\ Forall (fun o => isDisplayOutput o = true) extra).
  { subst s2. destruct (currentDisplayState s1); try discriminate Hf;
      first [ exists []; rewrite app_nil_r; split; [reflexivity | constructor]
            | eexists; split; [reflexivity | repeat constructor] ]. }
  clearbody s2. destruct H2 as (extra2 & Ho2 & Hs2).
  case_if.
  - destruct (updateScrollText_draws s2) as (extra3 & Ho3 & Hs3).
    exists (extra2 ++ extra3). rewrite Ho3, Ho2, app_assoc. split; [reflexivity|].
    apply Forall_app; split; assumption.
  - exists extra2. split; assumption.
Qed.

(** [rotate] sets the direction flags, selects the face that looks the
    way of the rotation, and logs its command before it draws. *)
Lemma rotate_frame speed direction s :
  exists f2 sc extra pd es,
    rotate speed direction s
    = s <| flags1 -> rotatingCW := direction |>
        <| flags1 -> rotatingCCW := negb direction |>
        <| stopped := false |>
        <| currentDisplayState := if direction then LOOK_LEFT else LOOK_RIGHT |>
        <| flags2 := f2 |> <| scrolling := sc |>
        <| outputs := outputs s
                      ++ OutRotate speed direction
                           (rotatingCW (flags1 s)) (rotatingCCW (flags1 s)) :: extra |>
        <| previousDisplayState := pd |> <| timings -> expressionStarted := es |>
    /\ Forall (fun o => isDisplayOutput o = true) extra.
Proof.
  unfold rotate. cbv zeta.
  destruct direction;
    match goal with |- context [updateDisplay ?t] =>
      destruct (updateDisplay_face t eq_refl) as (f2 & sc & out & pd & es & Heq);
      destruct (updateDisplay_face_draws t eq_refl) as (extra & Hout & Hd);
      rewrite Heq in Hout; rewrite Heq;
      change (out = outputs t ++ extra) in Hout
    end;
    unfold emit in Hout; revert Hout; rsimpl; rewrite <- app_assoc; cbn [app];
    intros ->; exists f2, sc, extra, pd, es; (split; [reflexivity | exact Hd]).
Qed.

Lemma colorRead_frame bl s :
  exists col st f2,
    colorRead bl s = s <| colours := col |> <| statics := st |> <| flags2 := f2 |>.
Proof.
  unfold colorRead. cbv zeta.
  match goal with |- context [checkForColorSpike ?c ?b ?t] =>
    destruct (checkForColorSpike_frame c b t) as [v ->]
  end. rsimpl.
  match goal with |- context [closestColorOf ?a ?b ?c] =>
    generalize (closestColorOf a b c); intros cc
  end.
  generalize (sumOfChannels (sample (world s))); intros total.
  destruct (isStableBuffer _ _); rsimpl;
    destruct (debounceCount <=? _); do 3 eexists; reflexivity.
Qed.

Lemma colorScan_frame s :
  exists col st f2,
    colorScan s = s <| colours := col |> <| statics := st |> <| flags2 := f2 |>.
Proof.
  unfold colorScan, calculateBlackBaseline. cbv zeta.
  destruct (negb (isCalculated (statics s)));
    match goal with |- context [colorRead ?bl ?t] =>
      destruct (colorRead_frame bl t) as (col & st & f2 & ->)
    end; do 3 eexists; reflexivity.
Qed.

End MotionFrames.

Section Moves.
Context `{Frontend}.

Lemma turnsOnly_draws speed direction extra :
  Forall (fun o => isDisplayOutput o = true) extra ->
  Forall (turnsOnly speed direction) extra.
Proof.
  intros Hd. eapply List.Forall_impl; [|exact Hd].
  intros [] Ho; try discriminate Ho; exact I.
Qed.

Lemma sameDeal_refl s : sameDeal s s.
Proof. repeat split. Qed.

Lemma sameDeal_trans s1 s2 s3 : sameDeal s1 s2 -> sameDeal s2 s3 -> sameDeal s1 s3.
Proof.
  intros (A1 & A2 & A3 & A4 & A5 & A6) (B1 & B2 & B3 & B4 & B5 & B6).
  repeat split; congruence.
Qed.

Lemma rotateStop_run speed direction s :
  motionFlagsConsistent s ->
  let s' := rotateStop s in
  atRest s' /\ sameDeal s s' /\ colours s' = colours s
  /\ exists extra,
       outputs s' = outputs s ++ extra
       /\ Forall (turnsOnly speed direction) extra.
Proof.
  intros Hc. cbv zeta. unfold rotateStop, atRest. destruct (stopped s) eqn:Hst; cbn [negb].
  - destruct (Hc Hst) as [Hcw Hccw]. repeat split; try assumption.
    exists []. rewrite app_nil_r. split; [reflexivity | constructor].
  - repeat split. eexists. split; [reflexivity | repeat constructor].
Qed.

(** One round of a loop that scans the colour and turns. *)
Lemma turn_run speed direction s :
  let s' := rotate speed direction s in
  motionFlagsConsistent s' /\ sameDeal s s' /\ colours s' = colours s
  /\ exists extra,
       outputs s' = outputs s ++ extra
       /\ Forall (turnsOnly speed direction) extra.
Proof.
  cbv zeta.
  destruct (rotate_frame speed direction s) as (f2' & sc & extra & pd & es & -> & Hd).
  split; [|split; [|split]].
  - intros Hst. discriminate Hst.
  - repeat split.
  - reflexivity.
  - eexists. split; [reflexivity|].
    constructor; [split; reflexivity|]. apply turnsOnly_draws, Hd.
Qed.

Lemma scan_run rd s :
  let s' := colorScan (observe rd s) in
  flags1 s' = flags1 s /\ stopped s' = stopped s /\ sameDeal s s'
  /\ outputs s' = outputs s.
Proof.
  cbv zeta. destruct (colorScan_frame (observe rd s)) as (col & st & f2 & ->).
  repeat split.
Qed.

Lemma scan_consistent rd s :
  motionFlagsConsistent s -> motionFlagsConsistent (colorScan (observe rd s)).
Proof.
  destruct (scan_run rd s) as (Hf & Hs & _). unfold motionFlagsConsistent.
  rewrite Hf, Hs. trivial.
Qed.

Lemma moveResult_step speed direction s s1 o post :
  sameDeal s s1 ->
  (exists extra,
     outputs s1 = outputs s ++ extra /\ Forall (turnsOnly speed direction) extra) ->
  moveResult speed direction s1 o post ->
  moveResult speed direction s o post.
Proof.
  intros Hsame (extra1 & Ho1 & Ht1) ((extra2 & Ho2 & Ht2) & Hsame2 & Hc & Hpost).
  split; [|split; [|split]].
  - exists (extra1 ++ extra2). rewrite Ho2, Ho1, app_assoc.
    split; [reflexivity | apply Forall_app; split; assumption].
  - eapply sameDeal_trans; eassumption.
  - exact Hc.
  - exact Hpost.
Qed.

Lemma moveResult_stop speed direction ins s (post : Dealer -> Prop) :
  motionFlagsConsistent s ->
  (forall s', atRest s' -> sameDeal s s' -> colours s' = colours s -> post s') ->
  moveResult speed direction s (Done tt ins (rotateStop s)) post.
Proof.
  intros Hc Hpost.
  destruct (rotateStop_run speed direction s Hc) as (Hrest & Hsame & Hcol & Hout).
  split; [exact Hout|]. split; [exact Hsame|]. split.
  - intros _. cbn [finalState]. destruct Hrest as (_ & Hcw & Hccw). split; assumption.
  - intros rest s' [= _ <-]. apply Hpost; assumption.
Qed.

Lemma moveResult_here speed direction s (o : Outcome unit) (post : Dealer -> Prop) :
  motionFlagsConsistent s ->
  finalState o = s ->
  (forall rest s', o = Done tt rest s' -> post s') ->
  moveResult speed direction s o post.
Proof.
  intros Hc Hfin Hpost. rewrite <- Hfin in Hc.
  split; [|split; [|split]]; try assumption.
  - exists []. rewrite app_nil_r, Hfin. split; [reflexivity | constructor].
  - rewrite Hfin. apply sameDeal_refl.
Qed.

Lemma moveOffActiveColor_run direction ins : forall s,
  motionFlagsConsistent s ->
  moveResult lowSpeed direction s (moveOffActiveColor direction ins s)
    (fun s' => errorInProgress (flags4 s) = false ->
               activeColor (colours s') = 0 /\ atRest s').
Proof.
  induction ins as [|rd ins IH]; intros s Hc; cbn [moveOffActiveColor];
    (destruct (activeColor (colours s) =? 0) eqn:Hac; cbn [negb];
     [ apply moveResult_stop; [exact Hc|];
       intros s' Hrest _ Hcol _; rewrite Hcol; apply Z.eqb_eq in Hac; split; assumption
     | destruct (errorInProgress (flags4 s)) eqn:Herr;
       [ apply moveResult_here; [exact Hc | reflexivity | intros; discriminate] | ] ]).
  - apply moveResult_here; [exact Hc | reflexivity | intros; discriminate].
  - assert (Hbody :
      (if direction then rotate lowSpeed CW (colorScan (observe rd s))
       else rotate lowSpeed CCW (colorScan (observe rd s)))
      = rotate lowSpeed direction (colorScan (observe rd s)))
      by (destruct direction; reflexivity).
    rewrite Hbody.
    destruct (scan_run rd s) as (_ & _ & Hsame1 & Hout1).
    destruct (turn_run lowSpeed direction (colorScan (observe rd s)))
      as (Hc2 & Hsame2 & _ & extra & Hout2 & Ht2).
    eapply moveResult_step;
      [ eapply sameDeal_trans; eassumption
      | exists extra; rewrite Hout2, Hout1; split; [reflexivity | exact Ht2]
      | ].
    pose proof (IH _ Hc2) as Hrec.
    assert (He : errorInProgress (flags4 (rotate lowSpeed direction (colorScan (observe rd s))))
                 = false).
    { destruct Hsame1 as (_ & _ & E1 & _). destruct Hsame2 as (_ & _ & E2 & _).
      rewrite E2, E1. exact Herr. }
    destruct Hrec as (A & B & C & D). split; [exact A|]. split; [exact B|]. split; [exact C|].
    intros rest s' Hrun _. apply (D _ _ Hrun He).
Qed.

Lemma returnToActiveColor_run direction ins : forall s,
  motionFlagsConsistent s ->
  moveResult lowSpeed direction s (returnToActiveColor direction ins s)
    (fun s' => errorInProgress (flags4 s) = false ->
               activeColor (colours s') <> 0 /\ atRest s').
Proof.
  induction ins as [|rd ins IH]; intros s Hc; cbn [returnToActiveColor];
    (destruct (activeColor (colours s) =? 0) eqn:Hac;
     [ destruct (errorInProgress (flags4 s)) eqn:Herr;
       [ apply moveResult_here; [exact Hc | reflexivity | intros; discriminate] | ]
     | apply moveResult_stop; [exact Hc|];
       intros s' Hrest _ Hcol _; rewrite Hcol; apply Z.eqb_neq in Hac; split; assumption ]).
  - apply moveResult_here; [exact Hc | reflexivity | intros; discriminate].
  - assert (Hbody :
      (if direction then rotate lowSpeed CW (colorScan (observe rd s))
       else rotate lowSpeed CCW (colorScan (observe rd s)))
      = rotate lowSpeed direction (colorScan (observe rd s)))
      by (destruct direction; reflexivity).
    rewrite Hbody.
    destruct (scan_run rd s) as (_ & _ & Hsame1 & Hout1).
    destruct (turn_run lowSpeed direction (colorScan (observe rd s)))
      as (Hc2 & Hsame2 & _ & extra & Hout2 & Ht2).
    eapply moveResult_step;
      [ eapply sameDeal_trans; eassumption
      | exists extra; rewrite Hout2, Hout1; split; [reflexivity | exact Ht2]
      | ].
    pose proof (IH _ Hc2) as Hrec.
    assert (He : errorInProgress (flags4 (rotate lowSpeed direction (colorScan (observe rd s))))
                 = false).
    { destruct Hsame1 as (_ & _ & E1 & _). destruct Hsame2 as (_ & _ & E2 & _).
      rewrite E2, E1. exact Herr. }
    destruct Hrec as (A & B & C & D). split; [exact A|]. split; [exact B|]. split; [exact C|].
    intros rest s' Hrun _. apply (D _ _ Hrun He).
Qed.

Lemma advanceToTag_run ins : forall s,
  motionFlagsConsistent s ->
  moveResult mediumSpeed CW s (advanceToTag ins s)
    (fun s' => 1 <= activeColor (colours s')).
Proof.
  induction ins as [|rd ins IH]; intros s Hc; cbn [advanceToTag];
    (destruct (activeColor (colours s) <? 1) eqn:Hac;
     [ | apply moveResult_here; [exact Hc | reflexivity |];
         intros rest s' [= _ <-]; apply Z.ltb_ge in Hac; exact Hac ]).
  - apply moveResult_here; [exact Hc | reflexivity | intros; discriminate].
  - destruct (turn_run mediumSpeed CW (observe rd s)) as (Hc1 & Hsame1 & _ & extra & Hout1 & Ht1).
    destruct (scan_run rd (rotate mediumSpeed CW (observe rd s))) as (_ & _ & Hsame2 & Hout2).
    assert (Hobs : observe rd (rotate mediumSpeed CW (observe rd s))
                   = rotate mediumSpeed CW (observe rd s)).
    { destruct (rotate_frame mediumSpeed CW (observe rd s))
        as (f2' & sc & ex & pd & es & -> & _). reflexivity. }
    rewrite Hobs in Hsame2, Hout2.
    eapply moveResult_step;
      [ eapply sameDeal_trans; [|exact Hsame2]; exact Hsame1
      | exists extra; rewrite Hout2, Hout1; split; [reflexivity | exact Ht1]
      | ].
    apply IH. rewrite <- Hobs. apply scan_consistent, Hc1.
Qed.

End Moves.

Section MoveEntries.
Context `{Frontend}.

(** X4. [moveOffActiveColor] turns at low speed in the direction it was
    given until the sensor no longer sees a tag.  When it returns, no error
    being in progress, no tag is under the sensor and the dealer is at
    rest; all it has sent to the motors are commands to turn that way at
    low speed and the final stop, and the deal stands where it stood. *)
Theorem moveOffActiveColor_leaves_tag direction ins s rest s' :
  motionFlagsConsistent s ->
  errorInProgress (flags4 s) = false ->
  moveOffActiveColor direction ins s = Done tt rest s' ->
  activeColor (colours s') = 0 /\ atRest s' /\ sameDeal s s'
  /\ exists extra,
       outputs s' = outputs s ++ extra
       /\ Forall (turnsOnly lowSpeed direction) extra.
Proof.
  intros Hc Herr Hrun.
  destruct (moveOffActiveColor_run direction ins s Hc) as (Hout & Hsame & _ & Hpost).
  rewrite Hrun in Hout, Hsame. cbn [finalState] in Hout, Hsame.
  destruct (Hpost _ _ Hrun Herr) as [Hac Hrest].
  split; [exact Hac|]. split; [exact Hrest|]. split; [exact Hsame | exact Hout].
Qed.

(** X5. [returnToActiveColor] turns at low speed in the direction it was
    given until the sensor sees a tag again.  When it returns, no error
    being in progress, a tag is under the sensor and the dealer is at rest;
    all it has sent to the motors are commands to turn that way at low
    speed and the final stop, and the deal stands where it stood. *)
Theorem returnToActiveColor_finds_tag direction ins s rest s' :
  motionFlagsConsistent s ->
  errorInProgress (flags4 s) = false ->
  returnToActiveColor direction ins s = Done tt rest s' ->
  activeColor (colours s') <> 0 /\ atRest s' /\ sameDeal s s'
  /\ exists extra,
       outputs s' = outputs s ++ extra
       /\ Forall (turnsOnly lowSpeed direction) extra.
Proof.
  intros Hc Herr Hrun.
  destruct (returnToActiveColor_run direction ins s Hc) as (Hout & Hsame & _ & Hpost).
  rewrite Hrun in Hout, Hsame. cbn [finalState] in Hout, Hsame.
  destruct (Hpost _ _ Hrun Herr) as [Hac Hrest].
  split; [exact Hac|]. split; [exact Hrest|]. split; [exact Hsame | exact Hout].
Qed.

End MoveEntries.

(** Three readings of the bare surface take the sensor off the reference
    tag. *)
Lemma moveOffActiveColor_leaves_tag_witness :
  let o := @moveOffActiveColor silentFrontend CCW (overBlackFor 0 3) backOnReference in
  activeColor (colours (finalState o)) = 0 /\ atRest (finalState o).
Proof.
  cbv zeta.
  destruct (@moveOffActiveColor silentFrontend CCW (overBlackFor 0 3) backOnReference)
    as [[] rest s'|s'] eqn:Hrun.
  - destruct (@moveOffActiveColor_leaves_tag silentFrontend CCW
                (overBlackFor 0 3) backOnReference rest s')
      as (Hac & Hrest & _).
    + intros _. split; reflexivity.
    + reflexivity.
    + exact Hrun.
    + split; [exact Hac | exact Hrest].
  - vm_compute in Hrun. discriminate.
Defined.

(** Five readings of the red tag bring the sensor back onto it. *)
Lemma returnToActiveColor_finds_tag_witness :
  let o := @returnToActiveColor silentFrontend CW (overRedFor 0 5) (during ADVANCING 0) in
  activeColor (colours (finalState o)) <> 0 /\ atRest (finalState o).
Proof.
  cbv zeta.
  destruct (@returnToActiveColor silentFrontend CW (overRedFor 0 5) (during ADVANCING 0))
    as [[] rest s'|s'] eqn:Hrun.
  - destruct (@returnToActiveColor_finds_tag silentFrontend CW
                (overRedFor 0 5) (during ADVANCING 0) rest s')
      as (Hac & Hrest & _).
    + intros _. split; reflexivity.
    + reflexivity.
    + exact Hrun.
    + split; [exact Hac | exact Hrest].
  - vm_compute in Hrun. discriminate.
Defined.

Section Corrections.
Context `{Frontend}.

Lemma handleRotationAdjustments_frame s :
  handleRotationAdjustments s = s
  \/ exists (f2 : Flags2) (sc : Scrolling) (out : list Output) (pd : displayState)
            (es : Z) (direction : bool),
       negb (correctingCW (flags1 s)) && negb (correctingCCW (flags1 s)) = true
       /\ (if direction then rotatingCCW (flags1 s) else rotatingCW (flags1 s)) = true
       /\ (direction = CW -> rotatingCW (flags1 s) = false)
       /\ handleRotationAdjustments s
          = s <| flags1 -> correctingCW := direction |>
              <| flags1 -> correctingCCW := negb direction |>
              <| flags1 -> rotatingCW := direction |>
              <| flags1 -> rotatingCCW := negb direction |>
              <| stopped := false |>
              <| flags2 := f2 |> <| scrolling := sc |> <| outputs := out |>
              <| previousDisplayState := pd |>
              <| timings -> expressionStarted := es |>
              <| currentDisplayState := if direction then LOOK_LEFT else LOOK_RIGHT |>.
Proof.
  unfold handleRotationAdjustments. cbv zeta.
  rewrite <- !andb_assoc.
  destruct (negb (correctingCW (flags1 s)) && negb (correctingCCW (flags1 s))) eqn:Hno;
    [|left; rewrite !andb_false_r; reflexivity].
  rewrite !andb_true_r.
  destruct (rotatingCW (flags1 s)) eqn:Hcw;
    [|destruct (rotatingCCW (flags1 s)) eqn:Hccw; [|left; reflexivity]];
    right;
    match goal with |- context [rotate ?sp ?d ?t] =>
      destruct (rotate_frame sp d t) as (f2 & sc & extra & pd & es & Hrot & _);
      exists f2, sc;
      exists (outputs t ++ OutRotate sp d (rotatingCW (flags1 t)) (rotatingCCW (flags1 t))
                :: extra);
      exists pd, es, d
    end;
    (split; [reflexivity|]); (split; [reflexivity|]);
    (split; [first [discriminate | intros _; reflexivity]|]);
    rewrite Hrot; unfold rotateStop, emit; destruct (stopped s); reflexivity.
Qed.

(** X6. The correction of the fine adjustment is started once: when the
    dealer is turning and no correction is marked, it stops the rotation,
    marks the correction and turns at low speed the other way, without ever
    commanding a direction while the dealer turns the opposite way; when a
    correction is marked already, or the dealer does not turn, it does
    nothing, so that calling it again changes nothing. *)
Theorem handleRotationAdjustments_corrects_once s :
  motionFlagsConsistent s ->
  let s' := handleRotationAdjustments s in
  handleRotationAdjustments s' = s'
  /\ (exists extra,
        outputs s' = outputs s ++ extra
        /\ Forall (fun o => reverses o = false) extra)
  /\ (correctingCW (flags1 s) = false -> correctingCCW (flags1 s) = false ->
      (rotatingCW (flags1 s) = true ->
         rotatingCW (flags1 s') = false /\ rotatingCCW (flags1 s') = true
         /\ correctingCCW (flags1 s') = true /\ correctingCW (flags1 s') = false)
      /\ (rotatingCW (flags1 s) = false -> rotatingCCW (flags1 s) = true ->
         rotatingCW (flags1 s') = true /\ rotatingCCW (flags1 s') = false
         /\ correctingCW (flags1 s') = true /\ correctingCCW (flags1 s') = false))
  /\ ((correctingCW (flags1 s) = true \/ correctingCCW (flags1 s) = true
       \/ (rotatingCW (flags1 s) = false /\ rotatingCCW (flags1 s) = false)) ->
      s' = s).
Proof.
  intros Hc. cbv zeta.
  split; [|split; [exact (handleRotationAdjustments_stops_first s Hc)|split]].
  - destruct (handleRotationAdjustments_frame s)
      as [Heq | (f2 & sc & out & pd & es & d & _ & _ & _ & Heq)].
    + rewrite Heq. exact Heq.
    + rewrite Heq. unfold handleRotationAdjustments. rsimpl.
      destruct d; cbn [negb andb]; rewrite ?andb_false_r; reflexivity.
  - intros Hc1 Hc2.
    destruct (handleRotationAdjustments_frame s)
      as [Heq | (f2 & sc & out & pd & es & d & _ & Hd & Hcwd & Heq)].
    + split.
      * intros Hcw. exfalso. revert Heq. unfold handleRotationAdjustments.
        rewrite Hc1, Hc2, Hcw. cbn [andb negb]. cbv zeta.
        match goal with |- context [rotate ?sp ?dd ?t] =>
          destruct (rotate_frame sp dd t) as (f2 & sc & extra & pd & es & -> & _) end.
        intros Heq. apply (f_equal (fun t => correctingCCW (flags1 t))) in Heq.
        revert Heq. rsimpl. congruence.
      * intros Hcw Hccw. exfalso. revert Heq. unfold handleRotationAdjustments.
        rewrite Hc1, Hc2, Hcw, Hccw. cbn [andb negb]. cbv zeta.
        match goal with |- context [rotate ?sp ?dd ?t] =>
          destruct (rotate_frame sp dd t) as (f2 & sc & extra & pd & es & -> & _) end.
        intros Heq. apply (f_equal (fun t => correctingCW (flags1 t))) in Heq.
        revert Heq. rsimpl. congruence.
    + rewrite Heq. rsimpl. destruct d.
      * split; [intros Hcw; specialize (Hcwd eq_refl); congruence|].
        intros _ _. repeat split.
      * split; [|intros Hcw; congruence].
        intros _. repeat split.
  - intros Hno. unfold handleRotationAdjustments.
    destruct Hno as [-> | [-> | [-> ->]]]; cbn [andb negb]; rewrite ?andb_false_r;
      reflexivity.
Qed.

End Corrections.

(** The dealer turning clockwise at the start of a fine adjustment. *)
Lemma handleRotationAdjustments_corrects_once_witness :
  let s' := @handleRotationAdjustments silentFrontend turning in
  rotatingCCW (flags1 s') = true /\ correctingCCW (flags1 s') = true
  /\ @handleRotationAdjustments silentFrontend s' = s'.
Proof.
  cbv zeta.
  destruct (@handleRotationAdjustments_corrects_once silentFrontend turning)
    as (Hidem & _ & Hturn & _).
  - intros Hst. vm_compute in Hst. discriminate.
  - destruct (Hturn eq_refl eq_refl) as [Hcw _].
    destruct (Hcw eq_refl) as (_ & Hccw & Hcorr & _).
    split; [exact Hccw|]. split; [exact Hcorr | exact Hidem].
Defined.

Section OnePlayer.
Context `{Frontend}.


End OnePlayer.


(** ** Resets and the idle state *)

Section Resets.
Context `{F : Frontend}.
Hypothesis screens : screensOnlyDraw F.

Lemma onlyDraws_refl s : onlyDraws s s.
Proof.
  repeat split. exists []. rewrite app_nil_r. split; [reflexivity | constructor].
Qed.

Lemma onlyDraws_trans s1 s2 s3 : onlyDraws s1 s2 -> onlyDraws s2 s3 -> onlyDraws s1 s3.
Proof.
  intros (A1 & A2 & A3 & A4 & A5 & A6 & e1 & Ho1 & Hd1)
         (B1 & B2 & B3 & B4 & B5 & B6 & e2 & Ho2 & Hd2).
  repeat split; try congruence.
  exists (e1 ++ e2). rewrite Ho2, Ho1, app_assoc. split; [reflexivity|].
  apply Forall_app; split; assumption.
Qed.

Lemma updateScrollText_onlyDraws s :
  onlyDraws s (updateScrollText s)
  /\ currentDealState (updateScrollText s) = currentDealState s
  /\ fullExit (flags4 (updateScrollText s)) = fullExit (flags4 s)
  /\ currentDisplayState (updateScrollText s) = currentDisplayState s.
Proof.
  unfold updateScrollText. cbv zeta.
  repeat case_if; rsimpl;
    (split; [|repeat split]); unfold onlyDraws; rsimpl;
    repeat (split; [reflexivity|]);
    first [ exists []; rewrite app_nil_r; split; [reflexivity | constructor]
          | eexists; split; [reflexivity | repeat constructor] ].
Qed.

(** What [updateDisplay] changes beyond the display. *)
Lemma updateDisplay_onlyDraws s :
  let s' := updateDisplay s in
  onlyDraws s s'
  /\ (currentDisplayState s <> ERROR ->
      currentDealState s' = currentDealState s
      /\ fullExit (flags4 s') = fullExit (flags4 s)
      /\ currentDisplayState s' <> ERROR)
  /\ (currentDisplayState s = ERROR ->
      currentDealState s' = RESET_DEALR /\ fullExit (flags4 s') = true
      /\ currentDisplayState s' = ERROR
      /\ In (OutFace "EROR") (outputs s')).
Proof.
  cbv zeta. unfold updateDisplay. cbv zeta.
  set (s1 := if negb (displayState_eqb _ _) then _ else s).
  assert (H1 : onlyDraws s s1 /\ currentDealState s1 = currentDealState s
               /\ fullExit (flags4 s1) = fullExit (flags4 s)
               /\ currentDisplayState s1 = currentDisplayState s).
  { subst s1. case_if; (split; [apply onlyDraws_refl with (s := s)|repeat split]). }
  clearbody s1. destruct H1 as (Hd1 & Hs1 & Hf1 & Hc1).
  rewrite <- Hs1, <- Hf1, <- Hc1.
  match goal with |- context [if _ then updateScrollText ?t else _] => set (s2 := t) end.
  assert (H2 : onlyDraws s1 s2
    /\ (currentDisplayState s1 <> ERROR ->
        currentDealState s2 = currentDealState s1
        /\ fullExit (flags4 s2) = fullExit (flags4 s1)
        /\ currentDisplayState s2 <> ERROR)
    /\ (currentDisplayState s1 = ERROR ->
        currentDealState s2 = RESET_DEALR /\ fullExit (flags4 s2) = true
        /\ currentDisplayState s2 = ERROR
        /\ In (OutFace "EROR") (outputs s2))).
  { subst s2. destruct (screens s1) as (Hm & Hms & Hmf & Hme).
    destruct (currentDisplayState s1) eqn:Hd;
      try (split; [exact Hm | split; [intros Hx; repeat split; try assumption;
                                      apply Hme; discriminate
                                     | intros Hx; discriminate Hx]]);
      try (split; [ repeat split; eexists; split; [reflexivity | repeat constructor]
                  | split; [ intros _; repeat split; rsimpl; rewrite Hd; discriminate
                           | intros Hx; discriminate Hx ] ]).
    - split; [apply onlyDraws_refl|].
      split; [intros _; repeat split; rewrite Hd; discriminate | intros Hx; discriminate Hx].
    - split; [repeat split; eexists; split; [reflexivity | repeat constructor]|].
      split; [intros Hx; congruence|]. intros _. repeat split; rsimpl; [exact Hd|].
      unfold displayFace, emit. rsimpl. apply in_or_app. right. left. reflexivity. }
  clearbody s2. destruct H2 as (Hd2 & Hok & Herr).
  assert (H3 : forall s3, onlyDraws s2 s3 ->
                 currentDealState s3 = currentDealState s2 ->
                 fullExit (flags4 s3) = fullExit (flags4 s2) ->
                 currentDisplayState s3 = currentDisplayState s2 ->
                 (exists e, outputs s3 = outputs s2 ++ e) ->
    onlyDraws s s3
    /\ (currentDisplayState s1 <> ERROR ->
        currentDealState s3 = currentDealState s1
        /\ fullExit (flags4 s3) = fullExit (flags4 s1)
        /\ currentDisplayState s3 <> ERROR)
    /\ (currentDisplayState s1 = ERROR ->
        currentDealState s3 = RESET_DEALR /\ fullExit (flags4 s3) = true
        /\ currentDisplayState s3 = ERROR
        /\ In (OutFace "EROR") (outputs s3))).
  { intros s3 Hd3 Hs3 Hf3 Hc3 (e & He).
    split; [eapply onlyDraws_trans; [exact Hd1|]; eapply onlyDraws_trans; eassumption|].
    rewrite Hs3, Hf3, Hc3. split; [exact Hok|].
    intros Hx. destruct (Herr Hx) as (A & B & C & D). repeat split; try assumption.
    rewrite He. apply in_or_app. left. exact D. }
  case_if.
  - destruct (updateScrollText_onlyDraws s2) as (A & B & C & D).
    apply H3; try assumption. destruct A as (_ & _ & _ & _ & _ & _ & e & He & _).
    exists e. exact He.
  - apply H3; try reflexivity; [apply onlyDraws_refl|].
    exists []. rewrite app_nil_r. reflexivity.
Qed.

Lemma resetFlags_rest s :
  let s' := resetFlags s in
  atRest s'
  /\ errorInProgress (flags4 s') = false
  /\ fullExit (flags4 s') = fullExit (flags4 s)
  /\ gamesExit (flags4 s') = gamesExit (flags4 s)
  /\ toolsExit (flags4 s') = toolsExit (flags4 s)
  /\ outputs s' = outputs s
  /\ currentDisplayState s' = currentDisplayState s.
Proof. cbv zeta. unfold resetFlags, resetColorsSeen, atRest. repeat split. Qed.

Lemma handleResetDealrState_run s :
  let s' := handleResetDealrState s in
  atRest s'
  /\ errorInProgress (flags4 s') = false
  /\ (exists extra,
        outputs s' = outputs s ++ extra
        /\ Forall (fun o => isDisplayOutput o = true) extra)
  /\ (fullExit (flags4 s) = true ->
      currentDealState s' = IDLE /\ fullExit (flags4 s') = false
      /\ gamesExit (flags4 s') = gamesExit (flags4 s)
      /\ toolsExit (flags4 s') = toolsExit (flags4 s)
      /\ exists extra, outputs s' = outputs s ++ OutFace "EXIT" :: extra)
  /\ (fullExit (flags4 s) = false -> gamesExit (flags4 s) = true ->
      currentDealState s' = IDLE /\ fullExit (flags4 s') = false
      /\ gamesExit (flags4 s') = false
      /\ toolsExit (flags4 s') = toolsExit (flags4 s)
      /\ exists extra, outputs s' = outputs s ++ OutFace "GAME" :: extra)
  /\ (fullExit (flags4 s) = false -> gamesExit (flags4 s) = false ->
      toolsExit (flags4 s) = true ->
      currentDealState s' = IDLE /\ fullExit (flags4 s') = false
      /\ gamesExit (flags4 s') = false /\ toolsExit (flags4 s') = false
      /\ exists extra, outputs s' = outputs s ++ OutFace "TOOL" :: extra)
  /\ (fullExit (flags4 s) = false -> gamesExit (flags4 s) = false ->
      toolsExit (flags4 s) = false ->
      if displayState_eqb (currentDisplayState s) ERROR
      then currentDealState s' = RESET_DEALR /\ fullExit (flags4 s') = true
      else currentDealState s' = IDLE /\ fullExit (flags4 s') = false).
Proof.
  cbv zeta. unfold handleResetDealrState. cbv zeta.
  assert (H0 : let s0 := resetFlags (s <| gameplay -> currentGamePtr := false |>) in
               atRest s0
               /\ errorInProgress (flags4 s0) = false
               /\ fullExit (flags4 s0) = fullExit (flags4 s)
               /\ gamesExit (flags4 s0) = gamesExit (flags4 s)
               /\ toolsExit (flags4 s0) = toolsExit (flags4 s)
               /\ outputs s0 = outputs s
               /\ currentDisplayState s0 = currentDisplayState s)
    by exact (resetFlags_rest (s <| gameplay -> currentGamePtr := false |>)).
  revert H0. cbv zeta.
  generalize (resetFlags (s <| gameplay -> currentGamePtr := false |>)).
  intros s0 ((Hst & Hcw & Hccw) & Herr & Hfull & Hgames & Htools & Hout & Hdisp).
  rewrite <- Hfull, <- Hgames, <- Htools, <- Hout, <- Hdisp.
  clear Hfull Hgames Htools Hout Hdisp.
  destruct (fullExit (flags4 s0)) eqn:Hfe;
    [|destruct (gamesExit (flags4 s0)) eqn:Hge;
      [|destruct (toolsExit (flags4 s0)) eqn:Hte]];
    match goal with |- context [updateDisplay ?t] =>
      destruct (updateDisplay_onlyDraws t)
        as ((Hf1 & Hs & He & Hg & Ht & _ & extra & Ho & Hd) & Hok & Hbad);
      revert Hf1 Hs He Hg Ht Ho Hok Hbad; cbv zeta;
      generalize (updateDisplay t)
    end;
    unfold scrollInstructions; rsimpl; unfold displayFace, emit; rsimpl;
    intros s' Hf1 Hs He Hg Ht Ho Hok Hbad;
    (split; [exact (conj (eq_trans Hs Hst)
                      (conj (eq_trans (f_equal rotatingCW Hf1) Hcw)
                            (eq_trans (f_equal rotatingCCW Hf1) Hccw)))|]);
    (split; [exact (eq_trans He Herr)|]).
  - destruct Hok as (Hds & Hfx & _); [discriminate|].
    split; [exists (OutFace "EXIT" :: extra); rewrite <- app_assoc in Ho;
            split; [exact Ho | constructor; [reflexivity | exact Hd]]|].
    split; [|repeat split; intros; discriminate].
    intros _. repeat split; try assumption.
    exists extra. rewrite <- app_assoc in Ho. exact Ho.
  - destruct Hok as (Hds & Hfx & _); [discriminate|].
    split; [exists (OutFace "GAME" :: extra); rewrite <- app_assoc in Ho;
            split; [exact Ho | constructor; [reflexivity | exact Hd]]|].
    split; [intros; discriminate|]. split; [|repeat split; intros; discriminate].
    intros _ _. repeat split; try assumption; try exact (eq_trans Hfx Hfe).
    exists extra. rewrite <- app_assoc in Ho. exact Ho.
  - destruct Hok as (Hds & Hfx & _); [discriminate|].
    split; [exists (OutFace "TOOL" :: extra); rewrite <- app_assoc in Ho;
            split; [exact Ho | constructor; [reflexivity | exact Hd]]|].
    split; [intros; discriminate|]. split; [intros; discriminate|].
    split; [|intros; discriminate].
    intros _ _ _. repeat split; try assumption; try exact (eq_trans Hfx Hfe).
    + exact (eq_trans Hg Hge).
    + exists extra. rewrite <- app_assoc in Ho. exact Ho.
  - split; [exists extra; split; [exact Ho | exact Hd]|].
    split; [intros; discriminate|]. split; [intros; discriminate|].
    split; [intros; discriminate|].
    intros _ _ _.
    destruct (displayState_eqb (currentDisplayState s0) ERROR) eqn:Hcd.
    + assert (Hx : currentDisplayState s0 = ERROR)
        by (destruct (currentDisplayState s0); try discriminate Hcd; reflexivity).
      match goal with |- context [if ?c then _ else _] =>
        replace c with true by (symmetry; exact Hcd) end.
      destruct (Hbad Hx) as (A & B & _). split; assumption.
    + assert (Hx : currentDisplayState s0 <> ERROR)
        by (intros Hx; rewrite Hx in Hcd; discriminate Hcd).
      match goal with |- context [if ?c then _ else _] =>
        replace c with false by (symmetry; exact Hcd) end.
      destruct (Hok Hx) as (A & B & _). split; [exact A | exact (eq_trans B Hfe)].
Qed.

(** X8. [handleResetDealrState] serves one request to exit, the full exit
    before the exit to the games and that before the exit to the tools,
    shows its word and leaves the requests of lower priority set.  It marks
    the dealer as at rest and clears the error flag, and writes to the
    display only: no command goes to the motors, even when the dealer was
    turning.  It ends in [IDLE], unless no exit was requested and the error
    screen is selected: then it ends in [RESET_DEALR] with a full exit
    requested. *)
Theorem handleResetDealrState_serves_one_exit s :
  let s' := handleResetDealrState s in
  atRest s'
  /\ errorInProgress (flags4 s') = false
  /\ (exists extra,
        outputs s' = outputs s ++ extra
        /\ Forall (fun o => isDisplayOutput o = true) extra)
  /\ (fullExit (flags4 s) = true ->
      currentDealState s' = IDLE /\ fullExit (flags4 s') = false
      /\ gamesExit (flags4 s') = gamesExit (flags4 s)
      /\ toolsExit (flags4 s') = toolsExit (flags4 s)
      /\ exists extra, outputs s' = outputs s ++ OutFace "EXIT" :: extra)
  /\ (fullExit (flags4 s) = false -> gamesExit (flags4 s) = true ->
      currentDealState s' = IDLE /\ fullExit (flags4 s') = false
      /\ gamesExit (flags4 s') = false
      /\ toolsExit (flags4 s') = toolsExit (flags4 s)
      /\ exists extra, outputs s' = outputs s ++ OutFace "GAME" :: extra)
  /\ (fullExit (flags4 s) = false -> gamesExit (flags4 s) = false ->
      toolsExit (flags4 s) = true ->
      currentDealState s' = IDLE /\ fullExit (flags4 s') = false
      /\ gamesExit (flags4 s') = false /\ toolsExit (flags4 s') = false
      /\ exists extra, outputs s' = outputs s ++ OutFace "TOOL" :: extra)
  /\ (fullExit (flags4 s) = false -> gamesExit (flags4 s) = false ->
      toolsExit (flags4 s) = false ->
      if displayState_eqb (currentDisplayState s) ERROR
      then currentDealState s' = RESET_DEALR /\ fullExit (flags4 s') = true
      else currentDealState s' = IDLE /\ fullExit (flags4 s') = false).
Proof. exact (handleResetDealrState_run s). Qed.

(** X9. A pass of [checkState] that finds the error flag set, the game not
    being over, resets the dealer in that very pass, whatever the deal
    state was: it reads nothing, ends in [IDLE] with the error flag and the
    request of a full exit cleared and the dealer marked as at rest, and
    writes to the display only, so that no motor is commanded to stop. *)
Theorem checkState_error_resets `{G : Game} ins s :
  gameOver (flags3 s) = false ->
  errorInProgress (flags4 s) = true ->
  exists s',
    checkState ins s = Done tt ins s'
    /\ currentDealState s' = IDLE
    /\ errorInProgress (flags4 s') = false
    /\ fullExit (flags4 s') = false
    /\ atRest s'
    /\ exists extra,
         outputs s' = outputs s ++ extra
         /\ Forall (fun o => isDisplayOutput o = true) extra.
Proof.
  intros Hgo Herr. unfold checkState. cbv zeta.
  set (s1 := if negb (dealState_eqb _ _) then _ else s).
  assert (H1 : gameOver (flags3 s1) = false /\ errorInProgress (flags4 s1) = true
               /\ outputs s1 = outputs s).
  { subst s1. case_if; repeat split; assumption. }
  clearbody s1. destruct H1 as (Hgo1 & Herr1 & Hout1).
  rewrite Hgo1. cbn [bind]. rewrite Herr1. rewrite <- Hout1. clear Hgo Herr Hout1 s.
  match goal with |- context [updateDisplay ?t] =>
    destruct (updateDisplay_onlyDraws t)
      as ((_ & _ & He & Hg & Ht & _ & extra1 & Ho1 & Hd1) & Hok & Hbad);
    revert He Hg Ht Ho1 Hok Hbad; cbv zeta; generalize (updateDisplay t)
  end.
  rsimpl. intros t He Hg Ht Ho1 Hok Hbad.
  assert (Hst : currentDealState t = RESET_DEALR
                /\ (fullExit (flags4 t) = true \/ currentDisplayState t <> ERROR)).
  { destruct (displayState_eqb (currentDisplayState s1) ERROR) eqn:Hcd.
    - assert (Hx : currentDisplayState s1 = ERROR)
        by (destruct (currentDisplayState s1); try discriminate Hcd; reflexivity).
      destruct (Hbad Hx) as (A & B & _). split; [exact A | left; exact B].
    - assert (Hx : currentDisplayState s1 <> ERROR)
        by (intros Hx; rewrite Hx in Hcd; discriminate Hcd).
      destruct (Hok Hx) as (A & _ & C). split; [exact A | right; exact C]. }
  destruct Hst as [Hst Hcase].
  replace (match currentDealState t with
           | DEALING => handleDealingState ins t
           | ADVANCING => handleAdvancingState ins t
           | INITIALIZING => initializeToRed ins t
           | IDLE => Done tt ins (handleIdleState t)
           | AWAITING_PLAYER_DECISION => Done tt ins (handleAwaitingPlayerDecision t)
           | RESET_DEALR => Done tt ins (handleResetDealrState t)
           end)
    with (Done tt ins (handleResetDealrState t)) by (rewrite Hst; reflexivity).
  exists (handleResetDealrState t). split; [reflexivity|].
  destruct (handleResetDealrState_run t)
    as (Hrest & Herr' & (extra2 & Ho2 & Hd2) & Hfull & Hgames & Htools & Hnone).
  assert (Hend : currentDealState (handleResetDealrState t) = IDLE
                 /\ fullExit (flags4 (handleResetDealrState t)) = false).
  { destruct (fullExit (flags4 t)) eqn:Hfe.
    - destruct (Hfull eq_refl) as (A & B & _). split; assumption.
    - destruct (gamesExit (flags4 t)) eqn:Hge.
      + destruct (Hgames eq_refl eq_refl) as (A & B & _). split; assumption.
      + destruct (toolsExit (flags4 t)) eqn:Hte.
        * destruct (Htools eq_refl eq_refl eq_refl) as (A & B & _). split; assumption.
        * specialize (Hnone eq_refl eq_refl eq_refl).
          destruct Hcase as [Hx | Hx]; [discriminate Hx|].
          destruct (displayState_eqb (currentDisplayState t) ERROR) eqn:Hcd;
            [|exact Hnone].
          exfalso. apply Hx.
          destruct (currentDisplayState t); try discriminate Hcd; reflexivity. }
  destruct Hend as [Hidle Hfx].
  split; [exact Hidle|]. split; [exact Herr'|]. split; [exact Hfx|].
  split; [exact Hrest|].
  exists (extra1 ++ extra2). split; [|apply Forall_app; split; assumption].
  etransitivity; [exact Ho2|].
  etransitivity; [exact (f_equal (fun l => l ++ extra2) Ho1)|].
  symmetry. apply app_assoc.
Qed.

(** X10. [handleIdleState] does the housekeeping of entering [IDLE] once.
    With [newDealState] set it switches the flywheel off, stops the
    rotation if the dealer is not marked as stopped, clears the flags of
    the deal and [newDealState]; with [newDealState] clear it only draws.
    It leaves the deal state alone unless the error screen is selected. *)
Theorem handleIdleState_once s :
  motionFlagsConsistent s ->
  let s' := handleIdleState s in
  newDealState (flags2 s') = false
  /\ (newDealState (flags2 s) = true ->
      atRest s'
      /\ dealInitialized (flags1 s') = false /\ cardDealt (flags1 s') = false
      /\ correctingCW (flags1 s') = false /\ correctingCCW (flags1 s') = false
      /\ exists extra,
           outputs s'
           = outputs s ++ OutFlywheelOff
               :: (if stopped s then [] else [OutRotateStop]) ++ extra
           /\ Forall (fun o => isDisplayOutput o = true) extra)
  /\ (newDealState (flags2 s) = false -> onlyDraws s s')
  /\ (currentDisplayState s <> ERROR -> currentDealState s' = currentDealState s).
Proof.
  intros Hc. cbv zeta. unfold handleIdleState. cbv zeta.
  set (s1 := if newDealState (flags2 s) then _ else s).
  assert (H1 : newDealState (flags2 s1) = false
    /\ currentDisplayState s1 = currentDisplayState s
    /\ currentDealState s1 = currentDealState s
    /\ (newDealState (flags2 s) = true ->
        atRest s1
        /\ dealInitialized (flags1 s1) = false /\ cardDealt (flags1 s1) = false
        /\ correctingCW (flags1 s1) = false /\ correctingCCW (flags1 s1) = false
        /\ outputs s1 = outputs s ++ OutFlywheelOff
                          :: (if stopped s then [] else [OutRotateStop]))
    /\ (newDealState (flags2 s) = false -> s1 = s)).
  { subst s1. destruct (newDealState (flags2 s)) eqn:Hn.
    - set (sa := flywheelOff _).
      assert (Ha : newDealState (flags2 sa) = false
        /\ stopped sa = stopped s /\ flags1 sa = flags1 s
        /\ currentDisplayState sa = currentDisplayState s
        /\ currentDealState sa = currentDealState s
        /\ outputs sa = outputs s ++ [OutFlywheelOff]) by (subst sa; repeat split).
      clearbody sa. destruct Ha as (Ha0 & Ha1 & Ha2 & Ha3 & Ha4 & Ha5).
      set (sb := if negb (stopped sa) then _ else _).
      assert (Hb : atRest sb
        /\ newDealState (flags2 sb) = false
        /\ currentDisplayState sb = currentDisplayState s
        /\ currentDealState sb = currentDealState s
        /\ outputs sb = outputs s ++ OutFlywheelOff
                          :: (if stopped s then [] else [OutRotateStop])).
      { subst sb. unfold rotateStop, emit, atRest.
        assert (Hsts : stopped s = stopped sa) by (symmetry; exact Ha1).
        clear Ha1. rewrite Hsts.
        destruct (stopped sa) eqn:Hst; cbn [negb].
        - destruct (Hc Hsts) as [Hcw Hccw].
          rewrite Ha2, Ha5, Hst. repeat split; assumption.
        - rsimpl. rewrite Ha5, <- app_assoc. repeat split; assumption. }
      clearbody sb. destruct Hb as ((A1 & A2 & A3) & Hbn & Hbd & Hbs & Hbo).
      set (sc := if dealInitialized (flags1 sb) then _ else sb).
      assert (Hcc : stopped sc = true /\ rotatingCW (flags1 sc) = false
        /\ rotatingCCW (flags1 sc) = false
        /\ dealInitialized (flags1 sc) = false
        /\ newDealState (flags2 sc) = false
        /\ currentDisplayState sc = currentDisplayState s
        /\ currentDealState sc = currentDealState s
        /\ outputs sc = outputs s ++ OutFlywheelOff
                          :: (if stopped s then [] else [OutRotateStop])).
      { subst sc. destruct (dealInitialized (flags1 sb)) eqn:Hdi;
          repeat split; assumption. }
      clearbody sc. destruct Hcc as (C1 & C2 & C3 & C4 & C0 & C5 & C6 & C7).
      unfold resetColorsSeen, atRest. rsimpl.
      repeat split; try assumption; try discriminate.
    - repeat split; try assumption; discriminate. }
  clearbody s1. destruct H1 as (Hn1 & Hd1 & Hs1 & Hnew & Hold).
  destruct (updateDisplay_onlyDraws s1)
    as ((Hf1 & Hst & He & Hg & Ht & Hnd & extra & Ho & Hd) & Hok & _).
  rewrite Hd1 in Hok.
  set (s2 := updateDisplay s1) in *.
  assert (H3 : forall s3 : Dealer,
             flags1 s3 = flags1 s2 -> flags2 s3 = flags2 s2 -> flags4 s3 = flags4 s2 ->
             stopped s3 = stopped s2 -> outputs s3 = outputs s2 ->
             currentDealState s3 = currentDealState s2 ->
    newDealState (flags2 s3) = false
    /\ (newDealState (flags2 s) = true ->
        atRest s3
        /\ dealInitialized (flags1 s3) = false /\ cardDealt (flags1 s3) = false
        /\ correctingCW (flags1 s3) = false /\ correctingCCW (flags1 s3) = false
        /\ exists extra,
             outputs s3
             = outputs s ++ OutFlywheelOff
                 :: (if stopped s then [] else [OutRotateStop]) ++ extra
             /\ Forall (fun o => isDisplayOutput o = true) extra)
    /\ (newDealState (flags2 s) = false -> onlyDraws s s3)
    /\ (currentDisplayState s <> ERROR -> currentDealState s3 = currentDealState s)).
  { intros s3 E1 E2 E4 Est Eo Eds.
    split; [rewrite E2, Hnd; exact Hn1|]. split; [|split].
    - intros Hn. destruct (Hnew Hn) as ((A1 & A2 & A3) & B & C & D & E & Hout).
      unfold atRest. rewrite E1, Est, Hf1, Hst, Eo, Ho, Hout.
      repeat split; try assumption.
      exists extra. rewrite <- app_assoc. split; [reflexivity | exact Hd].
    - intros Hn. rewrite (Hold Hn) in *. unfold onlyDraws.
      rewrite E1, E2, E4, Est, Eo. repeat split; try assumption.
      exists extra. split; assumption.
    - intros Hx. destruct (Hok Hx) as (A & _). rewrite Eds, A. exact Hs1. }
  case_if; apply H3; reflexivity.
Qed.

End Resets.

(** The front end that draws nothing is one whose screens only draw. *)
Lemma silentFrontend_screensOnlyDraw : screensOnlyDraw silentFrontend.
Proof.
  intros s. split; [apply onlyDraws_refl|]. repeat split. intros Hx. exact Hx.
Qed.

(** A reset asked for while the dealer turns, with the exits to the games
    and to the tools both requested: the exit to the games is served, the
    one to the tools stays requested. *)
Lemma handleResetDealrState_serves_one_exit_witness :
  let s := turning <| flags4 -> gamesExit := true |> <| flags4 -> toolsExit := true |> in
  let s' := @handleResetDealrState silentFrontend s in
  currentDealState s' = IDLE /\ gamesExit (flags4 s') = false
  /\ toolsExit (flags4 s') = true /\ atRest s'.
Proof.
  cbv zeta.
  destruct (@handleResetDealrState_serves_one_exit silentFrontend
              silentFrontend_screensOnlyDraw
              (turning <| flags4 -> gamesExit := true |> <| flags4 -> toolsExit := true |>))
    as (Hrest & _ & _ & _ & Hgames & _).
  destruct (Hgames eq_refl eq_refl) as (Hidle & _ & Hg & Ht & _).
  split; [exact Hidle|]. split; [exact Hg|]. split; [exact Ht | exact Hrest].
Defined.

(** An error raised while the dealer turns. *)
Lemma checkState_error_resets_witness :
  exists s',
    @checkState silentFrontend BaseGame []
      (turning <| flags4 -> errorInProgress := true |>) = Done tt [] s'
    /\ currentDealState s' = IDLE /\ atRest s'.
Proof.
  destruct (@checkState_error_resets silentFrontend silentFrontend_screensOnlyDraw
              BaseGame [] (turning <| flags4 -> errorInProgress := true |>))
    as (s' & Hrun & Hidle & _ & _ & Hrest & _).
  - reflexivity.
  - reflexivity.
  - exists s'. split; [exact Hrun|]. split; [exact Hidle | exact Hrest].
Defined.

(** The dealer entering [IDLE] while it turns. *)
Lemma handleIdleState_once_witness :
  let s := turning <| currentDealState := IDLE |> <| flags2 -> newDealState := true |> in
  let s' := @handleIdleState silentFrontend s in
  atRest s' /\ newDealState (flags2 s') = false
  /\ exists extra, outputs s' = outputs s ++ OutFlywheelOff :: [OutRotateStop] ++ extra.
Proof.
  cbv zeta.
  destruct (@handleIdleState_once silentFrontend silentFrontend_screensOnlyDraw
              (turning <| currentDealState := IDLE |> <| flags2 -> newDealState := true |>))
    as (Hn & Hnew & _).
  - intros Hst. vm_compute in Hst. discriminate.
  - destruct (Hnew eq_refl) as (Hrest & _ & _ & _ & _ & extra & Hout & _).
    split; [exact Hrest|]. split; [exact Hn|]. exists extra. exact Hout.
Defined.

(** ** Leaving a deal *)

Section Exits.
Context `{F : Frontend} `{G : Game}.
Hypothesis screens : screensOnlyDraw F.


End Exits.


(** ** Menu selection *)

Section Settings.

Lemma toInt8_id z : -128 <= z < 128 -> toInt8 z = z.
Proof.
  intros Hz. unfold toInt8, wrap8. cbv zeta.
  destruct (Z_lt_le_dec z 0) as [Hneg | Hpos].
  - assert (Hm : z mod 256 = z + 256).
    { symmetry. apply (Z.mod_unique_pos z 256 (-1) (z + 256)); lia. }
    rewrite Hm. destruct (z + 256 <? 128) eqn:Hlt; [apply Z.ltb_lt in Hlt|]; lia.
  - rewrite (Z.mod_small z 256) by lia.
    destruct (z <? 128) eqn:Hlt; [reflexivity | apply Z.ltb_ge in Hlt; lia].
Qed.

Lemma succ_mod n g : 0 <= g < n -> (g + 1) mod n = (if n <? g + 1 + 1 then 0 else g + 1).
Proof.
  intros Hg. destruct (n <? g + 1 + 1) eqn:Hn.
  - apply Z.ltb_lt in Hn. assert (g + 1 = n) as -> by lia. apply Z_mod_same_full.
  - apply Z.ltb_ge in Hn. apply Z.mod_small. lia.
Qed.

Lemma pred_mod n g : 0 <= g < n -> (g - 1) mod n = (if g - 1 <? 0 then n - 1 else g - 1).
Proof.
  intros Hg. destruct (g - 1 <? 0) eqn:Hn.
  - apply Z.ltb_lt in Hn. assert (g = 0) as -> by lia.
    symmetry. apply (Z.mod_unique_pos (0 - 1) n (-1) (n - 1)); lia.
  - apply Z.ltb_ge in Hn. apply Z.mod_small. lia.
Qed.

Lemma selection_steps gameCount s :
  0 <= gameCount < 127 -> selectionInRange gameCount s ->
  increaseSetting gameCount s
  = (if displayState_eqb (currentDisplayState s) SELECT_GAME then
       s <| gameplay -> currentGame
              := ((currentGame (gameplay s) + 1) mod (gameCount + 1)) |>
     else if displayState_eqb (currentDisplayState s) SELECT_TOOL then
       s <| gameplay -> currentToolsMenu
              := ((currentToolsMenu (gameplay s) + 1) mod (numToolMenus + 1)) |>
     else s)
  /\ decreaseSetting gameCount s
  = (if displayState_eqb (currentDisplayState s) SELECT_GAME then
       s <| gameplay -> currentGame
              := ((currentGame (gameplay s) - 1) mod (gameCount + 1)) |>
     else if displayState_eqb (currentDisplayState s) SELECT_TOOL then
       s <| gameplay -> currentToolsMenu
              := ((currentToolsMenu (gameplay s) - 1) mod (numToolMenus + 1)) |>
     else s).
Proof.
  intros Hn [Hg Ht]. by_fields s.
  unfold increaseSetting, decreaseSetting, selectionInRange, numToolMenus in *. rsimpl.
  assert (Hg0 : (0 <=? game) = true) by (apply Z.leb_le; lia).
  assert (Ht0 : (0 <=? tool) = true) by (apply Z.leb_le; lia).
  rewrite Hg0, Ht0, !andb_true_r.
  rewrite !toInt8_id by lia.
  rewrite (succ_mod (gameCount + 1) game), (pred_mod (gameCount + 1) game) by lia.
  rewrite (succ_mod (4 + 1) tool), (pred_mod (4 + 1) tool) by lia.
  destruct (displayState_eqb disp SELECT_GAME);
    [|destruct (displayState_eqb disp SELECT_TOOL)];
    (split; repeat case_if; reflect_hyps; try lia; try reflexivity).
  - replace (gameCount + 1 - 1) with gameCount by lia. reflexivity.
Qed.

Lemma step_back n g : 0 <= g < n -> ((g + 1) mod n - 1) mod n = g.
Proof.
  intros Hg. rewrite succ_mod by lia.
  destruct (n <? g + 1 + 1) eqn:E; reflect_hyps; rewrite pred_mod by lia;
    case_if; reflect_hyps; lia.
Qed.

Lemma step_forth n g : 0 <= g < n -> ((g - 1) mod n + 1) mod n = g.
Proof.
  intros Hg. rewrite pred_mod by lia.
  destruct (g - 1 <? 0) eqn:E; reflect_hyps; rewrite succ_mod by lia;
    case_if; reflect_hyps; lia.
Qed.

(** X12. [increaseSetting] and [decreaseSetting] step through the entries
    of the menu on display, the games and the entry after them, or the
    tools, and wrap around at either end: they keep the selection in
    range, leave the other menu's selection alone, and each undoes the
    other. *)
Theorem settings_cycle gameCount s :
  0 <= gameCount < 127 -> selectionInRange gameCount s ->
  let up := increaseSetting gameCount s in
  let down := decreaseSetting gameCount s in
  selectionInRange gameCount up /\ selectionInRange gameCount down
  /\ decreaseSetting gameCount up = s /\ increaseSetting gameCount down = s
  /\ (currentDisplayState s = SELECT_GAME ->
      currentGame (gameplay up) = (currentGame (gameplay s) + 1) mod (gameCount + 1)
      /\ currentGame (gameplay down) = (currentGame (gameplay s) - 1) mod (gameCount + 1)
      /\ currentToolsMenu (gameplay up) = currentToolsMenu (gameplay s)
      /\ currentToolsMenu (gameplay down) = currentToolsMenu (gameplay s))
  /\ (currentDisplayState s = SELECT_TOOL ->
      currentToolsMenu (gameplay up)
      = (currentToolsMenu (gameplay s) + 1) mod (numToolMenus + 1)
      /\ currentToolsMenu (gameplay down)
        = (currentToolsMenu (gameplay s) - 1) mod (numToolMenus + 1)
      /\ currentGame (gameplay up) = currentGame (gameplay s)
      /\ currentGame (gameplay down) = currentGame (gameplay s)).
Proof.
  intros Hn Hsel. cbv zeta.
  assert (Hsteps : forall t, selectionInRange gameCount t ->
            selectionInRange gameCount (increaseSetting gameCount t)
            /\ selectionInRange gameCount (decreaseSetting gameCount t)).
  { intros t Ht. destruct (selection_steps gameCount t Hn Ht) as [-> ->].
    destruct Ht as [Hg Ht]. by_fields t.
    unfold selectionInRange, numToolMenus in *. rsimpl.
    pose proof (Z.mod_pos_bound (game + 1) (gameCount + 1)).
    pose proof (Z.mod_pos_bound (game - 1) (gameCount + 1)).
    pose proof (Z.mod_pos_bound (tool + 1) (4 + 1)).
    pose proof (Z.mod_pos_bound (tool - 1) (4 + 1)).
    destruct (displayState_eqb disp SELECT_GAME);
      [|destruct (displayState_eqb disp SELECT_TOOL)]; rsimpl; lia. }
  destruct (Hsteps s Hsel) as [Hup Hdown].
  split; [exact Hup|]. split; [exact Hdown|].
  destruct (selection_steps gameCount _ Hn Hup) as [_ ->].
  destruct (selection_steps gameCount _ Hn Hdown) as [-> _].
  destruct (selection_steps gameCount s Hn Hsel) as [-> ->].
  destruct Hsel as [Hg Ht]. by_fields s.
  unfold selectionInRange, numToolMenus in *. rsimpl.
  pose proof (step_back (gameCount + 1) game) as B1.
  pose proof (step_forth (gameCount + 1) game) as B2.
  pose proof (step_back (4 + 1) tool) as B3.
  pose proof (step_forth (4 + 1) tool) as B4.
  destruct (displayState_eqb disp SELECT_GAME) eqn:D1;
    [|destruct (displayState_eqb disp SELECT_TOOL) eqn:D2];
    rsimpl; rewrite ?D1, ?D2; rsimpl;
    rewrite ?B1, ?B2, ?B3, ?B4 by lia;
    (repeat split; try reflexivity; exfalso;
     match goal with H : disp = _ |- _ => rewrite H in * end;
     first [vm_compute in D1; discriminate D1 | vm_compute in D2; discriminate D2]).
Qed.

End Settings.

(** One game registered, the last entry of the games menu selected. *)
Lemma settings_cycle_witness :
  let s := factory <| currentDisplayState := SELECT_GAME |>
                   <| gameplay -> currentGame := 1 |> in
  currentGame (gameplay (increaseSetting 1 s)) = 0
  /\ decreaseSetting 1 (increaseSetting 1 s) = s.
Proof.
  cbv zeta.
  destruct (settings_cycle 1
              (factory <| currentDisplayState := SELECT_GAME |>
                       <| gameplay -> currentGame := 1 |>))
    as (_ & _ & Hback & _ & Hgame & _).
  - lia.
  - unfold selectionInRange. split; split; apply Z.leb_le; vm_compute; reflexivity.
  - destruct (Hgame eq_refl) as (Hup & _). split; [exact Hup | exact Hback].
Defined.

(** ** The registry of games *)

Section Registry.
Context {G : Type}.
Import GameRegistry.

Lemma registry_empty_wf : registered (@empty G).
Proof.
  unfold registered, empty, MAX_GAMES. cbn [games gameCount].
  split; [apply length_replicate|]. split; [lia|]. intros i Hi. lia.
Qed.

(** X13. [addGame] stores a game at the first free index, where
    [getGame] finds it, and leaves the games registered before where they
    were; it refuses a null pointer, and a game once [MAX_GAMES] games are
    registered, leaving the registry as it was.  [getGame] answers null
    for an index that is not below the count. *)
Theorem addGame_getGame (r : t G) (game : option G) :
  registered r ->
  let ok := fst (addGame game r) in
  let r' := snd (addGame game r) in
  registered r'
  /\ (ok = true <-> (exists g, game = Some g) /\ getGameCount r < MAX_GAMES)
  /\ (ok = true ->
      getGameCount r' = getGameCount r + 1
      /\ getGame (getGameCount r) r' = game)
  /\ (ok = false -> r' = r)
  /\ (forall i, 0 <= i < getGameCount r -> getGame i r' = getGame i r)
  /\ (forall i, getGameCount r' <= i -> getGame i r' = None).
Proof.
  intros (Hlen & Hcount & Hheld). cbv zeta. unfold registered, addGame, getGameCount.
  destruct game as [g|].
  - destruct (gameCount r <? MAX_GAMES) eqn:Hfull; cbn [fst snd]; unfold MAX_GAMES in *.
    + apply Z.ltb_lt in Hfull. unfold MAX_GAMES in *.
      assert (Hw : wrap8 (gameCount r + 1) = gameCount r + 1)
        by (unfold wrap8; apply Z.mod_small; lia).
      rewrite Hw.
      assert (Hnew : forall i, 0 <= i ->
                getGame i {| games := <[Z.to_nat (gameCount r) := Some g]> (games r);
                             gameCount := gameCount r + 1 |}
                = if i <? gameCount r then getGame i r
                  else if i =? gameCount r then Some g else None).
      { intros i Hi. unfold getGame. cbn [games gameCount].
        destruct (i <? gameCount r) eqn:H1; reflect_hyps.
        - destruct (i <? gameCount r + 1) eqn:H2; reflect_hyps; [|lia].
          rewrite list_lookup_insert_ne by lia. reflexivity.
        - destruct (i =? gameCount r) eqn:H2; reflect_hyps.
          + subst i. destruct (gameCount r <? gameCount r + 1) eqn:H3; reflect_hyps; [|lia].
            rewrite list_lookup_insert_eq by lia. reflexivity.
          + destruct (i <? gameCount r + 1) eqn:H3; reflect_hyps; [lia | reflexivity]. }
      split; [|split; [|split; [|split; [|split]]]].
      * split; [|split].
        -- cbn [games]. rewrite length_insert. exact Hlen.
        -- cbn [gameCount]. lia.
        -- cbn [gameCount]. intros i Hi. rewrite Hnew by lia.
           destruct (i <? gameCount r) eqn:H1; reflect_hyps; [apply Hheld; lia|].
           destruct (i =? gameCount r) eqn:H2; reflect_hyps; [|lia].
           exists g. reflexivity.
      * split; [intros _; split; [exists g; reflexivity | exact Hfull] | reflexivity].
      * intros _. cbn [gameCount]. split; [reflexivity|]. rewrite Hnew by lia.
        rewrite Z.ltb_irrefl, Z.eqb_refl. reflexivity.
      * discriminate.
      * intros i Hi. rewrite Hnew by lia.
        destruct (i <? gameCount r) eqn:H1; reflect_hyps; [reflexivity | lia].
      * cbn [gameCount]. intros i Hi. rewrite Hnew by lia.
        destruct (i <? gameCount r) eqn:H1; reflect_hyps; [lia|].
        destruct (i =? gameCount r) eqn:H2; reflect_hyps; [lia | reflexivity].
    + apply Z.ltb_ge in Hfull.
      split; [exact (conj Hlen (conj Hcount Hheld))|].
      split; [split; [discriminate | intros [_ Hlt]; lia]|].
      split; [discriminate|]. split; [reflexivity|]. split; [reflexivity|].
      intros i Hi. unfold getGame.
      destruct (i <? gameCount r) eqn:H1; reflect_hyps; [lia | reflexivity].
  - cbn [fst snd]. unfold MAX_GAMES in *.
    split; [exact (conj Hlen (conj Hcount Hheld))|].
    split; [split; [discriminate | intros [[g Hg] _]; discriminate]|].
    split; [discriminate|]. split; [reflexivity|]. split; [reflexivity|].
    intros i Hi. unfold getGame.
    destruct (i <? gameCount r) eqn:H1; reflect_hyps; [lia | reflexivity].
Qed.

End Registry.

(** The registry of the sketch: one game, registered by the constructor. *)
Lemma addGame_getGame_witness :
  let r := snd (GameRegistry.addGame (Some "FLIP7"%string) GameRegistry.empty) in
  GameRegistry.getGame 0 r = Some "FLIP7"%string
  /\ GameRegistry.getGameCount r = 1
  /\ GameRegistry.getGame 1 r = None.
Proof.
  cbv zeta.
  destruct (@addGame_getGame string GameRegistry.empty (Some "FLIP7"%string) registry_empty_wf)
    as (_ & _ & Hok & _ & _ & Hout).
  destruct (Hok eq_refl) as [Hcount Hget].
  split; [exact Hget|]. split; [exact Hcount|]. apply Hout. rewrite Hcount. cbn. lia.
Defined.

(** ** Buttons *)

Section Buttons.
Variable longPressDuration : Z.
Variables onRelease onLongPress : option (Dealer -> Dealer).

Lemma observe_observes up rds : forall s, observe up (observes rds s) = observe up s.
Proof.
  unfold observes. induction rds as [|rd rds IH]; intros s; [reflexivity|].
  cbn [fold_left]. rewrite IH. reflexivity.
Qed.

(** While the button is held and the long press is not due, or has been
    signalled, nothing happens. *)
Lemma pollButton_held rds rest : forall b s,
  lastButtonState b = false ->
  (longPressFlag b = true
   \/ Forall (fun rd => elapsed (now rd) (pressTime b) < longPressDuration) rds) ->
  pollButton longPressDuration onRelease onLongPress (held rds ++ rest) b s
  = pollButton longPressDuration onRelease onLongPress rest b (observes rds s).
Proof.
  induction rds as [|rd rds IH]; intros b s Hlast Hquiet; [reflexivity|].
  cbn [held map app pollButton]. fold (held rds).
  assert (Hstep : checkButton false longPressDuration onRelease onLongPress b (observe rd s)
                  = (b, observe rd s)).
  { unfold checkButton. cbv zeta.
    destruct b as [lp lbs pt lf]. bsimpl. subst lbs.
    destruct Hquiet as [-> | Hall]; [reflexivity|].
    apply Forall_cons in Hall. destruct Hall as [Hrd _].
    destruct lf; [reflexivity|]. bsimpl.
    destruct (longPressDuration <=? elapsed (now rd) pt) eqn:Hdue; reflect_hyps;
      [lia | reflexivity]. }
  rewrite Hstep. unfold observes. cbn [fold_left]. apply IH; [exact Hlast|].
  destruct Hquiet as [Hf | Hall]; [left; exact Hf | right].
  apply Forall_cons in Hall. apply Hall.
Qed.

(** X14. A button pressed and released.  When every reading of the clock
    taken while it is held comes less than [longPressDuration] after the
    first one, the release runs [onRelease], once, after
    [resetTagsOnButtonPress], and [onLongPress] does not run.  When a
    reading comes [longPressDuration] or more after the first one,
    [onLongPress] runs at that reading, once, however long the button is
    held on, and the release runs nothing.  Either way the button ends
    released, its long press flag clear. *)
Theorem checkButton_press click hold b s rd0 early late more up :
  onRelease = Some click -> onLongPress = Some hold ->
  lastButtonState b = true -> longPressFlag b = false ->
  0 < longPressDuration ->
  Forall (fun rd => elapsed (now rd) (now rd0) < longPressDuration) early ->
  longPressDuration <= elapsed (now late) (now rd0) ->
  let idle := {| lastPress := now up; lastButtonState := true;
                 pressTime := now rd0; longPressFlag := false |} in
  pollButton longPressDuration onRelease onLongPress
    (held (rd0 :: early) ++ [(true, up)]) b s
  = (idle, released click (observe up s))
  /\ pollButton longPressDuration onRelease onLongPress
       (held (rd0 :: early) ++ held (late :: more) ++ [(true, up)]) b s
     = (idle, observe up (observes more (hold (resetTagsOnButtonPress (observe late s))))).
Proof.
  intros Hrel Hlong Hlast Hflag Hdur Hearly Hlate. cbv zeta.
  assert (Hpress : checkButton false longPressDuration onRelease onLongPress b
                     (observe rd0 s)
                   = (b <| pressTime := now rd0 |> <| lastButtonState := false |>,
                      observe rd0 s)).
  { unfold checkButton. cbv zeta.
    destruct b as [lp lbs pt lf]. bsimpl. subst lbs lf. bsimpl.
    assert (Hz : elapsed (now rd0) (now rd0) = 0)
      by (unfold elapsed, wrap32; rewrite Z.sub_diag; reflexivity).
    rewrite Hz.
    destruct (longPressDuration <=? 0) eqn:Hd; reflect_hyps; [lia | reflexivity]. }
  set (b1 := b <| pressTime := now rd0 |> <| lastButtonState := false |>) in *.
  assert (Hb1 : lastButtonState b1 = false /\ longPressFlag b1 = false
                /\ pressTime b1 = now rd0 /\ lastPress b1 = lastPress b).
  { subst b1. destruct b as [lp lbs pt lf]. bsimpl. repeat split. exact Hflag. }
  clearbody b1. destruct Hb1 as (L1 & F1 & P1 & LP1).
  split.
  - cbn [held map app pollButton]. fold (held early). rewrite Hpress.
    rewrite pollButton_held by (try right; rewrite ?P1; assumption).
    cbn [pollButton].
    change (observe up (observes early (observe rd0 s)))
      with (observe up (observes (rd0 :: early) s)).
    rewrite observe_observes.
    unfold checkButton, released. cbv zeta. rewrite Hrel.
    destruct b1 as [lp lbs pt lf]. bsimpl. subst lbs lf pt. bsimpl.
    reflexivity.
  - cbn [held map app pollButton]. fold (held early) (held more). rewrite Hpress.
    rewrite pollButton_held by (try right; rewrite ?P1; assumption).
    cbn [pollButton].
    assert (Hdue : checkButton false longPressDuration onRelease onLongPress b1
                     (observe late (observes early (observe rd0 s)))
                   = (b1 <| longPressFlag := true |>,
                      hold (resetTagsOnButtonPress (observe late s)))).
    { change (observe late (observes early (observe rd0 s)))
        with (observe late (observes (rd0 :: early) s)).
      rewrite observe_observes.
      unfold checkButton. cbv zeta. rewrite Hlong.
      destruct b1 as [lp lbs pt lf]. bsimpl. subst lbs lf pt. bsimpl.
      destruct (longPressDuration <=? elapsed (now late) (now rd0)) eqn:Hd;
        reflect_hyps; [reflexivity | lia]. }
    rewrite Hdue.
    rewrite pollButton_held
      by (destruct b1; bsimpl; first [assumption | left; reflexivity]).
    cbn [pollButton]. unfold checkButton. cbv zeta. rewrite Hrel.
    destruct b1 as [lp lbs pt lf]. bsimpl. subst lbs lf pt. bsimpl.
    reflexivity.
Qed.

End Buttons.

(** A click of 200 ms shows the face of the release; a press of more than
    three seconds shows the face of the long press, and that one only. *)
Lemma checkButton_press_witness :
  let poll := pollButton 3000 (Some (displayFace "R")) (Some (displayFace "L")) in
  outputs (snd (poll (held [overBlack 100; overBlack 200] ++ [(true, overBlack 300)])
                  untouched factory))
  = [OutFace "R"]
  /\ outputs (snd (poll (held [overBlack 100; overBlack 200]
                         ++ held [overBlack 3200; overBlack 4000]
                         ++ [(true, overBlack 5000)])
                     untouched factory))
     = [OutFace "L"].
Proof.
  cbv zeta.
  destruct (checkButton_press 3000 (Some (displayFace "R")) (Some (displayFace "L"))
              (displayFace "R") (displayFace "L") untouched factory
              (overBlack 100) [overBlack 200] (overBlack 3200) [overBlack 4000]
              (overBlack 300))
    as [Hclick _]; try reflexivity.
  - repeat constructor.
  - vm_compute. discriminate.
  - destruct (checkButton_press 3000 (Some (displayFace "R")) (Some (displayFace "L"))
                (displayFace "R") (displayFace "L") untouched factory
                (overBlack 100) [overBlack 200] (overBlack 3200) [overBlack 4000]
                (overBlack 5000))
      as [_ Hlong]; try reflexivity.
    + repeat constructor.
    + vm_compute. discriminate.
    + rewrite Hclick, Hlong. split; reflexivity.
Defined.

(** ** Flip 7: entering scores *)

Section Flip7Scores.
Import Flip7.

Lemma toInt16_small z : -32768 <= z < 32768 -> toInt16 z = z.
Proof.
  intros Hz. unfold toInt16, wrap16. cbv zeta.
  destruct (Z_lt_le_dec z 0) as [Hneg | Hpos].
  - assert (Hm : z mod 65536 = z + 65536).
    { symmetry. apply (Z.mod_unique_pos z 65536 (-1) (z + 65536)); lia. }
    rewrite Hm. destruct (z + 65536 <? 32768) eqn:Hlt; [apply Z.ltb_lt in Hlt|]; lia.
  - rewrite (Z.mod_small z 65536) by lia.
    destruct (z <? 32768) eqn:Hlt; [reflexivity | apply Z.ltb_ge in Hlt; lia].
Qed.

Lemma at_insert_eq l i v :
  0 <= i -> (Z.to_nat i < length l)%nat -> at_ (<[Z.to_nat i := v]> l) i = v.
Proof.
  intros Hi Hlen. unfold at_. rewrite list_lookup_insert_eq by exact Hlen. reflexivity.
Qed.

Lemma at_insert_ne l i j v :
  0 <= i -> 0 <= j -> j <> i -> at_ (<[Z.to_nat i := v]> l) j = at_ l j.
Proof.
  intros Hi Hj Hne. unfold at_. rewrite list_lookup_insert_ne by lia. reflexivity.
Qed.

Lemma cycleOnesDigit_eq i g :
  wf g -> 0 <= i < MAX_PLAYERS ->
  - maxRoundScore <= at_ (currentRoundScores g) i <= maxRoundScore ->
  cycleOnesDigit i g
  = setRound i (onesCycled (isAdjScore (gameFlags g) && adjSign (gameFlags g))
                  (at_ (currentRoundScores g) i)) g.
Proof.
  intros (_ & _ & Hlen & _) Hi Hs. unfold MAX_PLAYERS, NUM_PLAYER_COLORS, maxRoundScore in *.
  unfold cycleOnesDigit, onesCycled, maxRoundScore. cbv zeta.
  set (score := at_ (currentRoundScores g) i) in *.
  pose proof (Z.quot_rem' score 10) as Hqr.
  assert (Hr : -10 < Z.rem score 10 < 10).
  { pose proof (Z.rem_bound_abs score 10). lia. }
  assert (Hq : -180 <= Z.quot score 10 * 10 <= 180) by lia.
  rewrite (toInt16_small (Z.quot score 10 * 10)) by lia.
  rewrite (toInt16_small (Z.rem score 10)) by lia.
  set (tens := Z.quot score 10 * 10) in *. set (ones := Z.rem score 10) in *.
  assert (Hr1 : -10 < Z.rem (ones + 1) 10 < 10).
  { pose proof (Z.rem_bound_abs (ones + 1) 10). lia. }
  rewrite !(toInt16_small (ones - 1)), !(toInt16_small (ones + 1)),
          !(toInt16_small (Z.rem (ones + 1) 10)) by lia.
  set (ones' := if isAdjScore (gameFlags g) && adjSign (gameFlags g) then _ else _).
  assert (Ho : -10 < ones' < 10).
  { subst ones'. repeat case_if; reflect_hyps; lia. }
  clearbody ones'.
  rewrite (toInt16_small (tens + ones')) by lia.
  fsimpl. rewrite at_insert_eq by (rewrite ?Hlen; lia).
  case_if; [|reflexivity].
  fsimpl. rewrite list_insert_insert_eq. reflexivity.
Qed.

Lemma incrementScoreByTen_eq i g :
  wf g -> 0 <= i < MAX_PLAYERS ->
  - maxRoundScore <= at_ (currentRoundScores g) i <= maxRoundScore ->
  incrementScoreByTen i g
  = setRound i (tenAdded (isAdjScore (gameFlags g) && adjSign (gameFlags g))
                  (at_ (currentRoundScores g) i)) g.
Proof.
  intros (_ & _ & Hlen & _) Hi Hs. unfold MAX_PLAYERS, NUM_PLAYER_COLORS, maxRoundScore in *.
  unfold incrementScoreByTen, tenAdded, maxRoundScore. cbv zeta.
  set (score := at_ (currentRoundScores g) i) in *.
  rewrite (toInt16_small (score - 10)), (toInt16_small (score + 10)) by lia.
  destruct (isAdjScore (gameFlags g) && adjSign (gameFlags g));
    fsimpl; rewrite at_insert_eq by (rewrite ?Hlen; lia);
    (case_if; [|reflexivity]); fsimpl; rewrite list_insert_insert_eq; reflexivity.
Qed.

Lemma scores_checked negative score :
  -171 <= score <= 171 -> scoreChecks negative score = true.
Proof.
  intros Hs.
  assert (Hall : forallb (fun k => scoreChecks true (Z.of_nat k - 171)
                                   && scoreChecks false (Z.of_nat k - 171))
                   (seq 0 343) = true) by (vm_compute; reflexivity).
  rewrite forallb_forall in Hall.
  specialize (Hall (Z.to_nat (score + 171))).
  replace (Z.of_nat (Z.to_nat (score + 171)) - 171) with score in Hall by lia.
  apply andb_prop in Hall; [|apply in_seq; lia].
  destruct negative; apply Hall.
Qed.

(** X15. Entering the score of a round in Flip 7.  From a score within
    the 171 points a round can bring, either way, [cycleOnesDigit] and
    [incrementScoreByTen] change the score of that player only and keep it
    within these bounds.  [cycleOnesDigit] never changes the tens; when
    adding to a score that is not negative it steps the ones digit up and
    wraps it from 9 to 0, and falls back to the tens when the step would
    pass 171.  [incrementScoreByTen] adds ten, or subtracts ten when
    adjusting downwards, and resets the score to 0 when that would pass
    the bounds. *)
Theorem score_entry i g :
  wf g -> 0 <= i < MAX_PLAYERS ->
  - maxRoundScore <= at_ (currentRoundScores g) i <= maxRoundScore ->
  let score := at_ (currentRoundScores g) i in
  let negative := isAdjScore (gameFlags g) && adjSign (gameFlags g) in
  let ones := at_ (currentRoundScores (cycleOnesDigit i g)) i in
  let tens := at_ (currentRoundScores (incrementScoreByTen i g)) i in
  cycleOnesDigit i g = setRound i ones g
  /\ incrementScoreByTen i g = setRound i tens g
  /\ - maxRoundScore <= ones <= maxRoundScore
  /\ - maxRoundScore <= tens <= maxRoundScore
  /\ Z.quot ones 10 = Z.quot score 10
  /\ (negative = false -> 0 <= score ->
      ones = if (Z.rem score 10 =? 9) || (maxRoundScore <=? score)
             then score - Z.rem score 10 else score + 1)
  /\ tens = (if negative
             then (if score - 10 <? - maxRoundScore then 0 else score - 10)
             else (if maxRoundScore <? score + 10 then 0 else score + 10)).
Proof.
  intros Hwf Hi Hs. cbv zeta.
  rewrite (cycleOnesDigit_eq i g Hwf Hi Hs), (incrementScoreByTen_eq i g Hwf Hi Hs).
  destruct Hwf as (_ & _ & Hlen & _).
  unfold MAX_PLAYERS, NUM_PLAYER_COLORS, maxRoundScore in *.
  fsimpl. rewrite !at_insert_eq by (rewrite ?Hlen; lia).
  set (score := at_ (currentRoundScores g) i) in *.
  set (negative := isAdjScore (gameFlags g) && adjSign (gameFlags g)).
  clearbody score negative.
  split; [reflexivity|]. split; [reflexivity|].
  pose proof (scores_checked negative score Hs) as Hc.
  unfold scoreChecks in Hc. cbv zeta in Hc.
  repeat (apply andb_prop in Hc; destruct Hc as [Hc ?]).
  reflect_hyps.
  repeat split; try assumption.
  intros -> Hpos. cbn [negb orb] in *.
  match goal with H : (_ <? 0) || _ = true |- _ => rename H into Hadd end.
  apply orb_prop in Hadd. destruct Hadd as [Hadd | Hadd]; reflect_hyps; [lia | exact Hadd].
Qed.

End Flip7Scores.

(** Three players, the third with 169 points in the round: the next ones
    digit wraps to 160, and ten more points reset the score. *)
Lemma score_entry_witness :
  let g := Flip7.withRound 3 [12; 0; 169] in
  Flip7.at_ (Flip7.currentRoundScores (Flip7.cycleOnesDigit 2 g)) 2 = 160
  /\ Flip7.at_ (Flip7.currentRoundScores (Flip7.incrementScoreByTen 2 g)) 2 = 0.
Proof.
  cbv zeta.
  destruct (score_entry 2 (Flip7.withRound 3 [12; 0; 169]))
    as (_ & _ & _ & _ & _ & Hones & Htens).
  - split; [split; apply Z.leb_le; vm_compute; reflexivity|].
    repeat split; vm_compute; reflexivity.
  - split; [apply Z.leb_le; vm_compute; reflexivity | reflexivity].
  - split; apply Z.leb_le; vm_compute; reflexivity.
  - split; [apply Hones; [reflexivity | apply Z.leb_le; vm_compute; reflexivity]
           | exact Htens].
Defined.

(** ** Flip 7: totals and the winner *)

Section Flip7Totals.
Import Flip7.

Lemma at_default l i : (length l <= Z.to_nat i)%nat -> at_ l i = 0.
Proof. intros Hi. unfold at_. rewrite lookup_ge_None_2 by exact Hi. reflexivity. Qed.

Lemma at_replicate n i : at_ (replicate n 0) i = 0.
Proof.
  unfold at_. destruct (replicate n 0 !! Z.to_nat i) as [v|] eqn:Hv; [|reflexivity].
  apply lookup_replicate in Hv. destruct Hv as [-> _]. reflexivity.
Qed.

Lemma insert_at l i : 0 <= i -> (Z.to_nat i < length l)%nat -> <[Z.to_nat i := at_ l i]> l = l.
Proof.
  intros Hi Hlen. apply list_insert_id. unfold at_.
  destruct (lookup_lt_is_Some_2 l (Z.to_nat i) Hlen) as [v Hv]. rewrite Hv. reflexivity.
Qed.

Lemma tallyFrom_spec n : forall i g,
  0 <= i -> i + Z.of_nat n <= MAX_PLAYERS ->
  length (playerScores g) = Z.to_nat MAX_PLAYERS ->
  let g' := tallyFrom i n g in
  g' = g <| playerScores := playerScores g' |>
  /\ length (playerScores g') = Z.to_nat MAX_PLAYERS
  /\ forall j, 0 <= j ->
       at_ (playerScores g') j
       = if (i <=? j) && (j <? i + Z.of_nat n) then tallied g j
         else at_ (playerScores g) j.
Proof.
  unfold MAX_PLAYERS, NUM_PLAYER_COLORS.
  induction n as [|n IH]; intros i g Hi Hn Hlen; cbv zeta.
  - cbn [tallyFrom]. split; [reflexivity|]. split; [exact Hlen|].
    intros j Hj. destruct (i <=? j) eqn:E1, (j <? i + Z.of_nat 0) eqn:E2;
      reflect_hyps; try lia; reflexivity.
  - cbn [tallyFrom]. cbv zeta. fsimpl.
    rewrite at_insert_eq by (rewrite ?Hlen; lia).
    fold (tallied g i).
    set (g1 := if _ <? 0 then _ else _).
    assert (H1 : g1 = g <| playerScores := <[Z.to_nat i := tallied g i]> (playerScores g) |>).
    { subst g1. unfold tallied. cbv zeta. case_if; fsimpl;
        [rewrite list_insert_insert_eq|]; reflexivity. }
    clearbody g1. subst g1.
    destruct (IH (i + 1) (g <| playerScores
                               := <[Z.to_nat i := tallied g i]> (playerScores g) |>))
      as (Hframe & Hlen' & Hat); [lia | lia | fsimpl; rewrite length_insert; exact Hlen |].
    cbv zeta in Hframe, Hlen', Hat.
    split; [rewrite Hframe at 1; reflexivity|]. split; [exact Hlen'|].
    intros j Hj. rewrite (Hat j Hj). fsimpl.
    replace (i + Z.of_nat (S n)) with (i + 1 + Z.of_nat n) by lia.
    destruct (Z.eq_dec j i) as [-> | Hne].
    + rewrite at_insert_eq by (rewrite ?Hlen; lia).
      destruct (i + 1 <=? i) eqn:E1; reflect_hyps; [lia|].
      destruct (i <=? i) eqn:E2, (i <? i + 1 + Z.of_nat n) eqn:E3; reflect_hyps;
        try lia; reflexivity.
    + rewrite at_insert_ne by lia.
      unfold tallied. fsimpl. rewrite at_insert_ne by lia.
      destruct (i + 1 <=? j) eqn:E1, (i <=? j) eqn:E2; reflect_hyps; try lia; reflexivity.
Qed.

(** X16. [tallyScores] adds the score of the round to the total of every
    registered player and keeps a total from falling below zero; it leaves
    the entries past the players alone and clears the scores of the round,
    so that a second tally changes nothing. *)
Theorem tallyScores_totals g :
  wf g ->
  (forall i, 0 <= i < numPlayers g ->
     -32768 <= at_ (playerScores g) i + at_ (currentRoundScores g) i < 32768) ->
  let g' := tallyScores g in
  (forall i, 0 <= i < numPlayers g ->
     at_ (playerScores g') i
     = Z.max 0 (at_ (playerScores g) i + at_ (currentRoundScores g) i))
  /\ (forall i, numPlayers g <= i -> at_ (playerScores g') i = at_ (playerScores g) i)
  /\ (forall i, at_ (currentRoundScores g') i = 0)
  /\ tallyScores g' = g'.
Proof.
  intros (Hn & Hlen & Hlenr & _) Hfit. cbv zeta.
  unfold MAX_PLAYERS, NUM_PLAYER_COLORS in *.
  assert (Htal : forall g0, length (playerScores g0) = Z.to_nat 8 ->
            0 <= numPlayers g0 <= 8 ->
            let g1 := tallyFrom 0 (Z.to_nat (numPlayers g0)) g0 in
            g1 = g0 <| playerScores := playerScores g1 |>
            /\ length (playerScores g1) = Z.to_nat 8
            /\ forall j, 0 <= j ->
                 at_ (playerScores g1) j
                 = if j <? numPlayers g0 then tallied g0 j else at_ (playerScores g0) j).
  { intros g0 Hl0 Hn0.
    destruct (tallyFrom_spec (Z.to_nat (numPlayers g0)) 0 g0) as (A & B & C);
      [lia | unfold MAX_PLAYERS, NUM_PLAYER_COLORS; lia | exact Hl0 |].
    cbv zeta in A, B, C |- *. split; [exact A|]. split; [exact B|].
    intros j Hj. rewrite (C j Hj).
    replace (0 + Z.of_nat (Z.to_nat (numPlayers g0))) with (numPlayers g0) by lia.
    destruct (0 <=? j) eqn:E; reflect_hyps; [reflexivity | lia]. }
  destruct (Htal g Hlen Hn) as (Hframe & Hlen1 & Hat). cbv zeta in Hframe, Hlen1, Hat.
  assert (Hval : forall i, 0 <= i < numPlayers g ->
            tallied g i = Z.max 0 (at_ (playerScores g) i + at_ (currentRoundScores g) i)).
  { intros i Hi. unfold tallied. cbv zeta. rewrite toInt16_small by (apply Hfit; exact Hi).
    case_if; reflect_hyps; lia. }
  set (g2 := tallyScores g).
  assert (Hg2 : numPlayers g2 = numPlayers g
    /\ length (playerScores g2) = Z.to_nat 8
    /\ currentRoundScores g2 = replicate (Z.to_nat 8) 0
    /\ forall j, 0 <= j ->
         at_ (playerScores g2) j
         = if j <? numPlayers g then tallied g j else at_ (playerScores g) j).
  { subst g2. unfold tallyScores. cbv zeta. fsimpl.
    split; [rewrite Hframe; reflexivity|]. split; [exact Hlen1|].
    split; [reflexivity | exact Hat]. }
  clearbody g2. destruct Hg2 as (Hn2 & Hlen2 & Hround2 & Hat2).
  split; [|split; [|split]].
  - intros i Hi. rewrite Hat2 by lia.
    destruct (i <? numPlayers g) eqn:E; reflect_hyps; [apply Hval; exact Hi | lia].
  - intros i Hi. rewrite Hat2 by lia.
    destruct (i <? numPlayers g) eqn:E; reflect_hyps; [lia | reflexivity].
  - intros i. rewrite Hround2. apply at_replicate.
  - destruct (Htal g2) as (Hframe3 & Hlen3 & Hat3);
      [exact Hlen2 | rewrite Hn2; exact Hn |].
    cbv zeta in Hframe3, Hlen3, Hat3.
    assert (Hsame : playerScores (tallyFrom 0 (Z.to_nat (numPlayers g2)) g2)
                    = playerScores g2).
    { apply list_eq_same_length with (n := Z.to_nat 8); [exact Hlen2 | exact Hlen3|].
      intros k x y Hk Hx Hy.
      assert (Hx' : at_ (playerScores (tallyFrom 0 (Z.to_nat (numPlayers g2)) g2))
                      (Z.of_nat k) = x)
        by (unfold at_; rewrite Nat2Z.id, Hx; reflexivity).
      assert (Hy' : at_ (playerScores g2) (Z.of_nat k) = y)
        by (unfold at_; rewrite Nat2Z.id, Hy; reflexivity).
      rewrite Hat3 in Hx' by lia. rewrite <- Hx', <- Hy'.
      destruct (Z.of_nat k <? numPlayers g2) eqn:E; reflect_hyps; [|reflexivity].
      unfold tallied. cbv zeta. rewrite Hround2, at_replicate, Z.add_0_r.
      rewrite Hn2 in E. rewrite (Hat2 (Z.of_nat k)) by lia.
      destruct (Z.of_nat k <? numPlayers g) eqn:E2; reflect_hyps; [|lia].
      rewrite Hval by lia.
      rewrite toInt16_small
        by (pose proof (Hfit (Z.of_nat k) ltac:(lia)); lia).
      case_if; reflect_hyps; lia. }
    unfold tallyScores, MAX_PLAYERS, NUM_PLAYER_COLORS. cbv zeta.
    rewrite Hframe3, Hsame. fsimpl. rewrite <- Hround2. reflexivity.
Qed.

Lemma winnerFrom_spec g n : forall i w h,
  0 < ScoretoWin g ->
  0 <= i -> i + Z.of_nat n <= MAX_PLAYERS ->
  (forall j, i <= j < i + Z.of_nat n -> 0 <= at_ (playerScores g) j < 32768) ->
  winnerSoFar g i w h ->
  exists h', winnerSoFar g (i + Z.of_nat n) (winnerFrom i n w h g) h'.
Proof.
  unfold MAX_PLAYERS, NUM_PLAYER_COLORS.
  induction n as [|n IH]; intros i w h Hwin Hi Hn Hpos Hinv.
  - exists h. cbn [winnerFrom]. replace (i + Z.of_nat 0) with i by lia. exact Hinv.
  - cbn [winnerFrom].
    assert (Hsc : 0 <= at_ (playerScores g) i < 32768) by (apply Hpos; lia).
    assert (Hw16 : wrap16 (at_ (playerScores g) i) = at_ (playerScores g) i)
      by (unfold wrap16; apply Z.mod_small; lia).
    assert (Hw8 : wrap8 i = i) by (unfold wrap8; apply Z.mod_small; lia).
    rewrite Hw16, Hw8.
    replace (i + Z.of_nat (S n)) with (i + 1 + Z.of_nat n) by lia.
    destruct ((ScoretoWin g <=? at_ (playerScores g) i)
              && (h <? at_ (playerScores g) i)) eqn:Hbetter.
    + apply andb_prop in Hbetter. destruct Hbetter as [Hge Hgt]. reflect_hyps.
      apply IH; [exact Hwin | lia | lia | intros j Hj; apply Hpos; lia |].
      right. split; [lia|]. split; [reflexivity|]. split; [exact Hge|].
      intros j Hj. destruct (Z.eq_dec j i) as [-> | Hne]; [split; lia|].
      destruct Hinv as [(-> & -> & Hnone) | (Hw & -> & Hsw & Hbest)].
      * pose proof (Hnone j ltac:(lia)). split; lia.
      * destruct (Hbest j ltac:(lia)) as [Hle _]. split; lia.
    + apply IH; [exact Hwin | lia | lia | intros j Hj; apply Hpos; lia |].
      apply andb_false_iff in Hbetter.
      destruct Hinv as [(-> & -> & Hnone) | (Hw & -> & Hsw & Hbest)].
      * left. split; [reflexivity|]. split; [reflexivity|].
        intros j Hj. destruct (Z.eq_dec j i) as [-> | Hne]; [|apply Hnone; lia].
        destruct Hbetter as [Hb | Hb]; reflect_hyps; lia.
      * right. split; [lia|]. split; [reflexivity|]. split; [exact Hsw|].
        intros j Hj. destruct (Z.eq_dec j i) as [-> | Hne]; [|apply Hbest; lia].
        destruct Hbetter as [Hb | Hb]; reflect_hyps; split; lia.
Qed.

(** X17. [checkForWinner] answers 255 exactly when no registered player
    has reached [ScoretoWin]; otherwise it answers a registered player who
    has, whose total no other player exceeds, the first of them in case of
    a tie. *)
Theorem checkForWinner_spec g :
  wf g -> 0 < ScoretoWin g ->
  (forall j, 0 <= j < numPlayers g -> 0 <= at_ (playerScores g) j < 32768) ->
  let w := checkForWinner g in
  (w = 255 <-> forall j, 0 <= j < numPlayers g -> at_ (playerScores g) j < ScoretoWin g)
  /\ (w <> 255 ->
      0 <= w < numPlayers g
      /\ ScoretoWin g <= at_ (playerScores g) w
      /\ forall j, 0 <= j < numPlayers g ->
           at_ (playerScores g) j <= at_ (playerScores g) w
           /\ (at_ (playerScores g) j = at_ (playerScores g) w -> w <= j)).
Proof.
  intros (Hn & _) Hwin Hpos. cbv zeta. unfold checkForWinner.
  unfold MAX_PLAYERS, NUM_PLAYER_COLORS in *.
  destruct (winnerFrom_spec g (Z.to_nat (numPlayers g)) 0 255 0 Hwin) as (h & Hinv);
    [lia | unfold MAX_PLAYERS, NUM_PLAYER_COLORS; lia
    | intros j Hj; apply Hpos; lia
    | left; split; [reflexivity|]; split; [reflexivity|]; intros j Hj; lia |].
  replace (0 + Z.of_nat (Z.to_nat (numPlayers g))) with (numPlayers g) in Hinv by lia.
  set (w := winnerFrom 0 (Z.to_nat (numPlayers g)) 255 0 g) in *. clearbody w.
  destruct Hinv as [(-> & -> & Hnone) | (Hw & -> & Hsw & Hbest)].
  - split; [split; [intros _; exact Hnone | reflexivity]|]. intros Hne. congruence.
  - split.
    + split; [intros ->; lia|]. intros Hnone. pose proof (Hnone w Hw). lia.
    + intros _. split; [exact Hw|]. split; [exact Hsw | exact Hbest].
Qed.

End Flip7Totals.

(** ** Flip 7: choosing a player *)

Section Flip7Cycle.
Import Flip7.

Lemma cycleFrom_spec g c dir n : forall i,
  1 <= i -> i + Z.of_nat n <= numPlayers g + 1 -> 0 < numPlayers g <= MAX_PLAYERS ->
  0 <= c ->
  match cycleFrom i n c dir g with
  | Some j =>
      exists d, i <= d < i + Z.of_nat n /\ j = placesFrom c dir (numPlayers g) d
        /\ isPlayerActive g j = true
        /\ forall d', i <= d' < d ->
             isPlayerActive g (placesFrom c dir (numPlayers g) d') = false
  | None =>
      forall d, i <= d < i + Z.of_nat n ->
        isPlayerActive g (placesFrom c dir (numPlayers g) d) = false
  end.
Proof.
  unfold MAX_PLAYERS, NUM_PLAYER_COLORS.
  induction n as [|n IH]; intros i Hi Hn Hnp Hc.
  - cbn [cycleFrom]. intros d Hd. lia.
  - cbn [cycleFrom]. cbv zeta.
    assert (Hidx : match dir with
                   | UP => wrap8 (Z.rem (c + i) (numPlayers g))
                   | DOWN => wrap8 (Z.rem (c - i + numPlayers g) (numPlayers g))
                   end = placesFrom c dir (numPlayers g) i).
    { unfold placesFrom. destruct dir.
      - rewrite Z.rem_mod_nonneg by lia.
        pose proof (Z.mod_pos_bound (c + i) (numPlayers g)).
        unfold wrap8. apply Z.mod_small. lia.
      - rewrite Z.rem_mod_nonneg by lia.
        replace (c - i + numPlayers g) with (c - i + 1 * numPlayers g) by lia.
        rewrite Z_mod_plus_full.
        pose proof (Z.mod_pos_bound (c - i) (numPlayers g)).
        unfold wrap8. apply Z.mod_small. lia. }
    rewrite Hidx.
    destruct (isPlayerActive g (placesFrom c dir (numPlayers g) i)) eqn:Hact.
    + exists i. split; [lia|]. split; [reflexivity|]. split; [exact Hact|].
      intros d' Hd'. lia.
    + specialize (IH (i + 1) ltac:(lia) ltac:(lia) Hnp Hc).
      destruct (cycleFrom (i + 1) n c dir g) as [j|].
      * destruct IH as (d & Hd & Hj & Hjact & Hbefore).
        exists d. split; [lia|]. split; [exact Hj|]. split; [exact Hjact|].
        intros d' Hd'. destruct (Z.eq_dec d' i) as [-> | Hne]; [exact Hact|].
        apply Hbefore. lia.
      * intros d Hd. destruct (Z.eq_dec d i) as [-> | Hne]; [exact Hact|].
        apply IH. lia.
Qed.

(** X18. [cycleActivePlayer] finds the nearest active player in the
    direction given, the current player being the farthest candidate: the
    player it answers is registered and active, and no player nearer in
    that direction is active.  It answers that there is none exactly when
    no registered player is active. *)
Theorem cycleActivePlayer_nearest c dir g :
  wf g -> 0 <= c ->
  match cycleActivePlayer c dir g with
  | Some j =>
      0 <= j < numPlayers g /\ isPlayerActive g j = true
      /\ exists d, 1 <= d <= numPlayers g
           /\ j = placesFrom c dir (numPlayers g) d
           /\ forall d', 1 <= d' < d ->
                isPlayerActive g (placesFrom c dir (numPlayers g) d') = false
  | None => forall j, 0 <= j < numPlayers g -> isPlayerActive g j = false
  end.
Proof.
  intros (Hn & _) Hc. unfold cycleActivePlayer.
  destruct (numPlayers g =? 0) eqn:Hz; reflect_hyps.
  - intros j Hj. lia.
  - pose proof (cycleFrom_spec g c dir (Z.to_nat (numPlayers g)) 1) as Hspec.
    destruct (cycleFrom 1 (Z.to_nat (numPlayers g)) c dir g) as [j|].
    + destruct Hspec as (d & Hd & Hj & Hact & Hbefore); try lia.
      split; [|split; [exact Hact|]].
      * rewrite Hj. unfold placesFrom.
        destruct dir; apply Z.mod_pos_bound; lia.
      * exists d. split; [lia|]. split; [exact Hj | exact Hbefore].
    + intros j Hj.
      set (d := match dir with
                | UP => (j - c - 1) mod numPlayers g + 1
                | DOWN => (c - j - 1) mod numPlayers g + 1
                end).
      assert (Hd : 1 <= d < 1 + Z.of_nat (Z.to_nat (numPlayers g))).
      { subst d. destruct dir;
          match goal with |- context [?a mod ?b] =>
            pose proof (Z.mod_pos_bound a b) end; lia. }
      assert (Hplace : placesFrom c dir (numPlayers g) d = j).
      { subst d. unfold placesFrom. destruct dir.
        - replace (c + ((j - c - 1) mod numPlayers g + 1))
            with (c + 1 + (j - c - 1) mod numPlayers g) by lia.
          rewrite Zplus_mod_idemp_r.
          replace (c + 1 + (j - c - 1)) with j by lia. apply Z.mod_small. lia.
        - replace (c - ((c - j - 1) mod numPlayers g + 1))
            with (c - 1 - (c - j - 1) mod numPlayers g) by lia.
          rewrite Zminus_mod_idemp_r.
          replace (c - 1 - (c - j - 1)) with j by lia. apply Z.mod_small. lia. }
      rewrite <- Hplace. apply Hspec; try lia.
Qed.

End Flip7Cycle.

(** Three players; the second loses 30 points she does not have. *)
Lemma tallyScores_totals_witness :
  let g := Flip7.tallyScores (Flip7.withTotals 3 [100; 20; 0] [12; -30; 169]) in
  Flip7.at_ (Flip7.playerScores g) 0 = 112
  /\ Flip7.at_ (Flip7.playerScores g) 1 = 0
  /\ Flip7.at_ (Flip7.playerScores g) 2 = 169
  /\ Flip7.tallyScores g = g.
Proof.
  cbv zeta.
  destruct (tallyScores_totals (Flip7.withTotals 3 [100; 20; 0] [12; -30; 169]))
    as (Hplayers & _ & _ & Hidem).
  - split; [split; apply Z.leb_le; vm_compute; reflexivity|].
    repeat split; vm_compute; reflexivity.
  - intros i Hi.
    assert (Hcases : i = 0 \/ i = 1 \/ i = 2)
      by (change (Flip7.numPlayers _) with 3 in Hi; lia).
    destruct Hcases as [-> | [-> | ->]];
      split; first [apply Z.leb_le; vm_compute; reflexivity | reflexivity].
  - split; [apply (Hplayers 0); split; [apply Z.leb_le|]; reflexivity|].
    split; [apply (Hplayers 1); split; [apply Z.leb_le|]; reflexivity|].
    split; [apply (Hplayers 2); split; [apply Z.leb_le|]; reflexivity | exact Hidem].
Defined.

(** Two players tied above the score to win: the first of them wins. *)
Lemma checkForWinner_spec_witness :
  let g := Flip7.withTotals 3 [190; 250; 250] [] in
  Flip7.checkForWinner g = 1
  /\ Flip7.ScoretoWin g <= Flip7.at_ (Flip7.playerScores g) (Flip7.checkForWinner g).
Proof.
  cbv zeta.
  destruct (checkForWinner_spec (Flip7.withTotals 3 [190; 250; 250] []))
    as (_ & Hwinner).
  - split; [split; apply Z.leb_le; vm_compute; reflexivity|].
    repeat split; vm_compute; reflexivity.
  - reflexivity.
  - intros j Hj.
    assert (Hcases : j = 0 \/ j = 1 \/ j = 2)
      by (change (Flip7.numPlayers _) with 3 in Hj; lia).
    destruct Hcases as [-> | [-> | ->]];
      split; first [apply Z.leb_le; vm_compute; reflexivity | reflexivity].
  - destruct Hwinner as (_ & Hreached & _); [vm_compute; discriminate|].
    split; [reflexivity | exact Hreached].
Defined.

(** Three players, the second out of the round: up from the first player
    comes the third. *)
Lemma cycleActivePlayer_nearest_witness :
  let g := (Flip7.withRound 3 []) <| Flip7.playerStatus := [3; 1; 3; 0; 0; 0; 0; 0] |> in
  Flip7.cycleActivePlayer 0 Flip7.UP g = Some 2
  /\ Flip7.isPlayerActive g 2 = true.
Proof.
  cbv zeta.
  pose proof (cycleActivePlayer_nearest 0 Flip7.UP
                ((Flip7.withRound 3 [])
                   <| Flip7.playerStatus := [3; 1; 3; 0; 0; 0; 0; 0] |>)) as Hnear.
  destruct (Flip7.cycleActivePlayer 0 Flip7.UP
              ((Flip7.withRound 3 [])
                 <| Flip7.playerStatus := [3; 1; 3; 0; 0; 0; 0; 0] |>))
    as [j|] eqn:Hrun; [|vm_compute in Hrun; discriminate Hrun].
  destruct Hnear as (_ & Hact & _).
  - split; [split; apply Z.leb_le; vm_compute; reflexivity|].
    repeat split; vm_compute; reflexivity.
  - lia.
  - assert (Hj : j = 2) by (vm_compute in Hrun; congruence).
    subst j. split; [reflexivity | exact Hact].
Defined.

(** ** Flip 7: moving *)

Section Flip7Moves.
Context `{Frontend}.
Import Flip7.

Lemma turnsOnly_clockwise speed o : turnsOnly speed CW o -> turnsClockwise o.
Proof. destruct o; cbn; tauto. Qed.

Lemma draws_clockwise extra :
  Forall (fun o => isDisplayOutput o = true) extra -> Forall turnsClockwise extra.
Proof.
  intros Hd. eapply List.Forall_impl; [|exact Hd].
  intros [] Ho; try discriminate Ho; exact I.
Qed.

Lemma stretch_bind s (m : Outcome unit) (k : list Reading -> Dealer -> Outcome unit)
    (mid post : Dealer -> Prop) :
  stretch s m mid ->
  (forall rest s1, mid s1 -> stretch s1 (k rest s1) post) ->
  stretch s (bind m (fun _ => k)) post.
Proof.
  intros ((e1 & Ho1 & Hc1) & Hsame1 & Hmid) Hk.
  destruct m as [[] rest s1|s1]; cbn [bind finalState] in *.
  - destruct (Hk rest s1 (Hmid rest s1 eq_refl)) as ((e2 & Ho2 & Hc2) & Hsame2 & Hpost).
    split; [|split; [eapply sameDeal_trans; eassumption | exact Hpost]].
    exists (e1 ++ e2). rewrite Ho2, Ho1, app_assoc.
    split; [reflexivity | apply Forall_app; split; assumption].
  - split; [exists e1; split; assumption|]. split; [exact Hsame1|].
    intros rest s' Hx. discriminate Hx.
Qed.

Lemma stretch_step s s1 o post :
  sameDeal s s1 ->
  (exists extra, outputs s1 = outputs s ++ extra /\ Forall turnsClockwise extra) ->
  stretch s1 o post -> stretch s o post.
Proof.
  intros Hsame (e1 & Ho1 & Hc1) ((e2 & Ho2 & Hc2) & Hsame2 & Hpost).
  split; [|split; [eapply sameDeal_trans; eassumption | exact Hpost]].
  exists (e1 ++ e2). rewrite Ho2, Ho1, app_assoc.
  split; [reflexivity | apply Forall_app; split; assumption].
Qed.

Lemma stretch_done s ins (post : Dealer -> Prop) :
  post s -> stretch s (Done tt ins s) post.
Proof.
  intros Hp. split; [|split; [apply sameDeal_refl|]].
  - exists []. rewrite app_nil_r. split; [reflexivity | constructor].
  - intros rest s' [= _ <-]. exact Hp.
Qed.

Lemma stretch_stalled s (post : Dealer -> Prop) : stretch s (Stalled s) post.
Proof.
  split; [|split; [apply sameDeal_refl|]].
  - exists []. rewrite app_nil_r. split; [reflexivity | constructor].
  - intros rest s' Hx. discriminate Hx.
Qed.

Lemma moveResult_stretch speed s o post :
  moveResult speed CW s o post ->
  stretch s o (fun s' => motionFlagsConsistent s' /\ post s').
Proof.
  intros ((e & Ho & Ht) & Hsame & Hc & Hpost).
  split; [|split; [exact Hsame|]].
  - exists e. split; [exact Ho|]. eapply List.Forall_impl; [|exact Ht].
    intros o'. apply turnsOnly_clockwise.
  - intros rest s' Hrun. split; [|eapply Hpost; exact Hrun].
    rewrite Hrun in Hc. exact Hc.
Qed.

Lemma scan_motion rd s : motionOf s (colorScan (observe rd s)).
Proof. destruct (scan_run rd s) as (A & B & _). split; assumption. Qed.

Lemma scroll_step (spinning : bool) s :
  let s' := if spinning then updateScrollText s else s in
  motionOf s s' /\ sameDeal s s' /\ colours s' = colours s /\ world s' = world s
  /\ exists extra, outputs s' = outputs s ++ extra /\ Forall turnsClockwise extra.
Proof.
  cbv zeta. destruct spinning.
  - destruct (updateScrollText_draws s) as (e & Ho & Hd).
    destruct (updateScrollText_frame s) as (f2 & sc & out & Heq).
    rewrite Heq in Ho |- *. repeat split.
    exists e. split; [exact Ho | apply draws_clockwise, Hd].
  - repeat split. exists []. rewrite app_nil_r. split; [reflexivity | constructor].
Qed.

Lemma scanUntilTag_run spinning ins : forall s,
  stretch s (scanUntilTag spinning ins s) (fun s' => motionOf s s').
Proof.
  induction ins as [|rd ins IH]; intros s; cbn [scanUntilTag];
    (destruct (activeColor (colours s) =? 0);
     [|apply stretch_done; split; reflexivity]).
  - apply stretch_stalled.
  - cbv zeta.
    destruct (scroll_step spinning (observe rd s)) as (Hm1 & Hs1 & _ & Hw1 & e & Ho1 & Hc1).
    cbv zeta in Hm1, Hs1, Hw1, Ho1.
    set (s1 := if spinning then updateScrollText (observe rd s) else observe rd s) in *.
    assert (Hobs : observe rd s1 = s1).
    { change (observe rd s1) with (s1 <| world := rd |>).
      transitivity (s1 <| world := world s1 |>); [rewrite Hw1; reflexivity | reflexivity]. }
    destruct (scan_run rd s1) as (Hf2 & Hst2 & Hs2 & Ho2). rewrite Hobs in *.
    eapply stretch_step;
      [ eapply sameDeal_trans; [exact Hs1 | exact Hs2]
      | exists e; rewrite Ho2; split; [exact Ho1 | exact Hc1]
      | ].
    destruct (IH (colorScan s1)) as (A & B & C).
    split; [exact A|]. split; [exact B|].
    intros rest s' Hrun. destruct (C rest s' Hrun) as [D1 D2].
    destruct Hm1 as [M1 M2].
    split; [rewrite D1, Hf2, M1 | rewrite D2, Hst2, M2]; reflexivity.
Qed.

Lemma colorScans_run n : forall ins s,
  stretch s (colorScans n ins s) (fun s' => motionOf s s').
Proof.
  induction n as [|n IH]; intros ins s; cbn [colorScans].
  - apply stretch_done. split; reflexivity.
  - destruct ins as [|rd ins]; [apply stretch_stalled|].
    destruct (scan_run rd s) as (Hf & Hst & Hs & Ho).
    eapply stretch_step;
      [ exact Hs
      | exists []; rewrite app_nil_r; split; [exact Ho | constructor]
      | ].
    destruct (IH ins (colorScan (observe rd s))) as (A & B & C).
    split; [exact A|]. split; [exact B|].
    intros rest s' Hrun. destruct (C rest s' Hrun) as [D1 D2].
    split; [rewrite D1, Hf | rewrite D2, Hst]; reflexivity.
Qed.

Lemma spinLoop_run t0 dur ins : forall s,
  stretch s (spinLoop t0 dur ins s) (fun s' => motionOf s s').
Proof.
  induction ins as [|rd ins IH]; intros s; cbn [spinLoop]; [apply stretch_stalled|].
  cbv zeta. case_if.
  - destruct (scroll_step true (observe rd s)) as (Hm1 & Hs1 & _ & _ & e & Ho1 & Hc1).
    cbv zeta in Hm1, Hs1, Ho1.
    eapply stretch_step; [exact Hs1 | exists e; split; [exact Ho1 | exact Hc1] |].
    destruct (IH (updateScrollText (observe rd s))) as (A & B & C).
    split; [exact A|]. split; [exact B|].
    intros rest s' Hrun. destruct (C rest s' Hrun) as [D1 D2]. destruct Hm1 as [M1 M2].
    split; [rewrite D1, M1 | rewrite D2, M2]; reflexivity.
  - split; [|split].
    + exists []. rewrite app_nil_r. split; [reflexivity | constructor].
    + repeat split.
    + intros rest s' [= _ <-]. split; reflexivity.
Qed.

Lemma stretch_weaken s o (P Q : Dealer -> Prop) :
  stretch s o P -> (forall s', P s' -> Q s') -> stretch s o Q.
Proof.
  intros (A & B & C) HPQ. split; [exact A|]. split; [exact B|].
  intros rest s' Hrun. apply HPQ. eapply C. exact Hrun.
Qed.

Lemma rotate_stretch speed s o post :
  stretch (rotate speed CW s) o post -> stretch s o post.
Proof.
  destruct (turn_run speed CW s) as (_ & Hsame & _ & e & Ho & Ht).
  apply stretch_step; [exact Hsame|].
  exists e. split; [exact Ho|]. eapply List.Forall_impl; [|exact Ht].
  intros o'. apply turnsOnly_clockwise.
Qed.

Lemma rotateStop_stretch s o post :
  motionFlagsConsistent s ->
  stretch (rotateStop s) o post -> stretch s o post.
Proof.
  intros Hc. destruct (rotateStop_run lowSpeed CW s Hc) as (_ & Hsame & _ & e & Ho & Ht).
  apply stretch_step; [exact Hsame|].
  exists e. split; [exact Ho|]. eapply List.Forall_impl; [|exact Ht].
  intros o'. apply turnsOnly_clockwise.
Qed.

Lemma motionOf_consistent s s' :
  motionOf s s' -> motionFlagsConsistent s -> motionFlagsConsistent s'.
Proof. intros [Hf Hs] Hc. unfold motionFlagsConsistent. rewrite Hf, Hs. exact Hc. Qed.

Lemma motionOf_atRest s s' : motionOf s s' -> atRest s -> atRest s'.
Proof. intros [Hf Hs]. unfold atRest. rewrite Hf, Hs. trivial. Qed.

Lemma advanceOnePosition_run spinning ins s :
  motionFlagsConsistent s ->
  stretch s (advanceOnePosition spinning ins s) atRest.
Proof.
  intros Hc. unfold advanceOnePosition.
  eapply stretch_bind;
    [exact (moveResult_stretch _ _ _ _ (moveOffActiveColor_run CW ins s Hc))|].
  intros rest1 s1 _. cbv zeta. apply (rotate_stretch mediumSpeed).
  destruct (turn_run mediumSpeed CW s1) as (Hc2 & _).
  eapply stretch_bind; [apply scanUntilTag_run|].
  intros rest2 s3 Hm3. cbv beta in Hm3.
  pose proof (motionOf_consistent _ _ Hm3 Hc2) as Hc3.
  apply rotateStop_stretch; [exact Hc3|].
  destruct (rotateStop_run lowSpeed CW s3 Hc3) as (Hrest & _).
  eapply stretch_weaken; [apply colorScans_run|].
  intros s' Hm. exact (motionOf_atRest _ _ Hm Hrest).
Qed.

Lemma spin_run text dur ins s :
  motionFlagsConsistent s ->
  stretch s (spin text dur ins s)
    (fun s' => scrollingComplete (flags2 s') = true
               /\ if dur =? 0 then motionOf s s' else atRest s').
Proof.
  intros Hc. unfold spin. cbv zeta.
  set (s1 := startScrollText _ _ _ _ s).
  assert (H1 : motionOf s s1 /\ sameDeal s s1 /\ outputs s1 = outputs s)
    by (subst s1; repeat split).
  clearbody s1. destruct H1 as (Hm1 & Hs1 & Ho1).
  apply (stretch_step s s1); [exact Hs1 | | ].
  { exists []. rewrite app_nil_r. split; [exact Ho1 | constructor]. }
  destruct (dur =? 0) eqn:Hd.
  - split; [|split].
    + exists []. rewrite app_nil_r. split; [reflexivity | constructor].
    + repeat split.
    + intros rest s' [= _ <-]. split; [reflexivity|].
      destruct Hm1 as [A B]. split; [exact A | exact B].
  - apply (rotate_stretch highSpeed).
    destruct (turn_run highSpeed CW s1) as (Hc2 & _).
    eapply stretch_bind; [apply spinLoop_run|].
    intros rest2 s3 Hm3. cbv beta in Hm3.
    pose proof (motionOf_consistent _ _ Hm3 Hc2) as Hc3.
    apply rotateStop_stretch; [exact Hc3|].
    destruct (rotateStop_run lowSpeed CW s3 Hc3) as (Hrest & _).
    split; [|split].
    + exists []. rewrite app_nil_r. split; [reflexivity | constructor].
    + repeat split.
    + intros rest s' [= _ <-]. split; [reflexivity|].
      destruct Hrest as (A & B & C). repeat split; assumption.
Qed.

(** X19. The moves of Flip 7.  [advanceOnePosition] and [spin] command
    the rotation clockwise only, and stop it before they return: when
    either returns, the dealer is at rest, the deal stands where it stood,
    and nothing but clockwise rotations, stops and writes to the display
    has been output.  [spin] returns with the scrolling of its text over;
    with a duration of 0 it does not touch the motion at all. *)
Theorem flip7_moves_clockwise spinning text dur ins s :
  motionFlagsConsistent s ->
  (forall rest s',
     advanceOnePosition spinning ins s = Done tt rest s' ->
     atRest s' /\ sameDeal s s'
     /\ exists extra, outputs s' = outputs s ++ extra /\ Forall turnsClockwise extra)
  /\ (forall rest s',
       spin text dur ins s = Done tt rest s' ->
       scrollingComplete (flags2 s') = true
       /\ (dur <> 0 -> atRest s')
       /\ (dur = 0 -> flags1 s' = flags1 s /\ stopped s' = stopped s
                      /\ outputs s' = outputs s)
       /\ sameDeal s s'
       /\ exists extra, outputs s' = outputs s ++ extra /\ Forall turnsClockwise extra).
Proof.
  intros Hc. split.
  - intros rest s' Hrun.
    destruct (advanceOnePosition_run spinning ins s Hc) as (Hout & Hsame & Hpost).
    rewrite Hrun in Hout, Hsame. cbn [finalState] in Hout, Hsame.
    split; [exact (Hpost _ _ Hrun)|]. split; [exact Hsame | exact Hout].
  - intros rest s' Hrun.
    destruct (spin_run text dur ins s Hc) as (Hout & Hsame & Hpost).
    destruct (Hpost _ _ Hrun) as [Hsc Hmotion].
    rewrite Hrun in Hout, Hsame. cbn [finalState] in Hout, Hsame.
    split; [exact Hsc|].
    split; [intros Hne; destruct (dur =? 0) eqn:Hd; reflect_hyps; [congruence | exact Hmotion]|].
    split; [|split; [exact Hsame | exact Hout]].
    intros ->. cbn in Hmotion. destruct Hmotion as [A B].
    split; [exact A|]. split; [exact B|].
    revert Hrun. unfold spin. cbn. intros [= _ <-]. reflexivity.
Qed.

End Flip7Moves.

(** From the reference tag over the bare surface to a tag, and a spin of a
    tenth of a second. *)
Lemma flip7_moves_clockwise_witness :
  let step := @Flip7.advanceOnePosition silentFrontend false
                (overBlackFor 0 3 ++ overRedFor 30 20) backOnReference in
  let turn := @Flip7.spin silentFrontend "SPIN" 100
                [overBlack 10; overBlack 200] backOnReference in
  atRest (finalState step) /\ atRest (finalState turn).
Proof.
  cbv zeta.
  destruct (@flip7_moves_clockwise silentFrontend false "SPIN" 100
              (overBlackFor 0 3 ++ overRedFor 30 20) backOnReference)
    as [Hstep _]; [intros _; split; reflexivity|].
  destruct (@flip7_moves_clockwise silentFrontend false "SPIN" 100
              [overBlack 10; overBlack 200] backOnReference)
    as [_ Hturn]; [intros _; split; reflexivity|].
  destruct (@Flip7.advanceOnePosition silentFrontend false
              (overBlackFor 0 3 ++ overRedFor 30 20) backOnReference)
    as [[] rest1 s1|s1] eqn:Hrun1; [|vm_compute in Hrun1; discriminate Hrun1].
  destruct (@Flip7.spin silentFrontend "SPIN" 100
              [overBlack 10; overBlack 200] backOnReference)
    as [[] rest2 s2|s2] eqn:Hrun2; [|vm_compute in Hrun2; discriminate Hrun2].
  cbn [finalState]. split.
  - destruct (Hstep rest1 s1 eq_refl) as [Hrest _]. exact Hrest.
  - destruct (Hturn rest2 s2 eq_refl) as (_ & Hrest & _). apply Hrest. discriminate.
Defined.

(** ** The end of a game *)

Section GameOver.
Context `{F : Frontend} `{G : Game}.
Hypothesis screens : screensOnlyDraw F.

(** X20. A pass of [checkState] that finds the game over, no error being
    in progress and no full exit requested: the dealer turns clockwise at
    low speed off the tag it is on, and the pass goes on to reset the
    dealer; it ends in [IDLE] with the dealer at rest, no exit left
    requested, and the word GAME shown after the moves. *)
Theorem checkState_game_over ins s rest s' :
  motionFlagsConsistent s ->
  gameOver (flags3 s) = true ->
  errorInProgress (flags4 s) = false ->
  fullExit (flags4 s) = false ->
  checkState ins s = Done tt rest s' ->
  currentDealState s' = IDLE
  /\ atRest s'
  /\ fullExit (flags4 s') = false /\ gamesExit (flags4 s') = false
  /\ toolsExit (flags4 s') = toolsExit (flags4 s)
  /\ exists moves extra,
       outputs s' = outputs s ++ moves ++ OutFace "GAME" :: extra
       /\ Forall (fun o => turnsOnly lowSpeed CW o) moves
       /\ Forall (fun o => isDisplayOutput o = true) extra.
Proof.
  intros Hc Hgo Herr Hfull. unfold checkState. cbv zeta.
  set (s1 := if negb (dealState_eqb _ _) then _ else s).
  assert (H1 : flags1 s1 = flags1 s /\ stopped s1 = stopped s
    /\ flags3 s1 = flags3 s /\ flags4 s1 = flags4 s /\ outputs s1 = outputs s).
  { subst s1. case_if; repeat split. }
  clearbody s1. destruct H1 as (E1 & Est & E3 & E4 & Eout).
  rewrite E3, Hgo. unfold handleGameOver.
  assert (Hc1 : motionFlagsConsistent s1)
    by (unfold motionFlagsConsistent; rewrite E1, Est; exact Hc).
  destruct (moveOffActiveColor_run CW ins s1 Hc1) as ((moves & Ho2 & Hm2) & Hsame2 & _ & _).
  destruct (moveOffActiveColor CW ins s1) as [[] ins2 s2|s2];
    cbn [bind finalState] in *; [|intros Hx; discriminate Hx].
  destruct Hsame2 as (_ & _ & F4 & _).
  match goal with |- context [updateDisplay ?t] =>
    destruct (updateDisplay_onlyDraws screens t)
      as ((_ & _ & He & Hg & Ht & _ & e3 & Ho3 & Hd3) & Hok & _);
    destruct Hok as (Hds & Hfx & _); [discriminate|];
    revert He Hg Ht Ho3 Hds Hfx; cbv zeta; generalize (updateDisplay t)
  end.
  rsimpl. intros s3 He Hg Ht Ho3 Hds Hfx.
  assert (H41 : flags4 s2 = flags4 s) by exact (eq_trans F4 E4).
  assert (Herr3 : errorInProgress (flags4 s3) = false)
    by exact (eq_trans He (eq_trans (f_equal errorInProgress H41) Herr)).
  cbn [bind].
  match goal with |- context [if ?c then _ else _] =>
    replace c with false by (symmetry; exact Herr3) end.
  match goal with |- context [match ?d with DEALING => _ | _ => _ end] =>
    replace d with RESET_DEALR by (symmetry; exact Hds) end.
  intros [= <- <-].
  destruct (handleResetDealrState_run screens s3)
    as (Hrest & _ & _ & _ & Hgames & _).
  destruct Hgames as (A & B & C & D & e4 & Ho4);
    [exact (eq_trans Hfx (eq_trans (f_equal fullExit H41) Hfull)) | exact Hg |].
  split; [exact A|]. split; [exact Hrest|]. split; [exact B|]. split; [exact C|].
  split; [exact (eq_trans D (eq_trans Ht (f_equal toolsExit H41)))|].
  destruct (handleResetDealrState_run screens s3) as (_ & _ & (e5 & Ho5 & Hd5) & _).
  exists (moves ++ e3).
  assert (He5 : e5 = OutFace "GAME" :: e4).
  { rewrite Ho5 in Ho4. apply app_inv_head in Ho4. exact Ho4. }
  exists e4. split; [|split].
  - etransitivity; [exact Ho4|].
    etransitivity; [exact (f_equal (fun l => l ++ OutFace "GAME" :: e4) Ho3)|].
    etransitivity;
      [exact (f_equal (fun l => (l ++ e3) ++ OutFace "GAME" :: e4) Ho2)|].
    etransitivity;
      [exact (f_equal (fun l => ((l ++ moves) ++ e3) ++ OutFace "GAME" :: e4) Eout)|].
    rewrite <- !app_assoc. reflexivity.
  - apply Forall_app. split; [exact Hm2 | apply turnsOnly_draws, Hd3].
  - subst e5. apply Forall_cons in Hd5. apply Hd5.
Qed.

End GameOver.

(** The game over with the dealer on the reference tag. *)
Lemma checkState_game_over_witness :
  let o := @checkState silentFrontend BaseGame (overBlackFor 0 3)
             (backOnReference <| flags3 -> gameOver := true |>) in
  currentDealState (finalState o) = IDLE /\ atRest (finalState o).
Proof.
  cbv zeta.
  destruct (@checkState silentFrontend BaseGame (overBlackFor 0 3)
              (backOnReference <| flags3 -> gameOver := true |>))
    as [[] rest s'|s'] eqn:Hrun; [|vm_compute in Hrun; discriminate Hrun].
  destruct (@checkState_game_over silentFrontend BaseGame silentFrontend_screensOnlyDraw
              (overBlackFor 0 3) (backOnReference <| flags3 -> gameOver := true |>)
              rest s')
    as (Hidle & Hrest & _).
  - intros _. split; reflexivity.
  - reflexivity.
  - reflexivity.
  - reflexivity.
  - exact Hrun.
  - split; [exact Hidle | exact Hrest].
Defined.

(** ** Showing an error *)



(** ** Dealing does not turn the dealer *)

Section DealingMotion.
Context `{F : Frontend}.
Hypothesis screens : screensOnlyDraw F.

Lemma keepsMotion_refl s : keepsMotion s s.
Proof.
  repeat split. exists []. rewrite app_nil_r. split; [reflexivity | constructor].
Qed.

Lemma keepsMotion_trans s1 s2 s3 :
  keepsMotion s1 s2 -> keepsMotion s2 s3 -> keepsMotion s1 s3.
Proof.
  intros (A1 & A2 & A3 & e1 & Ho1 & Hf1) (B1 & B2 & B3 & e2 & Ho2 & Hf2).
  split; [exact (eq_trans B1 A1)|]. split; [exact (eq_trans B2 A2)|].
  split; [exact (eq_trans B3 A3)|].
  exists (e1 ++ e2). split; [|apply Forall_app; split; assumption].
  etransitivity; [exact Ho2|].
  etransitivity; [exact (f_equal (fun l => l ++ e2) Ho1)|].
  symmetry. apply app_assoc.
Qed.

Lemma onlyDraws_keepsMotion s s' : onlyDraws s s' -> keepsMotion s s'.
Proof.
  intros (Hf & Hs & _ & _ & _ & _ & e & Ho & Hd).
  split; [exact (f_equal rotatingCW Hf)|]. split; [exact (f_equal rotatingCCW Hf)|].
  split; [exact Hs|]. exists e. split; [exact Ho|].
  eapply List.Forall_impl; [|exact Hd]. intros [] Hx; try discriminate Hx; exact I.
Qed.

Lemma updateDisplay_keepsMotion s : keepsMotion s (updateDisplay s).
Proof.
  apply onlyDraws_keepsMotion. destruct (updateDisplay_onlyDraws screens s) as [Hd _].
  exact Hd.
Qed.

(** Steps that set fields and write to the feed and the flywheel. *)
Ltac keeps :=
  unfold keepsMotion, resetThrowCardState, prepareForDeal, stopScrollText,
    flywheelOn, flywheelOff, feedCard_write, emit;
  rsimpl; rewrite <- ?app_assoc;
  repeat (split; [reflexivity|]);
  first [ exists []; rewrite app_nil_r; split; [reflexivity | constructor]
        | eexists; split; [reflexivity | repeat constructor] ].

Lemma pollCraw_keepsMotion s : keepsMotion s (pollCraw s).
Proof.
  destruct (pollCraw_frame s) as (a & b & c & d & e & -> & _). keeps.
Qed.

Lemma slideCard_keepsMotion a s : keepsMotion s (snd (slideCard a s)).
Proof.
  unfold slideCard. cbv zeta. repeat case_if; cbn [snd]; keeps.
Qed.

Lemma handleThrowingTimeout_keepsMotion t s :
  keepsMotion s (handleThrowingTimeout t s).
Proof.
  unfold handleThrowingTimeout. cbv zeta.
  set (s1 := if _ && negb (retractStarted (statics s)) && _ then _ else s).
  assert (H1 : keepsMotion s s1) by (subst s1; case_if; keeps).
  clearbody s1.
  set (s2 := if retractStarted (statics s1) && _ then _ else s1).
  assert (H2 : keepsMotion s1 s2) by (subst s2; case_if; keeps).
  clearbody s2.
  apply (keepsMotion_trans _ _ _ H1). apply (keepsMotion_trans _ _ _ H2).
  case_if; [|apply keepsMotion_refl].
  eapply keepsMotion_trans; [|apply updateDisplay_keepsMotion].
  repeat case_if; keeps.
Qed.

Lemma cardDispensingActions_keepsMotion a s :
  keepsMotion s (snd (cardDispensingActions a s)).
Proof.
  unfold cardDispensingActions. cbv zeta.
  destruct (negb (throwingCard (flags1 s))).
  - cbn [snd]. eapply keepsMotion_trans; [|apply handleThrowingTimeout_keepsMotion]. keeps.
  - pose proof (pollCraw_keepsMotion s) as H1.
    pose proof (slideCard_keepsMotion a (pollCraw s)) as H2.
    destruct (slideCard a (pollCraw s)) as [a' s2]. cbn [snd] in H2.
    pose proof (keepsMotion_trans _ _ _ H1 H2) as H12.
    case_if; cbn [snd];
      (eapply keepsMotion_trans; [|apply handleThrowingTimeout_keepsMotion]);
      [|exact H12].
    eapply keepsMotion_trans; [exact H12|].
    eapply keepsMotion_trans; [|apply updateDisplay_keepsMotion]. keeps.
Qed.

Lemma dispenseLoop_keepsMotion ins : forall a s,
  keepsMotion s (finalState (dispenseLoop a ins s)).
Proof.
  induction ins as [|rd ins IH]; intros a s; cbn [dispenseLoop];
    (destruct (cardDealt (flags1 s)); [apply keepsMotion_refl|]).
  - apply keepsMotion_refl.
  - pose proof (cardDispensingActions_keepsMotion a (observe rd s)) as H1.
    destruct (cardDispensingActions a (observe rd s)) as [a' s1]. cbn [snd] in H1.
    case_if; [exact H1|].
    eapply keepsMotion_trans; [exact H1 | apply IH].
Qed.

Lemma dealSingleCard_keepsMotion a ins s :
  keepsMotion s (finalState (dealSingleCard a ins s)).
Proof.
  unfold dealSingleCard. cbv zeta.
  set (s1 := if _ || _ then _ else s).
  assert (H1 : keepsMotion s s1).
  { subst s1. case_if; [|apply keepsMotion_refl].
    eapply keepsMotion_trans; [|apply updateDisplay_keepsMotion]. keeps. }
  clearbody s1. apply (keepsMotion_trans _ _ _ H1).
  case_if; [|keeps].
  pose proof (dispenseLoop_keepsMotion ins a s1) as H2.
  destruct (dispenseLoop a ins s1) as [[a' e] rest s2|s2]; cbn [bind finalState snd] in *;
    [|exact H2].
  destruct e; cbn [finalState]; [exact H2|].
  eapply keepsMotion_trans; [exact H2|]. keeps.
Qed.

End DealingMotion.

(** ** The flip card *)

Section FlipCard.
Context `{F : Frontend}.
Hypothesis screens : screensOnlyDraw F.

(** X22. Dealing a card does not turn the dealer: [dealSingleCard],
    whether it returns or is still waiting for the card, has left the
    direction flags and [stopped] as they were, and has sent commands to
    the feed and the flywheel and writes to the display only. *)
Theorem dealSingleCard_never_turns a ins s :
  let s' := finalState (dealSingleCard a ins s) in
  rotatingCW (flags1 s') = rotatingCW (flags1 s)
  /\ rotatingCCW (flags1 s') = rotatingCCW (flags1 s)
  /\ stopped s' = stopped s
  /\ exists extra, outputs s' = outputs s ++ extra /\ Forall feedsOnly extra.
Proof. exact (dealSingleCard_keepsMotion screens a ins s). Qed.

Lemma turn_no_reversal speed d rd s :
  notAgainst d s ->
  let s' := rotate speed d (colorScan (observe rd s)) in
  notAgainst d s'
  /\ exists extra, outputs s' = outputs s ++ extra
       /\ Forall (fun o => reverses o = false) extra.
Proof.
  intros Hn. cbv zeta.
  destruct (scan_run rd s) as (Hf & _ & _ & Ho).
  destruct (rotate_frame speed d (colorScan (observe rd s)))
    as (f2 & sc & extra & pd & es & -> & Hd).
  split.
  - unfold notAgainst. rsimpl. destruct d; reflexivity.
  - eexists. split; [rsimpl; rewrite Ho; reflexivity|].
    constructor.
    + cbn [reverses]. unfold notAgainst in Hn.
      destruct d; [exact (eq_trans (f_equal rotatingCCW Hf) Hn)
                  | exact (eq_trans (f_equal rotatingCW Hf) Hn)].
    + eapply List.Forall_impl; [|exact Hd]. intros [] Hx; try discriminate Hx; reflexivity.
Qed.

Lemma rotateStop_no_reversal s :
  exists extra, outputs (rotateStop s) = outputs s ++ extra
    /\ Forall (fun o => reverses o = false) extra.
Proof.
  unfold rotateStop, emit. destruct (negb (stopped s)).
  - eexists. split; [reflexivity | repeat constructor].
  - exists []. rewrite app_nil_r. split; [reflexivity | constructor].
Qed.

Lemma noReversal_refl s : noReversal s s.
Proof. exists []. rewrite app_nil_r. split; [reflexivity | constructor]. Qed.

Lemma noReversal_trans s1 s2 s3 : noReversal s1 s2 -> noReversal s2 s3 -> noReversal s1 s3.
Proof.
  intros (e1 & Ho1 & H1) (e2 & Ho2 & H2). exists (e1 ++ e2).
  split; [|apply Forall_app; split; assumption].
  etransitivity; [exact Ho2|].
  etransitivity; [exact (f_equal (fun l => l ++ e2) Ho1)|].
  symmetry. apply app_assoc.
Qed.

Lemma moveOffActiveColor_no_reversal d ins : forall s,
  notAgainst d s -> noReversal s (finalState (moveOffActiveColor d ins s)).
Proof.
  induction ins as [|rd ins IH]; intros s Hn; cbn [moveOffActiveColor];
    (destruct (negb (activeColor (colours s) =? 0));
     [destruct (errorInProgress (flags4 s)); [apply noReversal_refl|]
     | apply rotateStop_no_reversal]).
  - apply noReversal_refl.
  - assert (Hbody :
      (if d then rotate lowSpeed CW (colorScan (observe rd s))
       else rotate lowSpeed CCW (colorScan (observe rd s)))
      = rotate lowSpeed d (colorScan (observe rd s)))
      by (destruct d; reflexivity).
    cbv zeta. rewrite Hbody.
    destruct (turn_no_reversal lowSpeed d rd s Hn) as (Hn' & Hrev).
    eapply noReversal_trans; [exact Hrev | apply IH; exact Hn'].
Qed.

Lemma returnToActiveColor_no_reversal d ins : forall s,
  notAgainst d s -> noReversal s (finalState (returnToActiveColor d ins s)).
Proof.
  induction ins as [|rd ins IH]; intros s Hn; cbn [returnToActiveColor];
    (destruct (activeColor (colours s) =? 0);
     [destruct (errorInProgress (flags4 s)); [apply noReversal_refl|]
     | apply rotateStop_no_reversal]).
  - apply noReversal_refl.
  - assert (Hbody :
      (if d then rotate lowSpeed CW (colorScan (observe rd s))
       else rotate lowSpeed CCW (colorScan (observe rd s)))
      = rotate lowSpeed d (colorScan (observe rd s)))
      by (destruct d; reflexivity).
    cbv zeta. rewrite Hbody.
    destruct (turn_no_reversal lowSpeed d rd s Hn) as (Hn' & Hrev).
    eapply noReversal_trans; [exact Hrev | apply IH; exact Hn'].
Qed.

Lemma keepsMotion_atRest s s' : keepsMotion s s' -> atRest s -> atRest s'.
Proof.
  intros (A & B & C & _) (R1 & R2 & R3).
  split; [exact (eq_trans C R1)|]. split; [exact (eq_trans A R2) | exact (eq_trans B R3)].
Qed.

Lemma keepsMotion_noReversal s s' : keepsMotion s s' -> noReversal s s'.
Proof.
  intros (_ & _ & _ & e & Ho & Hf). exists e. split; [exact Ho|].
  eapply List.Forall_impl; [|exact Hf]. intros [] Hx; try contradiction; reflexivity.
Qed.

Lemma atRest_consistent s : atRest s -> motionFlagsConsistent s.
Proof. intros (_ & A & B) _. split; assumption. Qed.

Lemma returnToActiveColor_atRest ins s rest s' :
  atRest s ->
  returnToActiveColor CW ins s = Done tt rest s' ->
  atRest s' /\ errorInProgress (flags4 s') = errorInProgress (flags4 s)
  /\ (errorInProgress (flags4 s) = false -> activeColor (colours s') <> 0).
Proof.
  intros Hrest Hrun.
  destruct (returnToActiveColor_run CW ins s (atRest_consistent s Hrest))
    as (_ & Hsame & _ & Hpost).
  rewrite Hrun in Hsame. cbn [finalState] in Hsame.
  destruct Hsame as (_ & _ & F4 & _).
  split; [|split; [exact (f_equal errorInProgress F4)|]].
  - destruct (errorInProgress (flags4 s)) eqn:Herr.
    + revert Hrun. destruct ins as [|rd ins]; cbn [returnToActiveColor]; rewrite Herr;
        (destruct (activeColor (colours s) =? 0); intros [= _ <-];
         [exact Hrest|]);
        destruct (rotateStop_run lowSpeed CW s (atRest_consistent s Hrest)) as [A _];
        exact A.
    + apply (Hpost _ _ Hrun eq_refl).
  - intros Herr. apply (Hpost _ _ Hrun Herr).
Qed.

(** X23. [handleFlipCard] turns the dealer counter-clockwise off the tag,
    deals the flip card with the dealer at rest, and turns it clockwise
    back onto the tag.  When it returns, having been called with the
    dealer not turning clockwise and no error in progress, the dealer is
    at rest and the flag [handlingFlipCard] is clear; a tag is under the
    sensor unless dealing the card has raised an error; and none of the
    commands it has sent asks for a direction while the dealer turns the
    other way. *)
Theorem handleFlipCard_moves ins s rest s' :
  motionFlagsConsistent s ->
  rotatingCW (flags1 s) = false ->
  errorInProgress (flags4 s) = false ->
  handleFlipCard ins s = Done tt rest s' ->
  atRest s'
  /\ handlingFlipCard (flags5 s') = false
  /\ (errorInProgress (flags4 s') = false -> activeColor (colours s') <> 0)
  /\ exists extra,
       outputs s' = outputs s ++ extra
       /\ Forall (fun o => reverses o = false) extra.
Proof.
  intros Hc Hcw Herr. unfold handleFlipCard. cbv zeta.
  set (s0 := s <| flags5 -> handlingFlipCard := true |>).
  assert (Hc0 : motionFlagsConsistent s0) by exact Hc.
  assert (Hn0 : notAgainst CCW s0) by exact Hcw.
  assert (Herr0 : errorInProgress (flags4 s0) = false) by exact Herr.
  assert (Hout0 : outputs s0 = outputs s) by reflexivity.
  clearbody s0.
  destruct (moveOffActiveColor_run CCW ins s0 Hc0) as (_ & _ & _ & Hpost1).
  pose proof (moveOffActiveColor_no_reversal CCW ins s0 Hn0) as Hrev1.
  destruct (moveOffActiveColor CCW ins s0) as [[] ins1 s1|s1];
    cbn [bind finalState] in *; [|intros Hx; discriminate Hx].
  destruct (Hpost1 _ _ eq_refl Herr0) as [_ Hrest1].
  set (s2 := updateDisplay (s1 <| currentDisplayState := FLIP |>)).
  assert (H2 : keepsMotion s1 s2).
  { subst s2. eapply keepsMotion_trans; [|apply (updateDisplay_keepsMotion screens)].
    repeat split. exists []. rewrite app_nil_r. split; [reflexivity | constructor]. }
  clearbody s2.
  pose proof (dealSingleCard_keepsMotion screens 1 ins1 s2) as H3.
  destruct (dealSingleCard 1 ins1 s2) as [[] ins3 s3|s3];
    cbn [bind finalState] in *; [|intros Hx; discriminate Hx].
  set (s4 := s3 <| flags1 -> cardDealt := false |>
                <| flags4 -> postDealRemainderHandled := true |>).
  assert (H4 : keepsMotion s3 s4).
  { subst s4. repeat split. exists []. rewrite app_nil_r.
    split; [reflexivity | constructor]. }
  clearbody s4.
  pose proof (keepsMotion_trans _ _ _ H2 (keepsMotion_trans _ _ _ H3 H4)) as H14.
  pose proof (keepsMotion_atRest _ _ H14 Hrest1) as Hrest4.
  assert (Hn4 : notAgainst CW s4) by (destruct Hrest4 as (_ & _ & A); exact A).
  pose proof (returnToActiveColor_no_reversal CW ins3 s4 Hn4) as Hrev5.
  pose proof (returnToActiveColor_atRest ins3 s4) as Hback.
  destruct (returnToActiveColor CW ins3 s4) as [[] ins5 s5|s5];
    cbn [bind finalState] in *; [|intros Hx; discriminate Hx].
  intros [= _ <-].
  destruct (Hback ins5 s5 Hrest4 eq_refl) as (Hrest5 & He5 & Htag).
  split; [exact Hrest5|]. split; [reflexivity|].
  split.
  - intros He. apply Htag. exact (eq_trans (eq_sym He5) He).
  - pose proof (noReversal_trans _ _ _ Hrev1
                  (noReversal_trans _ _ _ (keepsMotion_noReversal _ _ H14) Hrev5))
      as (extra & Ho & Hf).
    exists extra. split; [|exact Hf].
    etransitivity; [exact Ho|]. exact (f_equal (fun l => l ++ extra) Hout0).
Qed.

End FlipCard.

(** One card passing the beam in a dealer at rest. *)
Lemma dealSingleCard_never_turns_witness :
  let s' := finalState (@dealSingleCard silentFrontend 1 (cardPasses 1000) readyToDeal) in
  stopped s' = true
  /\ exists extra, outputs s' = outputs readyToDeal ++ extra /\ Forall feedsOnly extra.
Proof.
  cbv zeta.
  destruct (@dealSingleCard_never_turns silentFrontend silentFrontend_screensOnlyDraw
              1 (cardPasses 1000) readyToDeal)
    as (_ & _ & Hst & Hout).
  split; [exact Hst | exact Hout].
Defined.

(** The flip card dealt from the reference tag. *)
Lemma handleFlipCard_moves_witness :
  let o := @handleFlipCard silentFrontend
             (overBlackFor 0 3 ++ cardPasses 1000 ++ overRedFor 2000 5)
             backOnReference in
  atRest (finalState o) /\ activeColor (colours (finalState o)) <> 0.
Proof.
  cbv zeta.
  destruct (@handleFlipCard silentFrontend
              (overBlackFor 0 3 ++ cardPasses 1000 ++ overRedFor 2000 5)
              backOnReference)
    as [[] rest s'|s'] eqn:Hrun; [|vm_compute in Hrun; discriminate Hrun].
  destruct (@handleFlipCard_moves silentFrontend silentFrontend_screensOnlyDraw
              (overBlackFor 0 3 ++ cardPasses 1000 ++ overRedFor 2000 5)
              backOnReference rest s')
    as (Hrest & _ & Htag & _).
  - intros _. split; reflexivity.
  - reflexivity.
  - reflexivity.
  - exact Hrun.
  - cbn [finalState]. split; [exact Hrest|]. apply Htag.
    vm_compute in Hrun. injection Hrun as _ <-. reflexivity.
Defined.

(** ** The screensaver *)

Section Screensaver.
Context `{F : Frontend}.
Hypothesis screens : screensOnlyDraw F.

(** X24. [checkTimeouts] starts the screensaver only in [IDLE], outside
    the tools, once a button has been pressed, and more than
    [timeUntilScreensaverStart] after the last press, the times being
    compared modulo 2^32: it does nothing at a reading of the clock that
    comes no later than that after [resetTagsOnButtonPress].  When it
    starts the screensaver it stays in [IDLE], leaves the motion alone and
    writes to the display only. *)
Theorem checkTimeouts_after_press rd s :
  let pressed := resetTagsOnButtonPress s in
  (elapsed (now rd) (now (world s)) <= timeUntilScreensaverStart ->
   checkTimeouts (observe rd pressed) = observe rd pressed)
  /\ (currentDealState s <> IDLE \/ insideDealrTools (flags3 s) = true
      \/ buttonInitialization (flags3 s) = false ->
      checkTimeouts s = s)
  /\ onlyDraws s (checkTimeouts s)
  /\ (currentDealState s = IDLE -> currentDealState (checkTimeouts s) = IDLE).
Proof.
  cbv zeta. split; [|split; [|split]].
  - intros Hel. unfold checkTimeouts, resetTagsOnButtonPress. cbv zeta.
    change (now (world (observe rd ?x))) with (now rd).
    match goal with |- context [_ <? elapsed ?a ?b] =>
      change (elapsed a b) with (elapsed (now rd) (now (world s))) end.
    destruct (timeUntilScreensaverStart <? elapsed (now rd) (now (world s))) eqn:E;
      reflect_hyps; [lia|].
    rewrite !andb_false_r. reflexivity.
  - intros Hno. unfold checkTimeouts. cbv zeta.
    destruct Hno as [Hd | [Hd | Hd]].
    + assert (Hb : dealState_eqb (currentDealState s) IDLE = false)
        by (destruct (currentDealState s); try reflexivity; congruence).
      rewrite Hb, !andb_false_r. reflexivity.
    + rewrite Hd. cbn [negb]. rewrite !andb_false_r. reflexivity.
    + rewrite Hd. reflexivity.
  - unfold checkTimeouts. cbv zeta. case_if; [|apply onlyDraws_refl].
    match goal with |- context [updateDisplay ?t] =>
      destruct (updateDisplay_onlyDraws screens t) as [Hd _];
      eapply onlyDraws_trans; [|exact Hd]
    end.
    unfold stopScrollText. repeat split.
    exists []. rewrite app_nil_r. split; [reflexivity | constructor].
  - intros Hidle. unfold checkTimeouts. cbv zeta. case_if; [|exact Hidle].
    match goal with |- context [updateDisplay ?t] =>
      destruct (updateDisplay_onlyDraws screens t) as (_ & Hok & _)
    end.
    destruct Hok as (Hds & _); [discriminate|]. exact Hds.
Qed.

End Screensaver.

(** A minute without a button in the games menu starts the screensaver;
    half a minute does not. *)
Lemma checkTimeouts_after_press_witness :
  let menu := (during IDLE 0) <| flags3 -> buttonInitialization := true |>
                              <| currentDisplayState := SELECT_GAME |> in
  let pressed := resetTagsOnButtonPress menu in
  @checkTimeouts silentFrontend (observe (overBlack 30000) pressed)
  = observe (overBlack 30000) pressed
  /\ currentDisplayState (@checkTimeouts silentFrontend (observe (overBlack 60000) pressed))
     = SCREENSAVER.
Proof.
  cbv zeta.
  destruct (@checkTimeouts_after_press silentFrontend silentFrontend_screensOnlyDraw
              (overBlack 30000)
              ((during IDLE 0) <| flags3 -> buttonInitialization := true |>
                               <| currentDisplayState := SELECT_GAME |>))
    as (Hquiet & _).
  split; [apply Hquiet; vm_compute; discriminate | reflexivity].
Defined.
